(** * TikTok analytics Telegram bot: a shallow embedding of [src/index.js]

    The development follows the layout of the program:
    - the JavaScript values the program handles (JSON data returned by the
      analytics endpoint, strings, numbers) and the few runtime operations it
      applies to them ([String], [Number.prototype.toFixed], [||], [??],
      [?.], [String.prototype.replace] with a global pattern);
    - [escapeHtml] and [formatReportMessage];
    - the subscription object, [loadSubscriptions] and [saveSubscriptions]
      over an explicit file system state;
    - the command handlers and [isAdmin];
    - [sendReportToChat] and [runSchedulerCycle], with the command handlers
      that may run while the cycle is suspended on an [await].

    The repository holds a second copy of the program that differs from
    [src/index.js] only in the language of its texts; the texts below are
    those of [src/index.js].

    Strings are byte strings holding the UTF-8 encoding of the JavaScript
    string.  The only characters the program inspects are ASCII ones, whose
    bytes never occur inside a multi-byte UTF-8 sequence, so replacing them
    bytewise agrees with replacing them on UTF-16 code units. *)

From Stdlib Require Import Bool Arith ZArith Lia List Ascii String.
From Stdlib Require Import Numbers.DecimalString Sorting.Permutation.
From Stdlib Require Numbers.DecimalPos Numbers.DecimalFacts.
Import ListNotations.

Local Open Scope list_scope.
Local Open Scope string_scope.
Local Set Warnings "-register-all".

(** ** Exceptions and results *)

(** The exceptions the program can meet: a [TypeError] raised by the
    language, the [SyntaxError] of [JSON.parse], a failed file operation, a
    rejected HTTP request, a rejected Telegram request. *)
Inductive exn : Type :=
| TypeError
| SyntaxError
| IOError
| FetchError
| SendError.

Inductive result (A : Type) : Type :=
| Ok (a : A)
| Throw (e : exn).
Arguments Ok {A} a.
Arguments Throw {A} e.

Definition rbind {A B} (r : result A) (k : A -> result B) : result B :=
  match r with
  | Ok a => k a
  | Throw e => Throw e
  end.

Declare Scope result_scope.
Delimit Scope result_scope with result.
Notation "'let*' x ':=' c 'in' k" := (rbind c (fun x => k))
  (at level 10, x name, c at level 100, k at level 200) : result_scope.

(** ** Strings *)

Definition nl : string := String (ascii_of_nat 10) "".
Definition dquote : string := String (ascii_of_nat 34) "".

(** [s.replace(/c/g, r)] for a one-character pattern [c] and a replacement
    [r] without [$] patterns. *)
Fixpoint replace_all (c : ascii) (r : string) (s : string) : string :=
  match s with
  | EmptyString => EmptyString
  | String a s' =>
      if Ascii.eqb a c then r ++ replace_all c r s'
      else String a (replace_all c r s')
  end.

(** Occurrence of a character in a string. *)
Fixpoint occurs (c : ascii) (s : string) : bool :=
  match s with
  | EmptyString => false
  | String a s' => Ascii.eqb a c || occurs c s'
  end.

(** [s.includes(t)] *)
Fixpoint includes (t s : string) : bool :=
  prefix t s ||
  match s with
  | EmptyString => false
  | String _ s' => includes t s'
  end.

Fixpoint repeat_string (s : string) (n : nat) : string :=
  match n with
  | O => ""
  | S n' => s ++ repeat_string s n'
  end.

(** ** Numbers *)

Module Number.

(** A Number value.  A finite non-zero double is represented by the decimal
    that ECMAScript's [Number::toString] is defined from: the integer [s]
    with the fewest digits, not ending in the digit 0, and the exponent [e]
    such that [s * 10^e] converts to that double (a JSON number literal such
    as [2.5] is [Finite false 25 (-1)], and [100] is [Finite false 1 2]). *)
Inductive number : Type :=
| NaN
| Infinity (neg : bool)
| Zero (neg : bool)
| Finite (neg : bool) (s : positive) (e : Z).

(** Integers, as the doubles they are (exact up to [2^53]): trailing zeros of
    the decimal move into the exponent. *)
Fixpoint strip_zeros (fuel : nat) (s e : Z) : Z * Z :=
  match fuel with
  | O => (s, e)
  | S fuel' =>
      if Z.eqb (Z.modulo s 10) 0 then strip_zeros fuel' (Z.div s 10) (Z.succ e)
      else (s, e)
  end.

Definition of_pos (neg : bool) (p : positive) : number :=
  let '(s, e) := strip_zeros (Pos.size_nat p) (Zpos p) 0%Z in
  Finite neg (Z.to_pos s) e.

Definition of_Z (z : Z) : number :=
  match z with
  | Z0 => Zero false
  | Zpos p => of_pos false p
  | Zneg p => of_pos true p
  end.

Definition digits_of_pos (p : positive) : string :=
  NilEmpty.string_of_uint (Pos.to_uint p).

Definition digits_of_N (n : N) : string :=
  match n with
  | N0 => "0"
  | Npos p => digits_of_pos p
  end.

Definition sign_string (neg : bool) : string := if neg then "-" else "".

Local Open Scope Z_scope.

(** [Number::toString(x)] in radix 10 (ECMA-262, 6.1.6.1.20): with [k] the
    number of digits of [s] and [n = e + k], the four notations. *)
Definition toString_finite (s : positive) (e : Z) : string :=
  let ds := digits_of_pos s in
  let k := Z.of_nat (String.length ds) in
  let n := e + k in
  if (k <=? n) && (n <=? 21) then
    ds ++ repeat_string "0" (Z.to_nat (n - k))
  else if (0 <? n) && (n <=? 21) then
    substring 0 (Z.to_nat n) ds ++ "." ++
    substring (Z.to_nat n) (Z.to_nat (k - n)) ds
  else if (-6 <? n) && (n <=? 0) then
    "0." ++ repeat_string "0" (Z.to_nat (- n)) ++ ds
  else
    let e1 := n - 1 in
    let se := if 0 <=? e1 then "+" else "-" in
    let ex := digits_of_N (Z.to_N (Z.abs e1)) in
    match ds with
    | EmptyString => ""
    | String d EmptyString => String d ("e" ++ se ++ ex)
    | String d rest => String d ("." ++ rest ++ "e" ++ se ++ ex)
    end.

Definition toString (x : number) : string :=
  match x with
  | NaN => "NaN"
  | Zero _ => "0"
  | Infinity neg => sign_string neg ++ "Infinity"
  | Finite neg s e => sign_string neg ++ toString_finite s e
  end.

(** The double nearest to [s * 10^e] (ties to even), as an exact fraction
    [(num, den)]: the mathematical value of [Finite _ s e]. *)
Definition exact_value (s : positive) (e : Z) : Z * Z :=
  let a := if 0 <=? e then Zpos s * 10 ^ e else Zpos s in
  let b := if 0 <=? e then 1 else 10 ^ (- e) in
  let e0 := Z.log2 a - Z.log2 b in
  let above := if 0 <=? e0 then b * 2 ^ e0 <=? a else b <=? a * 2 ^ (- e0) in
  let ex := if above then e0 else e0 - 1 in
  let q := Z.max (ex - 52) (-1074) in
  let num := if 0 <=? q then a else a * 2 ^ (- q) in
  let den := if 0 <=? q then b * 2 ^ q else b in
  let m0 := num / den in
  let r := num mod den in
  let m := if 2 * r <? den then m0
           else if den <? 2 * r then m0 + 1
           else if Z.even m0 then m0 else m0 + 1 in
  if 0 <=? q then (m * 2 ^ q, 1) else (m, 2 ^ (- q)).

(** [Number.prototype.toFixed(f)] (ECMA-262, 21.1.3.3) for [0 <= f <= 100]. *)
Definition toFixed (x : number) (f : nat) : string :=
  match x with
  | NaN | Infinity _ => toString x
  | Zero _ =>
      if Nat.eqb f 0 then "0" else "0." ++ repeat_string "0" f
  | Finite neg s e =>
      let '(num, den) := exact_value s e in
      if 10 ^ 21 * den <=? num then toString x
      else
        let n := (2 * num * 10 ^ Z.of_nat f + den) / (2 * den) in
        let m := digits_of_N (Z.to_N n) in
        let m :=
          if Nat.eqb f 0 then m
          else
            let k := String.length m in
            let m := if Nat.leb k f then repeat_string "0" (f + 1 - k)%nat ++ m
                     else m in
            let k := String.length m in
            substring 0 (k - f)%nat m ++ "." ++ substring (k - f)%nat f m in
        sign_string neg ++ m
  end.

End Number.

Import Number (number).


(** ** JavaScript values *)

(** The values that reach the program: what [JSON.parse] builds, and
    [undefined].  An object is the list of its own properties, under
    distinct keys. *)
Inductive value : Type :=
| VUndefined
| VNull
| VBool (b : bool)
| VNum (x : number)
| VStr (s : string)
| VArr (l : list value)
| VObj (o : list (string * value)).

Fixpoint lookup {A} (k : string) (o : list (string * A)) : option A :=
  match o with
  | [] => None
  | (k', v) :: o' => if String.eqb k' k then Some v else lookup k o'
  end.

Definition is_nullish (v : value) : bool :=
  match v with
  | VUndefined | VNull => true
  | _ => false
  end.

(** [ToBoolean] *)
Definition truthy (v : value) : bool :=
  match v with
  | VUndefined | VNull => false
  | VBool b => b
  | VNum (Number.NaN) | VNum (Number.Zero _) => false
  | VNum _ => true
  | VStr s => negb (String.eqb s "")
  | VArr _ | VObj _ => true
  end.

(** [ToString].  An array is joined with commas, [null] and [undefined]
    elements giving the empty string.  A plain object prints as
    [[object Object]] through [Object.prototype.toString]; when it has an own
    property [toString] (which, coming from JSON, is not callable) the
    conversion finds no usable method and raises a [TypeError]. *)
Fixpoint ToString (v : value) : result string :=
  match v with
  | VUndefined => Ok "undefined"
  | VNull => Ok "null"
  | VBool b => Ok (if b then "true" else "false")
  | VNum x => Ok (Number.toString x)
  | VStr s => Ok s
  | VArr l =>
      (fix join (l : list value) : result string :=
         match l with
         | [] => Ok ""
         | x :: rest =>
             let* a := (if is_nullish x then Ok "" else ToString x) in
             match rest with
             | [] => Ok a
             | _ :: _ => let* b := join rest in Ok (a ++ "," ++ b)
             end
         end%result) l
  | VObj o =>
      match lookup "toString" o with
      | Some _ => Throw TypeError
      | None => Ok "[object Object]"
      end
  end%result.

(** [v.k] for the property names the program reads, none of which is a
    property of [Object.prototype], [String.prototype], [Array.prototype],
    [Number.prototype] or [Boolean.prototype] (the method [toFixed] is
    handled by [fixed1] below). *)
Definition get_prop (v : value) (k : string) : result value :=
  match v with
  | VUndefined | VNull => Throw TypeError
  | VObj o =>
      match lookup k o with
      | Some x => Ok x
      | None => Ok VUndefined
      end
  | _ => Ok VUndefined
  end.

(** [a?.k] *)
Definition get_opt (a : result value) (k : string) : result value :=
  (let* x := a in if is_nullish x then Ok VUndefined else get_prop x k)%result.

(** [a ?? b] *)
Definition js_nullish (a b : result value) : result value :=
  (let* x := a in if is_nullish x then b else Ok x)%result.

(** [a || b] *)
Definition js_or (a b : result value) : result value :=
  (let* x := a in if truthy x then Ok x else b)%result.

Declare Scope js_scope.
Delimit Scope js_scope with js.
Notation "a ?? b" := (js_nullish a b) (at level 71, left associativity) : js_scope.
Notation "a <||> b" := (js_or a b) (at level 71, left associativity) : js_scope.

(** ** escapeHtml *)

Definition escapeHtml (text : value) : result string :=
  (if is_nullish text then Ok ""
   else
     let* s := ToString text in
     Ok (replace_all ">" "&gt;"
          (replace_all "<" "&lt;"
            (replace_all "&" "&amp;" s))))%result.

(** ** formatReportMessage *)

(** [v.toFixed ? v.toFixed(1) : v], for a [v] that is not nullish.  Only a
    number has the method; an object with an own truthy property [toFixed]
    passes the test and then fails the call. *)
Definition fixed1 (v : value) : result value :=
  match v with
  | VUndefined | VNull => Throw TypeError
  | VNum x => Ok (VStr (Number.toFixed x 1))
  | VObj o =>
      match lookup "toFixed" o with
      | Some m => if truthy m then Throw TypeError else Ok v
      | None => Ok v
      end
  | _ => Ok v
  end.

Definition num (z : Z) : value := VNum (Number.of_Z z).

(** [l.forEach((p, idx) => ...)] threading the variable the callback
    assigns. *)
Fixpoint forEach {S : Type} (f : value -> nat -> S -> result S)
    (idx : nat) (l : list value) (st : S) : result S :=
  match l with
  | [] => Ok st
  | p :: l' => (let* st' := f p idx st in forEach f (Datatypes.S idx) l' st')%result
  end.

Definition top_post_callback (p : value) (idx : nat) (msg : string)
  : result string :=
  (let* likes := (get_prop p "like_count" ?? get_prop p "diggCount" ?? Ok (num 0))%js in
   let* likesEsc := escapeHtml likes in
   let* link := (get_prop p "si_permalink" <||> get_prop p "permalink"
                 <||> get_prop p "si_picture" <||> Ok (VStr ""))%js in
   let* linkEsc := escapeHtml link in
   let* n := ToString (num (Z.of_nat idx + 1)) in
   let msg := msg ++ n ++ ") ❤️ " ++ likesEsc ++ " likes" ++ nl in
   Ok (if truthy link then msg ++ linkEsc ++ nl else msg))%result.

(** Lines 102 to 128: the message up to the averages. *)
Definition report_head (data : value) : result string :=
  (let* profileName :=
     (get_prop data "profile_name" <||> get_prop data "profile_id"
      <||> Ok (VStr "Profile"))%js in
   let* profile_id := get_prop data "profile_id" in
   let* handle :=
     (if truthy profile_id
      then let* s := ToString profile_id in Ok (VStr ("@" ++ s))
      else Ok (VStr "")) in

   let* followers := (get_opt (get_prop data "profile_followers") "value" ?? Ok (num 0))%js in
   let* er := (get_opt (get_prop data "engagement_rate") "float_2f" ?? Ok (num 0))%js in
   let* totalViews :=
     (get_opt (get_prop data "video_views") "abbr_string_1f"
      ?? get_opt (get_prop data "video_views") "value" ?? Ok (num 0))%js in
   let* avgViews :=
     (get_opt (get_prop data "average_video_views_per_post") "float_1f" ?? Ok (num 0))%js in
   let* avgLikes := (get_opt (get_prop data "likes") "float_1f" ?? Ok (num 0))%js in
   let* posts := (get_prop data "posts" ?? Ok (num 0))%js in

   let* profileNameEsc := escapeHtml profileName in
   let* handleEsc := escapeHtml handle in
   let* totalViewsEsc := escapeHtml totalViews in
   let* followersEsc := escapeHtml followers in
   let* erEsc := escapeHtml er in
   let* postsEsc := escapeHtml posts in
   let* avgViews1 := fixed1 avgViews in
   let* avgViewsEsc := escapeHtml avgViews1 in
   let* avgLikes1 := fixed1 avgLikes in
   let* avgLikesEsc := escapeHtml avgLikes1 in

   let msg := "📊 <b>TikTok Report</b>" ++ nl in
   let msg := msg ++ "👤 Profile: <b>" ++ profileNameEsc ++ "</b> " ++ handleEsc ++ nl ++ nl in
   let msg := msg ++ "👥 Followers: <b>" ++ followersEsc ++ "</b>" ++ nl in
   let msg := msg ++ "🔥 Engagement rate: <b>" ++ erEsc ++ "%</b>" ++ nl in
   let msg := msg ++ "🎬 Posts analyzed: <b>" ++ postsEsc ++ "</b>" ++ nl ++ nl in
   let msg := msg ++ "👁️‍🗨️ Total views: <b>" ++ totalViewsEsc ++ "</b>" ++ nl in
   let msg := msg ++ "📈 Avg views/video: <b>" ++ avgViewsEsc ++ "</b>" ++ nl in
   let msg := msg ++ "❤️ Avg likes/video: <b>" ++ avgLikesEsc ++ "</b>" ++ nl in
   Ok msg)%result.

(** The whole function: the head, then lines 130 to 144. *)
Definition formatReportMessage (data : value) : result string :=
  (let* msg := report_head data in
   let* top_posts := get_prop data "top_posts" in
   match top_posts with
   | VArr ((_ :: _) as posts) =>
       let top := firstn 3 posts in
       let msg := msg ++ nl ++ "🏆 <b>Top Videos</b>" ++ nl in
       forEach top_post_callback 0 top msg
   | _ => Ok msg
   end)%result.

(** ** The subscription object *)

(** [{ tiktokHandle, lastSentAt }]: the handle is a string ([""] is the
    falsy handle the scheduler skips), the time of the last report is [null]
    or an ISO-8601 string. *)
Record subscription : Type := {
  tiktokHandle : string;
  lastSentAt : option string
}.

(** [subscriptions]: a plain object from chat ids to records, as the list of
    its own properties in creation order.  The keys of an object are
    distinct ([distinct_keys]); every operation below keeps them so.  The
    program creates every record with the two properties in the order
    [tiktokHandle], [lastSentAt], which is the order they are printed in. *)
Definition subs : Type := list (string * subscription).

Definition keys {A} (o : list (string * A)) : list string := map fst o.

Definition distinct_keys {A} (o : list (string * A)) : Prop := NoDup (keys o).

(** [o[k] = v]: an existing property keeps its place. *)
Fixpoint obj_set {A} (k : string) (v : A) (o : list (string * A))
  : list (string * A) :=
  match o with
  | [] => [(k, v)]
  | (k', v') :: o' =>
      if String.eqb k' k then (k, v) :: o' else (k', v') :: obj_set k v o'
  end.

(** [delete o[k]] *)
Definition obj_delete {A} (k : string) (o : list (string * A))
  : list (string * A) :=
  filter (fun kv => negb (String.eqb (fst kv) k)) o.

Definition is_digit (a : ascii) : bool :=
  let n := nat_of_ascii a in Nat.leb 48 n && Nat.leb n 57.

Fixpoint digits_value (s : string) (acc : N) : option N :=
  match s with
  | EmptyString => Some acc
  | String a s' =>
      if is_digit a
      then digits_value s' (acc * 10 + N.of_nat (nat_of_ascii a - 48))%N
      else None
  end.

(** An array index: the canonical decimal of an integer below [2^32 - 1]. *)
Definition array_index (k : string) : option N :=
  match k with
  | EmptyString => None
  | String a rest =>
      if Ascii.eqb a "0" && negb (String.eqb rest "") then None
      else
        match digits_value k 0%N with
        | Some n => if (n <? 4294967295)%N then Some n else None
        | None => None
        end
  end.

Fixpoint insert_index {A} (n : N) (kv : string * A)
    (l : list (N * (string * A))) : list (N * (string * A)) :=
  match l with
  | [] => [(n, kv)]
  | (m, kv') :: l' =>
      if (n <? m)%N then (n, kv) :: l
      else (m, kv') :: insert_index n kv l'
  end.

(** The properties whose key is an array index, in ascending order. *)
Fixpoint index_entries {A} (o : list (string * A)) : list (N * (string * A)) :=
  match o with
  | [] => []
  | (k, v) :: o' =>
      match array_index k with
      | Some n => insert_index n (k, v) (index_entries o')
      | None => index_entries o'
      end
  end.

Definition named_entries {A} (o : list (string * A)) : list (string * A) :=
  filter (fun kv => match array_index (fst kv) with
                    | Some _ => false
                    | None => true
                    end) o.

(** [Object.entries(o)]: array-index keys in ascending numeric order, then
    the other keys in creation order. *)
Definition Object_entries {A} (o : list (string * A)) : list (string * A) :=
  map snd (index_entries o) ++ named_entries o.

(** ** JSON text of the subscription object *)

Module JSON.

Definition hex_digit (n : N) : ascii :=
  match n with
  | 0 => "0" | 1 => "1" | 2 => "2" | 3 => "3" | 4 => "4" | 5 => "5"
  | 6 => "6" | 7 => "7" | 8 => "8" | 9 => "9" | 10 => "a" | 11 => "b"
  | 12 => "c" | 13 => "d" | 14 => "e" | _ => "f"
  end%N%char.

(** [QuoteJSONString], one code unit: the two-character escapes, [\u00xx]
    for the other control characters, the character itself otherwise. *)
Definition quote_char (a : ascii) : string :=
  let n := N_of_ascii a in
  if (n =? 8)%N then "\b"
  else if (n =? 9)%N then "\t"
  else if (n =? 10)%N then "\n"
  else if (n =? 12)%N then "\f"
  else if (n =? 13)%N then "\r"
  else if (n =? 34)%N then "\" ++ dquote
  else if (n =? 92)%N then "\\"
  else if (n <? 32)%N then
    "\u00" ++ String (hex_digit (n / 16)) (String (hex_digit (n mod 16)) "")
  else String a "".

Fixpoint quote_chars (s : string) : string :=
  match s with
  | EmptyString => ""
  | String a s' => quote_char a ++ quote_chars s'
  end.

Definition quote (s : string) : string := dquote ++ quote_chars s ++ dquote.

(** A record at depth one of an indentation of two spaces. *)
Definition stringify_record (r : subscription) : string :=
  "{" ++ nl ++
  "    " ++ quote "tiktokHandle" ++ ": " ++ quote (tiktokHandle r) ++ "," ++ nl ++
  "    " ++ quote "lastSentAt" ++ ": " ++
     match lastSentAt r with
     | None => "null"
     | Some t => quote t
     end ++ nl ++
  "  }".

Definition stringify_member (kv : string * subscription) : string :=
  "  " ++ quote (fst kv) ++ ": " ++ stringify_record (snd kv).

Fixpoint stringify_members (l : list (string * subscription)) : string :=
  match l with
  | [] => ""
  | [kv] => stringify_member kv
  | kv :: l' => stringify_member kv ++ "," ++ nl ++ stringify_members l'
  end.

(** The same text, from the first key on: a member without its indentation,
    and the members that follow it. *)
Definition member_body (kv : string * subscription) : string :=
  quote (fst kv) ++ ": " ++ stringify_record (snd kv).

Fixpoint members_body (kv : string * subscription)
    (l : list (string * subscription)) : string :=
  match l with
  | [] => member_body kv
  | kv' :: l' => member_body kv ++ "," ++ nl ++ "  " ++ members_body kv' l'
  end.

(** [JSON.stringify(subs, null, 2)] *)
Definition stringify (o : subs) : string :=
  match Object_entries o with
  | [] => "{}"
  | l => "{" ++ nl ++ stringify_members l ++ nl ++ "}"
  end.

(** *** Parsing *)

Definition is_ws (a : ascii) : bool :=
  let n := N_of_ascii a in
  ((n =? 32) || (n =? 9) || (n =? 10) || (n =? 13))%N.

Fixpoint skip_ws (s : string) : string :=
  match s with
  | EmptyString => ""
  | String a s' => if is_ws a then skip_ws s' else s
  end.

Definition hex_value (a : ascii) : option N :=
  let n := N_of_ascii a in
  if ((48 <=? n) && (n <=? 57))%N then Some (n - 48)%N
  else if ((97 <=? n) && (n <=? 102))%N then Some (n - 87)%N
  else if ((65 <=? n) && (n <=? 70))%N then Some (n - 55)%N
  else None.

Definition hex4 (a b c d : ascii) : option N :=
  match hex_value a, hex_value b, hex_value c, hex_value d with
  | Some x, Some y, Some z, Some t => Some (((x * 16 + y) * 16 + z) * 16 + t)%N
  | _, _, _, _ => None
  end.

Definition byte (n : N) : ascii := ascii_of_N n.

(** The UTF-8 bytes of a code point (a lone surrogate is encoded like any
    other code point below [0x10000]). *)
Definition utf8 (cp : N) : string :=
  (if cp <? 128 then String (byte cp) ""
   else if cp <? 2048 then
     String (byte (192 + cp / 64)) (String (byte (128 + cp mod 64)) "")
   else if cp <? 65536 then
     String (byte (224 + cp / 4096))
       (String (byte (128 + (cp / 64) mod 64))
          (String (byte (128 + cp mod 64)) ""))
   else
     String (byte (240 + cp / 262144))
       (String (byte (128 + (cp / 4096) mod 64))
          (String (byte (128 + (cp / 64) mod 64))
             (String (byte (128 + cp mod 64)) ""))))%N.

Definition simple_escape (a : ascii) : option ascii :=
  let n := N_of_ascii a in
  (if n =? 34 then Some a
   else if n =? 92 then Some a
   else if n =? 47 then Some a
   else if n =? 98 then Some (byte 8)
   else if n =? 102 then Some (byte 12)
   else if n =? 110 then Some (byte 10)
   else if n =? 114 then Some (byte 13)
   else if n =? 116 then Some (byte 9)
   else None)%N.

Definition cons_chars (p : string) (r : option (string * string))
  : option (string * string) :=
  match r with
  | Some (s, rest) => Some (p ++ s, rest)
  | None => None
  end.

(** The characters of a string literal after its opening quote: the decoded
    string and the text after the closing quote. *)
Fixpoint parse_chars (s : string) : option (string * string) :=
  match s with
  | EmptyString => None
  | String c s1 =>
      if (N_of_ascii c =? 34)%N then Some ("", s1)
      else if (N_of_ascii c =? 92)%N then
        match s1 with
        | EmptyString => None
        | String e s2 =>
            match simple_escape e with
            | Some a => cons_chars (String a "") (parse_chars s2)
            | None =>
                if (N_of_ascii e =? 117)%N then
                  match s2 with
                  | String h1 (String h2 (String h3 (String h4 s6))) =>
                      match hex4 h1 h2 h3 h4 with
                      | None => None
                      | Some hi =>
                          let single := cons_chars (utf8 hi) (parse_chars s6) in
                          if ((55296 <=? hi) && (hi <? 56320))%N then
                            match s6 with
                            | String b (String u (String l1 (String l2
                                (String l3 (String l4 s12))))) =>
                                if ((N_of_ascii b =? 92)
                                    && (N_of_ascii u =? 117))%N then
                                  match hex4 l1 l2 l3 l4 with
                                  | Some lo =>
                                      if ((56320 <=? lo) && (lo <? 57344))%N
                                      then
                                        cons_chars
                                          (utf8 (65536 + (hi - 55296) * 1024
                                                 + (lo - 56320))%N)
                                          (parse_chars s12)
                                      else single
                                  | None => single
                                  end
                                else single
                            | _ => single
                            end
                          else single
                      end
                  | _ => None
                  end
                else None
            end
        end
      else if (N_of_ascii c <? 32)%N then None
      else cons_chars (String c "") (parse_chars s1)
  end.

Definition parser (A : Type) : Type := string -> option (A * string).

Definition pret {A} (a : A) : parser A := fun s => Some (a, s).

Definition pbind {A B} (p : parser A) (k : A -> parser B) : parser B :=
  fun s => match p s with
           | Some (a, s') => k a s'
           | None => None
           end.

Definition pfail {A} : parser A := fun _ => None.

Declare Scope parser_scope.
Delimit Scope parser_scope with parser.
Notation "x <- p ;; k" := (pbind p (fun x => k))
  (at level 61, p at next level, right associativity) : parser_scope.
Notation "p ;; k" := (pbind p (fun _ => k))
  (at level 61, right associativity) : parser_scope.

Definition ws : parser unit := fun s => Some (tt, skip_ws s).

Definition char (c : ascii) : parser unit :=
  fun s => match s with
           | String a s' => if Ascii.eqb a c then Some (tt, s') else None
           | EmptyString => None
           end.

Definition parse_string : parser string :=
  fun s => match s with
           | String a s' =>
               if (N_of_ascii a =? 34)%N then parse_chars s' else None
           | EmptyString => None
           end.

(** A string literal or [null]. *)
Definition parse_nullable : parser (option string) :=
  fun s => match s with
           | String "n" (String "u" (String "l" (String "l" s'))) =>
               Some (None, s')
           | _ => match parse_string s with
                  | Some (t, s') => Some (Some t, s')
                  | None => None
                  end
           end.

Definition parse_field : parser (string * option string) :=
  (k <- parse_string ;; ws ;; char ":" ;; ws ;;
   v <- parse_nullable ;; ws ;; pret (k, v))%parser.

(** A record: the two members, in either order. *)
Definition parse_record : parser subscription :=
  (char "{" ;; ws ;;
   f1 <- parse_field ;; char "," ;; ws ;;
   f2 <- parse_field ;; char "}" ;;
   match f1, f2 with
   | (k1, Some h), (k2, t) =>
       if String.eqb k1 "tiktokHandle" && String.eqb k2 "lastSentAt"
       then pret {| tiktokHandle := h; lastSentAt := t |}
       else
         match t with
         | Some h' =>
             if String.eqb k1 "lastSentAt" && String.eqb k2 "tiktokHandle"
             then pret {| tiktokHandle := h'; lastSentAt := Some h |}
             else pfail
         | None => pfail
         end
   | (k1, None), (k2, Some h) =>
       if String.eqb k1 "lastSentAt" && String.eqb k2 "tiktokHandle"
       then pret {| tiktokHandle := h; lastSentAt := None |}
       else pfail
   | _, _ => pfail
   end)%parser.

(** The members of the top-level object after the first key's opening
    position; a repeated key overwrites the earlier value in place. *)
Fixpoint parse_members (fuel : nat) (acc : subs) : parser subs :=
  match fuel with
  | O => pfail
  | S fuel' =>
      (k <- parse_string ;; ws ;; char ":" ;; ws ;;
       r <- parse_record ;; ws ;;
       let acc' := obj_set k r acc in
       fun s => match s with
                | String c s' =>
                    if Ascii.eqb c "," then
                      (ws ;; parse_members fuel' acc')%parser s'
                    else if Ascii.eqb c "}" then Some (acc', s')
                    else None
                | EmptyString => None
                end)%parser
  end.

Definition parse_object : parser subs :=
  fun s =>
    (ws ;; char "{" ;; ws ;;
     fun s' => match s' with
               | String c s'' =>
                   if Ascii.eqb c "}" then Some ([], s'')
                   else parse_members (String.length s') [] s'
               | EmptyString => None
               end)%parser s.

(** [JSON.parse(text)] for the texts that denote a subscription object;
    [None] stands for the [SyntaxError].  It is exact on the texts that
    [JSON.stringify] writes for a store, which are the only texts the
    properties below apply it to; texts that are valid JSON of another shape
    (a value that is not an object, a record with other members) are
    outside this model of the store. *)
Definition parse (text : string) : option subs :=
  match parse_object text with
  | Some (o, rest) =>
      match skip_ws rest with
      | EmptyString => Some o
      | String _ _ => None
      end
  | None => None
  end.

End JSON.

(** ** The process: its state, and what the environment decides *)

(** The first argument of [bot.sendMessage]: [msg.chat.id] (a number) in the
    command handlers, a key of [subscriptions] in the scheduler. *)
Inductive chat_ref : Type :=
| ChatNum (id : Z)
| ChatKey (k : string).

(** The third argument of [bot.sendMessage]. *)
Inductive send_options : Type :=
| NoOptions
| ParseHTML
| ParseHTMLPreview.

Record sent_message : Type := {
  sm_chat : chat_ref;
  sm_text : string;
  sm_options : send_options
}.

Inductive log_entry : Type :=
| LogLoadError
| LogSaveError
| LogCycleRunning
| LogSending (chatId handle : string)
| LogReportError (chatId : string).

Record World : Type := {
  subscriptions : subs;            (* the global variable *)
  disk : option string;            (* the content of SUBS_FILE, if it exists *)
  writes : nat;                    (* calls of fs.writeFileSync so far *)
  sent : list sent_message;        (* calls of bot.sendMessage, oldest first *)
  console : list log_entry         (* oldest first *)
}.

(** What the process does not decide: the configured administrator, and the
    faults of the file system.  [fs_write n] is [None] when the [n]-th
    [writeFileSync] succeeds, and [Some d] when it throws, leaving the file
    as [d]; [fs_read_fails] tells whether [readFileSync] throws. *)
Record Env : Type := {
  BOT_ADMIN_ID : option string;
  fs_write : nat -> option (option string);
  fs_read_fails : bool
}.

(** Computations of the process: a state transformer that returns normally
    or throws. *)
Definition M (A : Type) : Type := World -> result A * World.

Definition ret {A} (a : A) : M A := fun w => (Ok a, w).

Definition bind {A B} (c : M A) (k : A -> M B) : M B :=
  fun w => match c w with
           | (Ok a, w') => k a w'
           | (Throw e, w') => (Throw e, w')
           end.

Definition throw {A} (e : exn) : M A := fun w => (Throw e, w).

(** [try { c } catch (err) { h err }] *)
Definition try_catch {A} (c : M A) (h : exn -> M A) : M A :=
  fun w => match c w with
           | (Ok a, w') => (Ok a, w')
           | (Throw e, w') => h e w'
           end.

Definition lift {A} (r : result A) : M A := fun w => (r, w).

Definition gets {A} (f : World -> A) : M A := fun w => (Ok (f w), w).

Declare Scope M_scope.
Delimit Scope M_scope with M.
Notation "x <- c ;; k" := (bind c (fun x => k))
  (at level 61, c at next level, right associativity) : M_scope.
Notation "c ;; k" := (bind c (fun _ => k))
  (at level 61, right associativity) : M_scope.

Definition set_subscriptions (s : subs) : M unit :=
  fun w => (Ok tt, {| subscriptions := s; disk := disk w; writes := writes w;
                      sent := sent w; console := console w |}).

Definition console_log (e : log_entry) : M unit :=
  fun w => (Ok tt, {| subscriptions := subscriptions w; disk := disk w;
                      writes := writes w; sent := sent w;
                      console := console w ++ [e] |}).

(** The call [bot.sendMessage(chat, text, options)]: the request leaves; the
    promise it returns is the caller's business.  The command handlers drop
    it (what becomes of a dropped promise that rejects is outside the
    model); [sendReportToChat] awaits it. *)
Definition sendMessage (chat : chat_ref) (text : string) (o : send_options)
  : M unit :=
  fun w => (Ok tt, {| subscriptions := subscriptions w; disk := disk w;
                      writes := writes w;
                      sent := sent w ++ [{| sm_chat := chat; sm_text := text;
                                            sm_options := o |}];
                      console := console w |}).

(** A message from Telegram, as far as the handlers read it. *)
Record tg_message : Type := {
  from_id : Z;                     (* msg.from.id *)
  chat_id : Z                      (* msg.chat.id *)
}.

(** A text message matched by one of the four [bot.onText] patterns, with
    the groups the pattern captured: [match1] of [/add] matches [\S+], the
    chat ids ([match2] of [/add], [match1] of [/rem]) match [-?\d+].  Such
    keys are never the name of a property of [Object.prototype], so that
    reading [subscriptions[chatId]] is a look-up among the own properties. *)
Inductive update : Type :=
| CmdStart (msg : tg_message)
| CmdAdd (msg : tg_message) (match1 : string) (match2 : option string)
| CmdRem (msg : tg_message) (match1 : string)
| CmdList (msg : tg_message).

(** What happens around one call of [sendReportToChat] and the pause that
    follows it: how each request ends, what time it is, and which commands
    arrive while the scheduler is suspended on each [await]. *)
Record attempt : Type := {
  fetched : result value;          (* res.data, or the rejection *)
  during_fetch : list update;
  delivered : bool;                (* the report request resolves *)
  during_send : list update;
  now : string;                    (* new Date().toISOString() *)
  fallback_delivered : bool;       (* the fallback request resolves *)
  during_fallback : list update;
  during_delay : list update       (* the 1500 ms pause *)
}.

(** [record.lastSentAt = t] *)
Definition with_lastSentAt (record : subscription) (t : string) : subscription :=
  {| tiktokHandle := tiktokHandle record; lastSentAt := Some t |}.

Definition String_of_Z (z : Z) : string := Number.toString (Number.of_Z z).

(** [match[2] ? match[2] : String(msg.chat.id)] *)
Definition chatIdToUse (msg : tg_message) (match2 : option string) : string :=
  match match2 with
  | Some c => if String.eqb c "" then String_of_Z (chat_id msg) else c
  | None => String_of_Z (chat_id msg)
  end.

Definition help_text : string :=
  "Hello! I am the TikTok report bot." ++ nl ++
  "Available commands (admin only):" ++ nl ++
  "/add &lt;tiktok_link&gt; &lt;chat_id&gt;" ++ nl ++
  "/rem &lt;chat_id&gt;" ++ nl ++
  "/list".

Definition fallback_text : string :=
  "⚠️ Error fetching TikTok data. I will try again on the next cycle.".

Section Bot.

Variable env : Env.

Local Open Scope M_scope.

(** *** Storage management *)

Definition writeFileSync (data : string) : M unit :=
  fun w =>
    let w' d := {| subscriptions := subscriptions w; disk := d;
                   writes := S (writes w); sent := sent w;
                   console := console w |} in
    match fs_write env (writes w) with
    | None => (Ok tt, w' (Some data))
    | Some d => (Throw IOError, w' d)
    end.

Definition readFileSync : M string :=
  fun w =>
    match disk w with
    | Some data => if fs_read_fails env then (Throw IOError, w) else (Ok data, w)
    | None => (Throw IOError, w)
    end.

Definition loadSubscriptions : M subs :=
  try_catch
    (exists_ <- gets (fun w => match disk w with Some _ => true | None => false end) ;;
     if negb exists_ then
       writeFileSync (JSON.stringify []) ;;
       ret []
     else
       data <- readFileSync ;;
       match JSON.parse (if String.eqb data "" then "{}" else data) with
       | Some o => ret o
       | None => throw SyntaxError
       end)
    (fun err => console_log LogLoadError ;; ret [])%M.

Definition saveSubscriptions (s : subs) : M unit :=
  try_catch
    (writeFileSync (JSON.stringify s))
    (fun err => console_log LogSaveError).

(** *** Admin check *)

Definition isAdmin (msg : tg_message) : bool :=
  match BOT_ADMIN_ID env with
  | None => true
  | Some admin =>
      if String.eqb admin "" then true
      else String.eqb (String_of_Z (from_id msg)) admin
  end.

(** *** Telegram commands *)

Definition on_start (msg : tg_message) : M unit :=
  sendMessage (ChatNum (chat_id msg)) help_text ParseHTML.

Definition on_add (msg : tg_message) (match1 : string) (match2 : option string)
  : M unit :=
  (if negb (isAdmin msg) then ret tt
   else
     let tiktokLink := match1 in
     let chatIdToUse := chatIdToUse msg match2 in
     s <- gets subscriptions ;;
     set_subscriptions
       (obj_set chatIdToUse {| tiktokHandle := tiktokLink; lastSentAt := None |} s) ;;
     s <- gets subscriptions ;;
     saveSubscriptions s ;;
     chatIdEsc <- lift (escapeHtml (VStr chatIdToUse)) ;;
     linkEsc <- lift (escapeHtml (VStr tiktokLink)) ;;
     sendMessage (ChatNum (chat_id msg))
       ("✅ Added report for chat <b>" ++ chatIdEsc ++ "</b> on profile:" ++ nl
        ++ linkEsc)
       ParseHTML)%M.

Definition removed_text (chatIdEsc : string) : string :=
  "🗑️ Removed chat <b>" ++ chatIdEsc ++ "</b> from reports.".

Definition not_found_text (chatIdEsc : string) : string :=
  "❓ Chat <b>" ++ chatIdEsc ++ "</b> not found.".

Definition on_rem (msg : tg_message) (match1 : string) : M unit :=
  (if negb (isAdmin msg) then ret tt
   else
     let chatIdToRemove := match1 in
     s <- gets subscriptions ;;
     match lookup chatIdToRemove s with
     | Some _ =>
         set_subscriptions (obj_delete chatIdToRemove s) ;;
         s <- gets subscriptions ;;
         saveSubscriptions s ;;
         chatIdEsc <- lift (escapeHtml (VStr chatIdToRemove)) ;;
         sendMessage (ChatNum (chat_id msg)) (removed_text chatIdEsc) ParseHTML
     | None =>
         chatIdEsc <- lift (escapeHtml (VStr chatIdToRemove)) ;;
         sendMessage (ChatNum (chat_id msg)) (not_found_text chatIdEsc) ParseHTML
     end)%M.

Definition nullable (t : option string) : value :=
  match t with
  | Some s => VStr s
  | None => VNull
  end.

Fixpoint list_text (entries : list (string * subscription)) (text : string)
  : M string :=
  match entries with
  | [] => ret text
  | (chatId, info) :: rest =>
      (chatIdEsc <- lift (escapeHtml (VStr chatId)) ;;
       linkEsc <- lift (escapeHtml (VStr (tiktokHandle info))) ;;
       lastSentEsc <-
         (if truthy (nullable (lastSentAt info))
          then lift (escapeHtml (nullable (lastSentAt info)))
          else ret "never") ;;
       let text := text ++ "• Chat ID: <b>" ++ chatIdEsc ++ "</b>" ++ nl in
       let text := text ++ "  TikTok: " ++ linkEsc ++ nl in
       let text := text ++ "  Last sent: " ++ lastSentEsc ++ nl ++ nl in
       list_text rest text)%M
  end.

Definition on_list (msg : tg_message) : M unit :=
  (if negb (isAdmin msg) then ret tt
   else
     entries <- gets (fun w => Object_entries (subscriptions w)) ;;
     if Nat.eqb (List.length entries) 0 then
       sendMessage (ChatNum (chat_id msg)) "📭 No chat configured." ParseHTML
     else
       text <- list_text entries ("📋 <b>Configured chats</b>" ++ nl ++ nl) ;;
       sendMessage (ChatNum (chat_id msg)) text ParseHTML)%M.

Definition handle_update (u : update) : M unit :=
  match u with
  | CmdStart msg => on_start msg
  | CmdAdd msg match1 match2 => on_add msg match1 match2
  | CmdRem msg match1 => on_rem msg match1
  | CmdList msg => on_list msg
  end.

(** The handlers that run, each in its own turn of the event loop, while an
    [async] function is suspended: what one of them throws does not reach
    the suspended function. *)
Fixpoint interleave (us : list update) : M unit :=
  match us with
  | [] => ret tt
  | u :: us' => (try_catch (handle_update u) (fun _ => ret tt) ;; interleave us')%M
  end.

(** [await p], for a request whose outcome is [r] and during which the
    commands [us] arrive. *)
Definition await {A} (us : list update) (r : result A) : M A :=
  (interleave us ;; lift r)%M.

Definition settled (ok : bool) (e : exn) : result unit :=
  if ok then Ok tt else Throw e.

(** *** TikTok API call *)

(** The POST request to the analytics endpoint, awaited; the environment
    decides what it resolves to ([res.data]) or that it rejects. *)
Definition fetchTikTokAnalytics (a : attempt) (handleOrUrl : string)
  : M value :=
  await (during_fetch a) (fetched a).

(** *** Send report to chat *)

Definition sendReportToChat (a : attempt) (chatId tiktokHandle : string)
  : M unit :=
  try_catch
    (data <- fetchTikTokAnalytics a tiktokHandle ;;
     message <- lift (formatReportMessage data) ;;
     sendMessage (ChatKey chatId) message ParseHTMLPreview ;;
     await (during_send a) (settled (delivered a) SendError) ;;
     s <- gets subscriptions ;;
     match lookup chatId s with
     | None => throw TypeError
     | Some record =>
         set_subscriptions (obj_set chatId (with_lastSentAt record (now a)) s)
     end ;;
     s <- gets subscriptions ;;
     saveSubscriptions s)%M
    (fun err =>
       console_log (LogReportError chatId) ;;
       sendMessage (ChatKey chatId) fallback_text NoOptions ;;
       try_catch
         (await (during_fallback a) (settled (fallback_delivered a) SendError))
         (fun _ => ret tt))%M.

(** *** Scheduler *)

(** The [for ... of] loop over the snapshot taken by [Object.entries];
    [plan chatId] is what happens around the entry of [chatId].  The
    snapshot shares its record objects with [subscriptions], but the loop
    reads only their [tiktokHandle], which no code assigns after the record
    is created: a copy of the records behaves the same. *)
Fixpoint for_entries (plan : string -> attempt)
    (entries : list (string * subscription)) : M unit :=
  match entries with
  | [] => ret tt
  | (chatId, info) :: rest =>
      (if String.eqb (tiktokHandle info) "" then for_entries plan rest
       else
         console_log (LogSending chatId (tiktokHandle info)) ;;
         sendReportToChat (plan chatId) chatId (tiktokHandle info) ;;
         await (during_delay (plan chatId)) (Ok tt) ;;
         for_entries plan rest)%M
  end.

Definition runSchedulerCycle (plan : string -> attempt) : M unit :=
  (console_log LogCycleRunning ;;
   entries <- gets (fun w => Object_entries (subscriptions w)) ;;
   for_entries plan entries)%M.

End Bot.

(** ** Definitions used to state the properties *)

(** The escape of one character, as the specification words it:
    [&] to [&amp;], [<] to [&lt;], [>] to [&gt;]. *)
Definition escape_char (a : ascii) : string :=
  if Ascii.eqb a "&" then "&amp;"
  else if Ascii.eqb a "<" then "&lt;"
  else if Ascii.eqb a ">" then "&gt;"
  else String a "".

(** The three replacements of [escapeHtml] on a string. *)
Definition escape_text (s : string) : string :=
  replace_all ">" "&gt;" (replace_all "<" "&lt;" (replace_all "&" "&amp;" s)).

(** Every character escaped exactly once, left to right. *)
Fixpoint escape_once (s : string) : string :=
  match s with
  | EmptyString => ""
  | String a s' => escape_char a ++ escape_once s'
  end.

(** The values [String] converts without raising: an object with an own
    property [toString] is the only obstacle, also inside arrays. *)
Fixpoint printable (v : value) : bool :=
  match v with
  | VArr l => forallb printable l
  | VObj o =>
      match lookup "toString" o with
      | Some _ => false
      | None => true
      end
  | _ => true
  end.

(** [s.indexOf(t)]-style helpers: the text after the first occurrence of
    [t], and the text before it. *)
Fixpoint text_after (t s : string) : option string :=
  if prefix t s then Some (substring (String.length t) (String.length s) s)
  else
    match s with
    | EmptyString => None
    | String _ s' => text_after t s'
    end.

Fixpoint text_before (t s : string) : option string :=
  if prefix t s then Some ""
  else
    match s with
    | EmptyString => None
    | String a s' =>
        match text_before t s' with
        | Some r => Some (String a r)
        | None => None
        end
    end.

(** What a report shows in bold after [label]. *)
Definition rendered_field (label msg : string) : option string :=
  match text_after (label ++ ": <b>") msg with
  | Some r => text_before "</b>" r
  | None => None
  end.

(** The input of the formatting example:
    [{profile_id:"foo", profile_followers:{value:100},
      engagement_rate:{float_2f:2.5}, posts:5}]. *)
Definition example_report : value :=
  VObj [("profile_id", VStr "foo");
        ("profile_followers", VObj [("value", num 100)]);
        ("engagement_rate",
         VObj [("float_2f", VNum (Number.Finite false 25 (-1)))]);
        ("posts", num 5)].

(** [p.k] on a value that is neither [null] nor [undefined]. *)
Definition prop (p : value) (k : string) : value :=
  match p with
  | VObj o =>
      match lookup k o with
      | Some x => x
      | None => VUndefined
      end
  | _ => VUndefined
  end.

(** The first value that is neither [null] nor absent, else [d]. *)
Fixpoint first_present (l : list value) (d : value) : value :=
  match l with
  | [] => d
  | v :: l' => if is_nullish v then first_present l' d else v
  end.

(** The first truthy value (for a string: the first non-empty one), else
    [d]. *)
Fixpoint first_truthy (l : list value) (d : value) : value :=
  match l with
  | [] => d
  | v :: l' => if truthy v then v else first_truthy l' d
  end.

Definition like_fields (p : value) : list value :=
  [prop p "like_count"; prop p "diggCount"].

Definition link_fields (p : value) : list value :=
  [prop p "si_permalink"; prop p "permalink"; prop p "si_picture"].

Definition post_likes (p : value) : value :=
  first_present (like_fields p) (num 0).

Definition post_link (p : value) : value :=
  first_truthy (link_fields p) (VStr "").

(** The escaped text of a value (empty when [escapeHtml] raises). *)
Definition escaped (v : value) : string :=
  match escapeHtml v with
  | Ok s => s
  | Throw _ => ""
  end.

(** The line of the video numbered [n], followed by the line of its link
    when [link] is one (a truthy value). *)
Definition video_line_of (n : nat) (likes link : value) : string :=
  String_of_Z (Z.of_nat n) ++ ") ❤️ " ++ escaped likes ++ " likes" ++ nl ++
  (if truthy link then escaped link ++ nl else "").

Definition video_line (n : nat) (p : value) : string :=
  video_line_of n (post_likes p) (post_link p).

(** The lines of the videos [l], numbered from [n], in the order of [l]. *)
Fixpoint video_lines (n : nat) (l : list value) : string :=
  match l with
  | [] => ""
  | p :: l' => video_line n p ++ video_lines (S n) l'
  end.

(** A post the callback can render: not [null], with a like count and a
    link that [String] converts. *)
Definition post_record (p : value) : bool :=
  negb (is_nullish p) && printable (post_likes p) && printable (post_link p).

(** A report whose only post has a zero [like_count] beside a [diggCount]
    and an empty [si_permalink] beside a [permalink]. *)
Definition shadowed_post : value :=
  VObj [("like_count", num 0); ("diggCount", num 5);
        ("si_permalink", VStr ""); ("permalink", VStr "https://t/v")].

Definition shadowed_report : value :=
  VObj [("top_posts", VArr [shadowed_post])].

Definition top_videos_title : string := nl ++ "🏆 <b>Top Videos</b>" ++ nl.

(** A report with five posts. *)
Definition five_posts : list value :=
  [VObj [("like_count", num 50); ("si_permalink", VStr "https://t/1")];
   VObj [("diggCount", num 40)];
   VObj [("like_count", VNull); ("diggCount", num 30);
         ("si_picture", VStr "https://t/3.jpg?a=1&b=2")];
   VObj [("like_count", num 20)];
   VObj [("like_count", num 10)]].

Definition five_posts_report : value :=
  VObj [("profile_id", VStr "foo"); ("top_posts", VArr five_posts)].

(** The state a computation leaves. *)
Definition state_after {A} (c : M A) (w : World) : World := snd (c w).

(** The durable file holds the serialization of the whole mapping. *)
Definition persisted (w : World) : Prop :=
  disk w = Some (JSON.stringify (subscriptions w)).

(** Every write of the process succeeds. *)
Definition writes_succeed (env : Env) : Prop :=
  forall n, fs_write env n = None.

(** The state of a process that starts on the file [d]; the global
    [subscriptions] is then set to what [loadSubscriptions] returns. *)
Definition fresh (d : option string) : World :=
  {| subscriptions := []; disk := d; writes := 0; sent := []; console := [] |}.

(** [let subscriptions = loadSubscriptions();] in a process that starts on
    the file [d]. *)
Definition startup (env : Env) (d : option string) : World :=
  let '(r, w) := loadSubscriptions env (fresh d) in
  match r with
  | Ok s => {| subscriptions := s; disk := disk w; writes := writes w;
               sent := sent w; console := console w |}
  | Throw _ => w
  end.

Definition reply (msg : tg_message) (text : string) : sent_message :=
  {| sm_chat := ChatNum (chat_id msg); sm_text := text;
     sm_options := ParseHTML |}.

Definition fallback_notice (chatId : string) : sent_message :=
  {| sm_chat := ChatKey chatId; sm_text := fallback_text;
     sm_options := NoOptions |}.

(** The state after a call of [bot.sendMessage]: only [sent] grows. *)
Definition replied (m : sent_message) (w : World) : World :=
  {| subscriptions := subscriptions w; disk := disk w; writes := writes w;
     sent := (sent w ++ [m])%list; console := console w |}.

(** The state after a line on the console. *)
Definition logged (e : log_entry) (w : World) : World :=
  {| subscriptions := subscriptions w; disk := disk w; writes := writes w;
     sent := sent w; console := (console w ++ [e])%list |}.

Definition report_message (chatId text : string) : sent_message :=
  {| sm_chat := ChatKey chatId; sm_text := text;
     sm_options := ParseHTMLPreview |}.

(** What the [catch] block of [sendReportToChat] does. *)
Definition report_failure (env : Env) (a : attempt) (chatId : string)
  : M unit :=
  (console_log (LogReportError chatId) ;;
   sendMessage (ChatKey chatId) fallback_text NoOptions ;;
   interleave env (during_fallback a))%M.

(** The state with [subscriptions] replaced. *)
Definition with_subscriptions (s : subs) (w : World) : World :=
  {| subscriptions := s; disk := disk w; writes := writes w;
     sent := sent w; console := console w |}.

(** The steps of [sendReportToChat], outcome by outcome. *)
Definition sendReportToChat_cases (env : Env) (a : attempt)
    (chatId : string) (w : World) : result unit * World :=
  let w1 := state_after (interleave env (during_fetch a)) w in
  match rbind (fetched a) formatReportMessage with
  | Throw _ => (Ok tt, state_after (report_failure env a chatId) w1)
  | Ok message =>
      let w2 := state_after (interleave env (during_send a))
                  (replied (report_message chatId message) w1) in
      if delivered a then
        match lookup chatId (subscriptions w2) with
        | None => (Ok tt, state_after (report_failure env a chatId) w2)
        | Some record =>
            let s := obj_set chatId (with_lastSentAt record (now a))
                       (subscriptions w2) in
            (Ok tt, state_after (saveSubscriptions env s)
                      (with_subscriptions s w2))
        end
      else (Ok tt, state_after (report_failure env a chatId) w2)
  end.

(** The state in which [sendReportToChat] comes back from awaiting the
    delivery of the report [message]. *)
Definition before_recording (env : Env) (a : attempt) (chatId message : string)
    (w : World) : World :=
  state_after (interleave env (during_send a))
    (replied (report_message chatId message)
       (state_after (interleave env (during_fetch a)) w)).

(** The scenario of a removal in the middle of a delivery: no administrator
    is configured, the store holds chat 111, the analytics arrive, the report
    is delivered, and [/rem 111] arrives while the delivery is awaited. *)
Definition open_env : Env :=
  {| BOT_ADMIN_ID := None; fs_write := fun _ => None;
     fs_read_fails := false |}.

Definition someone : tg_message := {| from_id := 7; chat_id := 7 |}.

Definition small_report : value :=
  VObj [("profile_id", VStr "a");
        ("profile_followers", VObj [("value", num 10)])].

Definition one_chat : World :=
  let s := [("111", {| tiktokHandle := "@a"; lastSentAt := None |})] in
  {| subscriptions := s; disk := Some (JSON.stringify s); writes := 0;
     sent := []; console := [] |}.

Definition removed_meanwhile : attempt :=
  {| fetched := Ok small_report; during_fetch := [];
     delivered := true; during_send := [CmdRem someone "111"];
     now := "2026-11-02T10:00:00.000Z";
     fallback_delivered := true; during_fallback := [];
     during_delay := [] |}.

(** A process whose administrator is the user 42. *)
Definition admin_env : Env :=
  {| BOT_ADMIN_ID := Some "42"; fs_write := fun _ => None;
     fs_read_fails := false |}.

(** Two chats, and a cycle in which the analytics of the first one cannot
    be fetched and the fallback notice cannot be delivered either. *)
Definition two_chats : World :=
  let s := [("111", {| tiktokHandle := "@a"; lastSentAt := None |});
            ("222", {| tiktokHandle := "@b"; lastSentAt := None |})] in
  {| subscriptions := s; disk := Some (JSON.stringify s); writes := 0;
     sent := []; console := [] |}.

Definition quiet (r : result value) (ok : bool) : attempt :=
  {| fetched := r; during_fetch := []; delivered := true; during_send := [];
     now := "2026-11-02T10:00:00.000Z";
     fallback_delivered := ok; during_fallback := []; during_delay := [] |}.

Definition first_fetch_fails (chatId : string) : attempt :=
  if String.eqb chatId "111" then quiet (Throw FetchError) false
  else quiet (Ok small_report) true.

(** A store in which chat 111 already received a report. *)
Definition already_sent : World :=
  let s := [("111", {| tiktokHandle := "@a";
                       lastSentAt := Some "2026-11-01T10:00:00.000Z" |})] in
  {| subscriptions := s; disk := Some (JSON.stringify s); writes := 0;
     sent := []; console := [] |}.

(** ** Definitions used to state further properties *)

(** A store file on which a process can start: absent, or some text. *)
Definition on_disk (d : option string) : World := fresh d.

(** The chat a command is about. *)
Definition target (u : update) : option string :=
  match u with
  | CmdAdd msg _ match2 => Some (chatIdToUse msg match2)
  | CmdRem _ match1 => Some match1
  | CmdStart _ | CmdList _ => None
  end.

(** The chats of a store with their handles, in creation order. *)
Definition handles (o : subs) : list (string * string) :=
  map (fun kv => (fst kv, tiktokHandle (snd kv))) o.

(** The deliveries a console shows as started, oldest first. *)
Fixpoint sendings (l : list log_entry) : list (string * string) :=
  match l with
  | [] => []
  | LogSending chatId handle :: l' => (chatId, handle) :: sendings l'
  | _ :: l' => sendings l'
  end.

(** The entries of a snapshot that the scheduler does not skip. *)
Definition with_handle (entries : list (string * subscription))
  : list (string * subscription) :=
  filter (fun kv => negb (String.eqb (tiktokHandle (snd kv)) "")) entries.

(** No command arrives during the attempt. *)
Definition undisturbed (a : attempt) : Prop :=
  during_fetch a = [] /\ during_send a = [] /\
  during_fallback a = [] /\ during_delay a = [].

(** The number of occurrences of a character. *)
Fixpoint count_char (c : ascii) (s : string) : nat :=
  match s with
  | EmptyString => 0
  | String a s' => (if Ascii.eqb a c then 1 else 0) + count_char c s'
  end.

(** A process whose every write fails and leaves an empty file. *)
Definition failing_disk_env : Env :=
  {| BOT_ADMIN_ID := None; fs_write := fun _ => Some (Some "");
     fs_read_fails := false |}.

(** An attempt during which no command arrives. *)
Definition calm (r : result value) (sent_ok fallback_ok : bool) : attempt :=
  {| fetched := r; during_fetch := []; delivered := sent_ok;
     during_send := []; now := "2026-11-02T10:00:00.000Z";
     fallback_delivered := fallback_ok; during_fallback := [];
     during_delay := [] |}.

(** The report of a response that carries none of the fields read. *)
Definition default_report : string :=
  "📊 <b>TikTok Report</b>" ++ nl ++
  "👤 Profile: <b>Profile</b> " ++ nl ++ nl ++
  "👥 Followers: <b>0</b>" ++ nl ++
  "🔥 Engagement rate: <b>0%</b>" ++ nl ++
  "🎬 Posts analyzed: <b>0</b>" ++ nl ++ nl ++
  "👁️‍🗨️ Total views: <b>0</b>" ++ nl ++
  "📈 Avg views/video: <b>0.0</b>" ++ nl ++
  "❤️ Avg likes/video: <b>0.0</b>" ++ nl.

(** [Array.isArray(data.top_posts) && data.top_posts.length > 0] *)
Definition has_top_posts (data : value) : bool :=
  match get_prop data "top_posts" with
  | Ok (VArr (_ :: _)) => true
  | _ => false
  end.

(** Reading the three entities back. *)
Fixpoint unescape (s : string) : string :=
  match s with
  | EmptyString => ""
  | String a s' =>
      if Ascii.eqb a "&" then
        match s' with
        | String "a" (String "m" (String "p" (String ";" r))) =>
            String "&" (unescape r)
        | String "l" (String "t" (String ";" r)) => String "<" (unescape r)
        | String "g" (String "t" (String ";" r)) => String ">" (unescape r)
        | _ => String a (unescape s')
        end
      else String a (unescape s')
  end.

(** The lines of one chat in the reply of [/list]. *)
Definition list_block (kv : string * subscription) : string :=
  "• Chat ID: <b>" ++ escape_text (fst kv) ++ "</b>" ++ nl ++
  "  TikTok: " ++ escape_text (tiktokHandle (snd kv)) ++ nl ++
  "  Last sent: " ++
    match lastSentAt (snd kv) with
    | None => "never"
    | Some t => if String.eqb t "" then "never" else escape_text t
    end ++ nl ++ nl.

Fixpoint list_blocks (l : list (string * subscription)) : string :=
  match l with
  | [] => ""
  | kv :: l' => list_block kv ++ list_blocks l'
  end.

(** The text [/list] answers with. *)
Definition list_reply (s : subs) : string :=
  match Object_entries s with
  | [] => "📭 No chat configured."
  | l => "📋 <b>Configured chats</b>" ++ nl ++ nl ++ list_blocks l
  end.

(** ** The patterns of the commands *)

(** The four patterns of [bot.onText], as matchers on the text of a message
    (the UTF-8 bytes of [msg.text]).  None of the patterns needs
    backtracking to be decided: in [(?:@[\w_]+)?\s+] a shorter or absent
    suffix leaves a word character or [@] where white space is required; a
    shorter [\s+] leaves white space where [\S] or a digit is required; and
    when the optional last group of [/add] fails after the longest [\S+],
    the match succeeds without it. *)
Module Pattern.

Definition three_byte_space (n m k : N) : bool :=
  ((n =? 225) && (m =? 154) && (k =? 128)          (* U+1680 *)
   || (n =? 226) && (m =? 128)
      && (((128 <=? k) && (k <=? 138))              (* U+2000 to U+200A *)
          || (k =? 168) || (k =? 169)               (* U+2028, U+2029 *)
          || (k =? 175))                            (* U+202F *)
   || (n =? 226) && (m =? 129) && (k =? 159)        (* U+205F *)
   || (n =? 227) && (m =? 128) && (k =? 128)        (* U+3000 *)
   || (n =? 239) && (m =? 187) && (k =? 191))%N.    (* U+FEFF *)

(** [\s] at the head of the text: the text after that character. *)
Definition space_rest (s : string) : option string :=
  match s with
  | EmptyString => None
  | String a s1 =>
      let n := N_of_ascii a in
      if (((9 <=? n) && (n <=? 13)) || (n =? 32))%N then Some s1
      else
        match s1 with
        | EmptyString => None
        | String b s2 =>
            let m := N_of_ascii b in
            if ((n =? 194) && (m =? 160))%N then Some s2   (* U+00A0 *)
            else
              match s2 with
              | EmptyString => None
              | String c s3 =>
                  if three_byte_space n m (N_of_ascii c) then Some s3
                  else None
              end
        end
  end.

(** [\s*], then [\s+] *)
Fixpoint skip_spaces (fuel : nat) (s : string) : string :=
  match fuel with
  | O => s
  | S fuel' =>
      match space_rest s with
      | Some r => skip_spaces fuel' r
      | None => s
      end
  end.

Definition spaces1 (s : string) : option string :=
  match space_rest s with
  | Some r => Some (skip_spaces (String.length r) r)
  | None => None
  end.

(** The longest run of [\S] at the head, and the rest. *)
Fixpoint take_nonspace (s : string) : string * string :=
  match s with
  | EmptyString => ("", "")
  | String a s' =>
      match space_rest s with
      | Some _ => ("", s)
      | None => let '(t, r) := take_nonspace s' in (String a t, r)
      end
  end.

Definition is_word (a : ascii) : bool :=
  let n := N_of_ascii a in
  (((48 <=? n) && (n <=? 57)) || ((65 <=? n) && (n <=? 90))
   || ((97 <=? n) && (n <=? 122)) || (n =? 95))%N.

Fixpoint take_while (f : ascii -> bool) (s : string) : string * string :=
  match s with
  | EmptyString => ("", "")
  | String a s' =>
      if f a then let '(t, r) := take_while f s' in (String a t, r)
      else ("", s)
  end.

(** [(?:@[\w_]+)?]: the text after the suffix, if there is one. *)
Definition skip_suffix (s : string) : string :=
  match s with
  | String a s' =>
      if Ascii.eqb a "@" then
        match take_while is_word s' with
        | (EmptyString, _) => s
        | (String _ _, r) => r
        end
      else s
  | EmptyString => s
  end.

(** [(-?\d+)]: the group and the rest. *)
Definition digits1 (s : string) : option (string * string) :=
  match take_while is_digit s with
  | (EmptyString, _) => None
  | (d, r) => Some (d, r)
  end.

Definition chat_id_group (s : string) : option (string * string) :=
  match s with
  | String a s' =>
      if Ascii.eqb a "-" then
        match digits1 s' with
        | Some (d, r) => Some (String a d, r)
        | None => None
        end
      else digits1 s
  | EmptyString => None
  end.

(** The text after the literal [p] at the start. *)
Fixpoint after_literal (p s : string) : option string :=
  match p, s with
  | EmptyString, _ => Some s
  | String a p', String b s' =>
      if Ascii.eqb a b then after_literal p' s' else None
  | String _ _, EmptyString => None
  end.

Definition bind_option {A B} (o : option A) (k : A -> option B) : option B :=
  match o with
  | Some a => k a
  | None => None
  end.

(** [/^\/start/] and [/^\/list/] *)
Definition match_start (text : string) : bool :=
  match after_literal "/start" text with Some _ => true | None => false end.

Definition match_list (text : string) : bool :=
  match after_literal "/list" text with Some _ => true | None => false end.

(** [/^\/add(?:@[\w_]+)?\s+(\S+)(?:\s+(-?\d+))?/]: the groups 1 and 2. *)
Definition match_add (text : string) : option (string * option string) :=
  bind_option (after_literal "/add" text) (fun r0 =>
  bind_option (spaces1 (skip_suffix r0)) (fun r2 =>
  match take_nonspace r2 with
  | (EmptyString, _) => None
  | (match1, r3) =>
      Some (match1,
            match bind_option (spaces1 r3) chat_id_group with
            | Some (match2, _) => Some match2
            | None => None
            end)
  end)).

(** [/^\/rem(?:@[\w_]+)?\s+(-?\d+)/]: the group 1. *)
Definition match_rem (text : string) : option string :=
  bind_option (after_literal "/rem" text) (fun r0 =>
  bind_option (spaces1 (skip_suffix r0)) (fun r2 =>
  match chat_id_group r2 with
  | Some (match1, _) => Some match1
  | None => None
  end)).

(** The handlers a text message reaches, in the order they are registered:
    the library tries every pattern and calls the handler of each one that
    matches. *)
Definition dispatch (msg : tg_message) (text : string) : list update :=
  ((if match_start text then [CmdStart msg] else []) ++
   match match_add text with
   | Some (match1, match2) => [CmdAdd msg match1 match2]
   | None => []
   end ++
   match match_rem text with
   | Some match1 => [CmdRem msg match1]
   | None => []
   end ++
   (if match_list text then [CmdList msg] else []))%list.

(** A chat id as the patterns capture it: digits, after an optional [-]. *)
Definition all_digits (s : string) : bool :=
  match s with
  | EmptyString => false
  | String _ _ => snd (take_while is_digit s) =? ""
  end.

Definition numeric (s : string) : bool :=
  match s with
  | String a d => if Ascii.eqb a "-" then all_digits d else all_digits s
  | EmptyString => false
  end.

(** A text without white space. *)
Definition spaceless (s : string) : bool := snd (take_nonspace s) =? "".

End Pattern.

(** The deliveries a pass over the store [s] attempts. *)
Definition attempts (s : subs) : list (string * string) :=
  handles (with_handle (Object_entries s)).

(** A process whose [BOT_ADMIN_ID] holds a user name. *)
Definition user_name_env : Env :=
  {| BOT_ADMIN_ID := Some "@owner"; fs_write := fun _ => None;
     fs_read_fails := false |}.

(** A command sent in a group. *)
Definition in_a_group : tg_message :=
  {| from_id := 7; chat_id := -1001234 |}.

(** The message a command came in. *)
Definition sender (u : update) : tg_message :=
  match u with
  | CmdStart msg | CmdAdd msg _ _ | CmdRem msg _ | CmdList msg => msg
  end.

(** The number of tags in the template of the reply to a command. *)
Definition reply_tags (u : update) (s : subs) : nat :=
  match u with
  | CmdStart _ => 0
  | CmdAdd _ _ _ | CmdRem _ _ => 2
  | CmdList _ =>
      match s with
      | [] => 0
      | _ :: _ => 2 + 2 * List.length s
      end
  end.

(** The messages the scheduler sends: those addressed by a key of the
    store. *)
Definition by_scheduler (m : sent_message) : bool :=
  match sm_chat m with
  | ChatKey _ => true
  | ChatNum _ => false
  end.

Definition scheduler_sends (l : list sent_message) : list sent_message :=
  filter by_scheduler l.

(** The messages of one call of [sendReportToChat] for the chat [c], as
    calls of [bot.sendMessage]: the notice alone when the analytics could not
    be fetched or formatted; else the report, alone when its delivery
    succeeded, or followed by the notice (the delivery was rejected, or the
    record of the chat was gone when [lastSentAt] was to be set). *)
Definition delivery (a : attempt) (c : string) (g : list sent_message)
  : Prop :=
  match rbind (fetched a) formatReportMessage with
  | Throw _ => g = [fallback_notice c]
  | Ok message =>
      (delivered a = true /\ g = [report_message c message]) \/
      g = [report_message c message; fallback_notice c]
  end.

(** The message is addressed to the chat [c] by its key. *)
Definition to_chat (c : string) (m : sent_message) : bool :=
  match sm_chat m with
  | ChatKey k => String.eqb k c
  | ChatNum _ => false
  end.

(** The messages the scheduler sends to the chat [c]. *)
Definition sends_to (c : string) (l : list sent_message)
  : list sent_message :=
  filter (to_chat c) l.

(** * Properties *)

(** ** Strings *)

Lemma append_assoc (s t u : string) : (s ++ t) ++ u = s ++ (t ++ u).
Proof. induction s as [|a s IH]; simpl; [reflexivity | now rewrite IH]. Qed.

Lemma append_nil_r (s : string) : s ++ "" = s.
Proof. induction s as [|a s IH]; simpl; [reflexivity | now rewrite IH]. Qed.

Lemma occurs_app (c : ascii) (s t : string) :
  occurs c (s ++ t) = occurs c s || occurs c t.
Proof.
  induction s as [|a s IH]; simpl; [reflexivity|].
  now rewrite IH, orb_assoc.
Qed.

Lemma replace_all_app (c : ascii) (r s t : string) :
  replace_all c r (s ++ t) = replace_all c r s ++ replace_all c r t.
Proof.
  induction s as [|a s IH]; simpl; [reflexivity|].
  destruct (Ascii.eqb a c); rewrite IH; simpl;
    [now rewrite append_assoc | reflexivity].
Qed.

Lemma replace_all_absent (c : ascii) (r s : string) :
  occurs c s = false -> replace_all c r s = s.
Proof.
  induction s as [|a s IH]; simpl; [reflexivity|].
  destruct (Ascii.eqb a c); simpl; [discriminate|].
  intros H. now rewrite IH.
Qed.

(** Replacing [c] by a text without [c] leaves no [c]. *)
Lemma occurs_replace_same (c : ascii) (r s : string) :
  occurs c r = false -> occurs c (replace_all c r s) = false.
Proof.
  intros Hr. induction s as [|a s IH]; simpl; [reflexivity|].
  destruct (Ascii.eqb a c) eqn:E.
  - now rewrite occurs_app, Hr, IH.
  - simpl. now rewrite E, IH.
Qed.

(** Replacing another character by a text without [c] brings no [c]. *)
Lemma occurs_replace_other (c c' : ascii) (r s : string) :
  occurs c r = false -> occurs c s = false ->
  occurs c (replace_all c' r s) = false.
Proof.
  intros Hr. induction s as [|a s IH]; simpl; [reflexivity|].
  intros H. apply orb_false_iff in H as [Ha Hs].
  destruct (Ascii.eqb a c').
  - now rewrite occurs_app, Hr, IH.
  - simpl. now rewrite Ha, IH.
Qed.

(** ** escapeHtml *)

Lemma escapeHtml_VStr (s : string) : escapeHtml (VStr s) = Ok (escape_text s).
Proof. reflexivity. Qed.

(** The three replacements in sequence escape every character once. *)
Lemma escape_text_once (s : string) : escape_text s = escape_once s.
Proof.
  unfold escape_text. induction s as [|a s IH]; [reflexivity|].
  cbn [replace_all escape_once]. unfold escape_char.
  destruct (Ascii.eqb a "&") eqn:Eamp.
  - rewrite !replace_all_app, IH. reflexivity.
  - cbn [replace_all]. destruct (Ascii.eqb a "<") eqn:Elt.
    + rewrite !replace_all_app, IH. reflexivity.
    + cbn [replace_all]. destruct (Ascii.eqb a ">") eqn:Egt.
      * now rewrite IH.
      * now rewrite IH.
Qed.

Lemma escape_text_no_angle (s : string) :
  occurs "<" (escape_text s) = false /\ occurs ">" (escape_text s) = false.
Proof.
  unfold escape_text. split.
  - apply occurs_replace_other; [reflexivity|].
    now apply occurs_replace_same.
  - now apply occurs_replace_same.
Qed.

Lemma escapeHtml_inv (v : value) (s : string) :
  escapeHtml v = Ok s ->
  (is_nullish v = true /\ s = "") \/
  (exists t, ToString v = Ok t /\ s = escape_text t).
Proof.
  unfold escapeHtml. destruct (is_nullish v).
  - intros [= <-]. now left.
  - destruct (ToString v) as [t|e]; simpl; [|discriminate].
    intros [= <-]. right. now exists t.
Qed.

Lemma ToString_printable (v : value) :
  printable v = true -> exists s, ToString v = Ok s.
Proof.
  revert v.
  fix IH 1. intros [ | | b | x | s | l | o]; simpl; intros Hp;
    try (eexists; reflexivity).
  - induction l as [|x rest IHl]; [eexists; reflexivity|].
    simpl in Hp. apply andb_true_iff in Hp as [Hx Hrest].
    destruct (IHl Hrest) as [b Hb].
    assert (Ha : exists a, (if is_nullish x then Ok "" else ToString x) = Ok a).
    { destruct (is_nullish x); [eexists; reflexivity | now apply IH]. }
    destruct Ha as [a Ha]. rewrite Ha. simpl.
    destruct rest as [|y rest']; [eexists; reflexivity|].
    rewrite Hb. simpl. eexists; reflexivity.
  - destruct (lookup "toString" o); [discriminate | eexists; reflexivity].
Qed.

(** C3: [escapeHtml] replaces [&] first, then [<] and [>]; on ["<a & b>"] it
    gives exactly ["&lt;a &amp; b&gt;"], on every string it escapes each
    character once, and [null] and [undefined] give the empty string. *)
Theorem escapeHtml_ampersand_first :
  (forall s, escapeHtml (VStr s) =
             Ok (replace_all ">" "&gt;"
                   (replace_all "<" "&lt;" (replace_all "&" "&amp;" s)))) /\
  escapeHtml (VStr "<a & b>") = Ok "&lt;a &amp; b&gt;" /\
  (forall s, escapeHtml (VStr s) = Ok (escape_once s)) /\
  escapeHtml VNull = Ok "" /\
  escapeHtml VUndefined = Ok "".
Proof.
  repeat split.
  intros s. now rewrite escapeHtml_VStr, escape_text_once.
Qed.

Lemma escapeHtml_total (v : value) :
  printable v = true -> exists s, escapeHtml v = Ok s.
Proof.
  intros Hp. unfold escapeHtml. destruct (is_nullish v); [now eexists|].
  destruct (ToString_printable v Hp) as [t ->]. simpl. now eexists.
Qed.

(** C10: whatever value [escapeHtml] is given, the string it returns holds
    neither [<] nor [>]; and it does return one for every value [String]
    can convert. *)
Theorem escapeHtml_no_angle_bracket (v : value) :
  (printable v = true -> exists s, escapeHtml v = Ok s) /\
  (forall s, escapeHtml v = Ok s ->
             occurs "<" s = false /\ occurs ">" s = false).
Proof.
  split.
  - apply escapeHtml_total.
  - intros s H. apply escapeHtml_inv in H as [[_ ->] | [t [_ ->]]].
    + now split.
    + apply escape_text_no_angle.
Qed.

Lemma escapeHtml_no_angle_bracket_witness :
  (exists s, escapeHtml (VArr [VStr "<b>"; VNull; num 3]) = Ok s) /\
  occurs "<" "&lt;b&gt;,,3" = false /\ occurs ">" "&lt;b&gt;,,3" = false.
Proof.
  split.
  - apply (escapeHtml_no_angle_bracket (VArr [VStr "<b>"; VNull; num 3])).
    reflexivity.
  - apply (escapeHtml_no_angle_bracket (VArr [VStr "<b>"; VNull; num 3])).
    reflexivity.
Defined.

(** ** formatReportMessage *)

Example format_example_report :
  formatReportMessage example_report =
  Ok ("📊 <b>TikTok Report</b>" ++ nl ++
      "👤 Profile: <b>foo</b> @foo" ++ nl ++ nl ++
      "👥 Followers: <b>100</b>" ++ nl ++
      "🔥 Engagement rate: <b>2.5%</b>" ++ nl ++
      "🎬 Posts analyzed: <b>5</b>" ++ nl ++ nl ++
      "👁️‍🗨️ Total views: <b>0</b>" ++ nl ++
      "📈 Avg views/video: <b>0.0</b>" ++ nl ++
      "❤️ Avg likes/video: <b>0.0</b>" ++ nl).
Proof. vm_compute. reflexivity. Qed.

(** C4, as the code has it: the report of the example embeds ["foo"],
    ["100"], ["2.5%"] and ["5"]; the total of views defaults to ["0"], and
    the two averages, printed with one decimal, default to ["0.0"]. *)
Theorem format_example_defaults :
  exists m,
    formatReportMessage example_report = Ok m /\
    includes "foo" m = true /\ includes "100" m = true /\
    includes "2.5%" m = true /\ includes "5" m = true /\
    rendered_field "Profile" m = Some "foo" /\
    rendered_field "Followers" m = Some "100" /\
    rendered_field "Engagement rate" m = Some "2.5%" /\
    rendered_field "Posts analyzed" m = Some "5" /\
    rendered_field "Total views" m = Some "0" /\
    rendered_field "Avg views/video" m = Some "0.0" /\
    rendered_field "Avg likes/video" m = Some "0.0".
Proof.
  eexists. split; [apply format_example_report|].
  repeat split; vm_compute; reflexivity.
Qed.

(** C4 as stated fails: the averages of the example are not rendered as
    ["0"]. *)
Lemma format_example_averages_not_0 :
  ~ (exists m,
       formatReportMessage example_report = Ok m /\
       rendered_field "Total views" m = Some "0" /\
       rendered_field "Avg views/video" m = Some "0" /\
       rendered_field "Avg likes/video" m = Some "0").
Proof.
  intros [m [Hm [_ [Hviews _]]]].
  rewrite format_example_report in Hm. injection Hm as <-.
  vm_compute in Hviews. discriminate.
Qed.

Lemma get_prop_prop (p : value) (k : string) :
  is_nullish p = false -> get_prop p k = Ok (prop p k).
Proof.
  destruct p as [ | | b | x | s | l | o]; simpl; try discriminate;
    try reflexivity.
  intros _. now destruct (lookup k o).
Qed.

Lemma likes_chain (p : value) :
  is_nullish p = false ->
  (get_prop p "like_count" ?? get_prop p "diggCount" ?? Ok (num 0))%js
  = Ok (post_likes p).
Proof.
  intros Hp. rewrite !get_prop_prop by assumption.
  unfold post_likes, like_fields, js_nullish. simpl.
  destruct (is_nullish (prop p "like_count")) eqn:E1;
    destruct (is_nullish (prop p "diggCount")) eqn:E2; simpl;
    repeat (progress (rewrite ?E1, ?E2; simpl)); reflexivity.
Qed.

Lemma link_chain (p : value) :
  is_nullish p = false ->
  (get_prop p "si_permalink" <||> get_prop p "permalink"
   <||> get_prop p "si_picture" <||> Ok (VStr ""))%js
  = Ok (post_link p).
Proof.
  intros Hp. rewrite !get_prop_prop by assumption.
  unfold post_link, link_fields, js_or. simpl.
  destruct (truthy (prop p "si_permalink")) eqn:E1;
    destruct (truthy (prop p "permalink")) eqn:E2;
    destruct (truthy (prop p "si_picture")) eqn:E3; simpl;
    repeat (progress (rewrite ?E1, ?E2, ?E3; simpl)); reflexivity.
Qed.

Lemma escapeHtml_escaped (v : value) :
  printable v = true -> escapeHtml v = Ok (escaped v).
Proof.
  intros Hp. unfold escaped.
  destruct (escapeHtml_total v Hp) as [s ->].
  reflexivity.
Qed.

Lemma top_post_callback_line (p : value) (idx : nat) (msg : string) :
  post_record p = true ->
  top_post_callback p idx msg = Ok (msg ++ video_line (S idx) p).
Proof.
  unfold post_record. intros H.
  apply andb_true_iff in H as [H Hlink].
  apply andb_true_iff in H as [Hp Hlikes].
  apply negb_true_iff in Hp.
  unfold top_post_callback.
  rewrite (likes_chain p Hp). cbn [rbind].
  rewrite (escapeHtml_escaped _ Hlikes). cbn [rbind].
  rewrite (link_chain p Hp). cbn [rbind].
  rewrite (escapeHtml_escaped _ Hlink). cbn [rbind].
  replace (Z.of_nat idx + 1)%Z with (Z.of_nat (S idx)) by lia.
  change (ToString (num (Z.of_nat (S idx))))
    with (Ok (A:=string) (String_of_Z (Z.of_nat (S idx)))).
  cbn [rbind]. unfold video_line, video_line_of.
  destruct (truthy (post_link p)); f_equal;
    repeat rewrite append_assoc; reflexivity.
Qed.

Lemma forEach_video_lines (l : list value) :
  forall (idx : nat) (msg : string),
    forallb post_record l = true ->
    forEach top_post_callback idx l msg = Ok (msg ++ video_lines (S idx) l).
Proof.
  induction l as [|p l IH]; intros idx msg Hl; simpl.
  - now rewrite append_nil_r.
  - simpl in Hl. apply andb_true_iff in Hl as [Hp Hl].
    rewrite (top_post_callback_line p idx msg Hp). simpl.
    rewrite (IH (S idx) _ Hl). now rewrite append_assoc.
Qed.

Lemma ToString_not_printable (v : value) :
  printable v = false -> ToString v = Throw TypeError.
Proof.
  revert v.
  fix IH 1. intros [ | | b | x | s | l | o]; simpl; intros Hp;
    try discriminate.
  - induction l as [|x rest IHl]; [discriminate|].
    simpl in Hp. destruct (printable x) eqn:Hx.
    + simpl in Hp. specialize (IHl Hp).
      destruct (ToString_printable x Hx) as [a Ha].
      assert (Ha' : (if is_nullish x then Ok "" else ToString x)
                    = Ok (if is_nullish x then "" else a))
        by (destruct (is_nullish x); [reflexivity | exact Ha]).
      rewrite Ha'. simpl.
      destruct rest as [|y rest']; [discriminate|].
      now rewrite IHl.
    + assert (Hn : is_nullish x = false) by (now destruct x).
      rewrite Hn, (IH x Hx). reflexivity.
  - destruct (lookup "toString" o); [reflexivity | discriminate].
Qed.

Lemma escapeHtml_not_printable (v : value) :
  printable v = false -> escapeHtml v = Throw TypeError.
Proof.
  intros Hp. unfold escapeHtml.
  assert (Hn : is_nullish v = false) by (now destruct v).
  now rewrite Hn, (ToString_not_printable v Hp).
Qed.

Lemma top_post_callback_raises (p : value) (idx : nat) (msg : string) :
  post_record p = false ->
  top_post_callback p idx msg = Throw TypeError.
Proof.
  unfold post_record. intros H. unfold top_post_callback.
  destruct (is_nullish p) eqn:Hp.
  - now destruct p.
  - rewrite (likes_chain p Hp). cbn [rbind].
    destruct (printable (post_likes p)) eqn:Hlikes.
    + rewrite (escapeHtml_escaped _ Hlikes). cbn [rbind].
      rewrite (link_chain p Hp). cbn [rbind].
      cbn [negb andb] in H.
      now rewrite (escapeHtml_not_printable _ H).
    + now rewrite (escapeHtml_not_printable _ Hlikes).
Qed.

Lemma forEach_raises (l : list value) :
  forall (idx : nat) (msg : string),
    forallb post_record l = false ->
    forEach top_post_callback idx l msg = Throw TypeError.
Proof.
  induction l as [|p l IH]; intros idx msg Hl; [discriminate|].
  cbn [forallb] in Hl. cbn [forEach].
  destruct (post_record p) eqn:Hp.
  - rewrite (top_post_callback_line p idx msg Hp). cbn [rbind].
    now apply IH.
  - now rewrite (top_post_callback_raises p idx msg Hp).
Qed.

(** C5, as the code has it.  For an input whose [top_posts] is a non-empty
    array and whose head (the lines up to the averages) can be formatted:
    when each of the first three posts is a record, that is neither [null]
    nor [undefined] and with a like count and a link that [String] converts
    (no object with an own member [toString], also inside an array), the
    report is the head, the title, and one line per post for the first
    three posts only, numbered from 1 in the order of the input (a list of
    five gives the lines 1, 2 and 3 of its first three posts); when one of
    the first three posts is not such a record, [formatReportMessage]
    raises a [TypeError] and returns no report.  When the head cannot be formatted the function
    raises the error of the head.  The like count of a line is the first of
    [like_count], [diggCount] that is neither null nor absent, else 0; its
    link is the first truthy (non-empty) one of [si_permalink], [permalink],
    [si_picture], else empty; the link line is there exactly when the link
    is truthy. *)
Theorem format_top_posts (data : value) (posts : list value) :
  get_prop data "top_posts" = Ok (VArr posts) ->
  posts <> [] ->
  (forall head,
     report_head data = Ok head ->
     formatReportMessage data =
       if forallb post_record (firstn 3 posts)
       then Ok (head ++ top_videos_title ++ video_lines 1 (firstn 3 posts))
       else Throw TypeError) /\
  (forall e, report_head data = Throw e ->
             formatReportMessage data = Throw e) /\
  List.length (firstn 3 posts) = Nat.min 3 (List.length posts) /\
  (forall p1 p2 p3 p4 p5, posts = [p1; p2; p3; p4; p5] ->
     video_lines 1 (firstn 3 posts) =
     video_line 1 p1 ++ video_line 2 p2 ++ video_line 3 p3) /\
  (forall n p,
     video_line n p =
     String_of_Z (Z.of_nat n) ++ ") ❤️ "
       ++ escaped (first_present [prop p "like_count"; prop p "diggCount"]
                     (num 0))
       ++ " likes" ++ nl
       ++ (let link := first_truthy [prop p "si_permalink";
                                     prop p "permalink";
                                     prop p "si_picture"] (VStr "") in
           if truthy link then escaped link ++ nl else "")).
Proof.
  intros Htop Hne. repeat split.
  - intros head Hhead. unfold formatReportMessage.
    rewrite Hhead, Htop. cbn [rbind].
    destruct posts as [|p ps]; [contradiction|].
    destruct (forallb post_record (firstn 3 (p :: ps))) eqn:Hrec.
    + rewrite (forEach_video_lines _ 0 _ Hrec).
      unfold top_videos_title. f_equal. now repeat rewrite append_assoc.
    + now apply forEach_raises.
  - intros e Hhead. unfold formatReportMessage. now rewrite Hhead.
  - apply length_firstn.
  - intros p1 p2 p3 p4 p5 ->. simpl. now rewrite append_nil_r.
Qed.

Lemma format_top_posts_witness :
  exists head,
    report_head five_posts_report = Ok head /\
    formatReportMessage five_posts_report =
      Ok (head ++ top_videos_title
            ++ "1) ❤️ 50 likes" ++ nl ++ "https://t/1" ++ nl
            ++ "2) ❤️ 40 likes" ++ nl
            ++ "3) ❤️ 30 likes" ++ nl
            ++ "https://t/3.jpg?a=1&amp;b=2" ++ nl).
Proof.
  eexists. split; [vm_compute; reflexivity|].
  refine (proj1 (format_top_posts five_posts_report five_posts _ _) _ _).
  - reflexivity.
  - discriminate.
  - vm_compute; reflexivity.
Defined.

(** C5 as stated fails.  It speaks of every input whose [top_posts] is a
    non-empty list, and a list whose post is [null], or whose like count is
    an object that [String] cannot convert, is not rendered at all: the
    callback raises and no report is returned.  And the two fields do not
    follow one reading of "present": the post of [shadowed_report] has a
    zero [like_count] beside a [diggCount] of 5, and an empty [si_permalink]
    beside a [permalink]; the code prints 0 likes and the permalink, where
    "present" read for both fields as "neither null nor absent" would give
    the empty link, and read for both as "truthy" would give 5 likes. *)
Lemma format_top_posts_present_counterexample :
  let line := "1) ❤️ 0 likes" ++ nl ++ "https://t/v" ++ nl in
  formatReportMessage (VObj [("top_posts", VArr [VNull])]) = Throw TypeError /\
  formatReportMessage
    (VObj [("top_posts",
            VArr [VObj [("like_count", VObj [("toString", num 1)])]])])
  = Throw TypeError /\
  (exists head,
     report_head shadowed_report = Ok head /\
     formatReportMessage shadowed_report =
       Ok (head ++ top_videos_title ++ line)) /\
  video_line_of 1 (first_present (like_fields shadowed_post) (num 0))
                  (first_present (link_fields shadowed_post) (VStr ""))
    <> line /\
  video_line_of 1 (first_truthy (like_fields shadowed_post) (num 0))
                  (first_truthy (link_fields shadowed_post) (VStr ""))
    <> line.
Proof.
  split; [reflexivity|]. split; [reflexivity|]. split; [|split].
  - eexists. split; vm_compute; reflexivity.
  - vm_compute. discriminate.
  - vm_compute. discriminate.
Qed.

(** ** The subscription object *)

Lemma lookup_obj_set_eq {A} (k : string) (v : A) (o : list (string * A)) :
  lookup k (obj_set k v o) = Some v.
Proof.
  induction o as [|[k' v'] o IH]; simpl.
  - now rewrite String.eqb_refl.
  - destruct (String.eqb k' k) eqn:E; simpl.
    + now rewrite String.eqb_refl.
    + now rewrite E.
Qed.

Lemma lookup_obj_set_ne {A} (k k' : string) (v : A) (o : list (string * A)) :
  k <> k' -> lookup k' (obj_set k v o) = lookup k' o.
Proof.
  intros Hne. induction o as [|[k0 v0] o IH]; simpl.
  - apply String.eqb_neq in Hne. now rewrite Hne.
  - destruct (String.eqb k0 k) eqn:E; simpl.
    + apply String.eqb_eq in E. subst k0.
      apply String.eqb_neq in Hne. now rewrite Hne.
    + now rewrite IH.
Qed.

Lemma lookup_obj_delete_eq {A} (k : string) (o : list (string * A)) :
  lookup k (obj_delete k o) = None.
Proof.
  induction o as [|[k' v'] o IH]; simpl; [reflexivity|].
  destruct (String.eqb k' k) eqn:E; simpl; [assumption|].
  now rewrite E.
Qed.

Lemma lookup_obj_delete_ne {A} (k k' : string) (o : list (string * A)) :
  k <> k' -> lookup k' (obj_delete k o) = lookup k' o.
Proof.
  intros Hne. induction o as [|[k0 v0] o IH]; simpl; [reflexivity|].
  destruct (String.eqb k0 k) eqn:E; simpl.
  - apply String.eqb_eq in E. subst k0.
    apply String.eqb_neq in Hne. now rewrite Hne.
  - now rewrite IH.
Qed.

Lemma lookup_None_keys {A} (k : string) (o : list (string * A)) :
  lookup k o = None <-> ~ In k (keys o).
Proof.
  induction o as [|[k' v'] o IH]; simpl.
  - tauto.
  - destruct (String.eqb k' k) eqn:E.
    + apply String.eqb_eq in E. split; [discriminate | tauto].
    + apply String.eqb_neq in E. rewrite IH. tauto.
Qed.

Lemma keys_obj_set {A} (k : string) (v : A) (o : list (string * A)) :
  keys (obj_set k v o) =
  match lookup k o with
  | Some _ => keys o
  | None => (keys o ++ [k])%list
  end.
Proof.
  induction o as [|[k' v'] o IH]; simpl; [reflexivity|].
  destruct (String.eqb k' k) eqn:E; simpl.
  - apply String.eqb_eq in E. now subst.
  - rewrite IH. now destruct (lookup k o).
Qed.

Lemma distinct_keys_obj_set {A} (k : string) (v : A) (o : list (string * A)) :
  distinct_keys o -> distinct_keys (obj_set k v o).
Proof.
  unfold distinct_keys. intros H. rewrite keys_obj_set.
  destruct (lookup k o) eqn:E; [assumption|].
  apply lookup_None_keys in E.
  apply NoDup_app; [assumption | repeat constructor; intros [] | ].
  intros x Hx [<-|[]]. contradiction.
Qed.

Lemma distinct_keys_obj_delete {A} (k : string) (o : list (string * A)) :
  distinct_keys o -> distinct_keys (obj_delete k o).
Proof.
  unfold distinct_keys, keys, obj_delete.
  induction o as [|[k' v'] o IH]; simpl; intros H; [constructor|].
  inversion H as [|? ? Hin Hnd]; subst.
  destruct (String.eqb k' k); simpl; [now apply IH|].
  constructor; [|now apply IH].
  intros Hin'. apply Hin. apply in_map_iff in Hin' as [[k0 v0] [<- Hf]].
  apply filter_In in Hf as [Hf _]. apply in_map_iff. now exists (k0, v0).
Qed.

(** ** Admin check and commands *)

Ltac run_M :=
  unfold bind, ret, lift, gets, throw, try_catch, set_subscriptions,
    sendMessage, console_log, state_after;
  cbn [fst snd subscriptions disk writes sent console rbind negb].

Section Commands.

Variable env : Env.

Lemma isAdmin_open (msg : tg_message) :
  BOT_ADMIN_ID env = None \/ BOT_ADMIN_ID env = Some "" ->
  isAdmin env msg = true.
Proof. unfold isAdmin. now intros [-> | ->]. Qed.

Lemma isAdmin_other (admin : string) (msg : tg_message) :
  BOT_ADMIN_ID env = Some admin -> admin <> "" ->
  String_of_Z (from_id msg) <> admin ->
  isAdmin env msg = false.
Proof.
  unfold isAdmin. intros -> Hne Hother.
  apply String.eqb_neq in Hne, Hother. now rewrite Hne, Hother.
Qed.

Lemma on_start_spec (msg : tg_message) (w : World) :
  on_start msg w = (Ok tt, replied (reply msg help_text) w).
Proof. reflexivity. Qed.

Lemma on_rem_not_found (msg : tg_message) (c : string) (w : World) :
  isAdmin env msg = true -> lookup c (subscriptions w) = None ->
  on_rem env msg c w =
  (Ok tt, replied (reply msg (not_found_text (escape_text c))) w).
Proof.
  intros Hadmin Hnone. unfold on_rem. rewrite Hadmin. run_M.
  now rewrite Hnone.
Qed.

Lemma on_rem_found (msg : tg_message) (c : string) (w : World)
    (r : subscription) :
  isAdmin env msg = true -> lookup c (subscriptions w) = Some r ->
  sent (state_after (on_rem env msg c) w) =
  (sent w ++ [reply msg (removed_text (escape_text c))])%list /\
  subscriptions (state_after (on_rem env msg c) w) =
  obj_delete c (subscriptions w).
Proof.
  intros Hadmin Hsome. unfold on_rem, saveSubscriptions, writeFileSync.
  rewrite Hadmin. run_M. rewrite Hsome. run_M.
  destruct (fs_write env (writes w)); run_M; now split.
Qed.

Lemma saveSubscriptions_returns (s : subs) (w : World) :
  exists w', saveSubscriptions env s w = (Ok tt, w') /\
             subscriptions w' = subscriptions w /\ sent w' = sent w.
Proof.
  unfold saveSubscriptions, writeFileSync. run_M.
  destruct (fs_write env (writes w)); eexists; repeat split.
Qed.

Lemma saveSubscriptions_ok (s : subs) (w : World) :
  fs_write env (writes w) = None ->
  saveSubscriptions env s w =
  (Ok tt, {| subscriptions := subscriptions w;
             disk := Some (JSON.stringify s);
             writes := S (writes w); sent := sent w;
             console := console w |}).
Proof.
  intros Hw. unfold saveSubscriptions, writeFileSync. run_M. now rewrite Hw.
Qed.

Lemma on_add_ok (msg : tg_message) (link : string) (m2 : option string)
    (w : World) :
  isAdmin env msg = true -> fs_write env (writes w) = None ->
  let c := chatIdToUse msg m2 in
  let s := obj_set c {| tiktokHandle := link; lastSentAt := None |}
             (subscriptions w) in
  on_add env msg link m2 w =
  (Ok tt, {| subscriptions := s; disk := Some (JSON.stringify s);
             writes := S (writes w);
             sent := (sent w ++
                      [reply msg ("✅ Added report for chat <b>"
                                  ++ escape_text c ++ "</b> on profile:" ++ nl
                                  ++ escape_text link)])%list;
             console := console w |}).
Proof.
  intros Hadmin Hw c s. unfold on_add. rewrite Hadmin. run_M.
  rewrite saveSubscriptions_ok by exact Hw. reflexivity.
Qed.

Lemma on_rem_ok (msg : tg_message) (c : string) (r : subscription)
    (w : World) :
  isAdmin env msg = true -> fs_write env (writes w) = None ->
  lookup c (subscriptions w) = Some r ->
  let s := obj_delete c (subscriptions w) in
  on_rem env msg c w =
  (Ok tt, {| subscriptions := s; disk := Some (JSON.stringify s);
             writes := S (writes w);
             sent := (sent w ++ [reply msg (removed_text (escape_text c))])%list;
             console := console w |}).
Proof.
  intros Hadmin Hw Hsome s. unfold on_rem. rewrite Hadmin. run_M.
  rewrite Hsome. run_M.
  rewrite saveSubscriptions_ok by exact Hw. reflexivity.
Qed.

Lemma list_text_returns (entries : list (string * subscription)) :
  forall (text : string) (w : World),
    exists text', list_text entries text w = (Ok text', w).
Proof.
  induction entries as [|[c info] rest IH]; intros text w; simpl.
  - now eexists.
  - run_M.
    destruct (truthy (nullable (lastSentAt info))) eqn:E.
    + destruct (lastSentAt info) as [t|]; [|discriminate]. simpl. apply IH.
    + apply IH.
Qed.

(** A command leaves the store alone or rewrites the whole of it. *)
Lemma handle_update_returns (u : update) (w : World) :
  exists w', handle_update env u w = (Ok tt, w').
Proof.
  destruct u as [msg | msg link m2 | msg c | msg]; simpl.
  - now eexists.
  - unfold on_add. destruct (isAdmin env msg); run_M; [|now eexists].
    match goal with |- context [saveSubscriptions env ?s ?w0] =>
      destruct (saveSubscriptions_returns s w0) as [w' [-> _]] end.
    now eexists.
  - unfold on_rem. destruct (isAdmin env msg); run_M; [|now eexists].
    destruct (lookup c (subscriptions w)); run_M; [|now eexists].
    match goal with |- context [saveSubscriptions env ?s ?w0] =>
      destruct (saveSubscriptions_returns s w0) as [w' [-> _]] end.
    now eexists.
  - unfold on_list. destruct (isAdmin env msg); run_M; [|now eexists].
    destruct (Nat.eqb _ 0); [now eexists|].
    match goal with |- context [list_text ?l ?t ?w0] =>
      destruct (list_text_returns l t w0) as [t' ->] end.
    now eexists.
Qed.

Lemma handle_update_persisted (u : update) (w : World) :
  writes_succeed env -> persisted w ->
  persisted (state_after (handle_update env u) w).
Proof.
  intros Hw Hp.
  destruct u as [msg | msg link m2 | msg c | msg]; simpl.
  - exact Hp.
  - destruct (isAdmin env msg) eqn:Hadmin.
    + unfold state_after. rewrite on_add_ok by auto. reflexivity.
    + unfold state_after, on_add. rewrite Hadmin. exact Hp.
  - destruct (isAdmin env msg) eqn:Hadmin.
    + destruct (lookup c (subscriptions w)) as [r|] eqn:E.
      * unfold state_after. rewrite (on_rem_ok msg c r) by auto. reflexivity.
      * unfold state_after. rewrite on_rem_not_found by auto. exact Hp.
    + unfold state_after, on_rem. rewrite Hadmin. exact Hp.
  - unfold state_after, on_list.
    destruct (isAdmin env msg); run_M; [|exact Hp].
    destruct (Nat.eqb _ 0); [exact Hp|].
    match goal with |- context [list_text ?l ?t ?w0] =>
      destruct (list_text_returns l t w0) as [t' ->] end.
    exact Hp.
Qed.

Lemma interleave_returns (us : list update) :
  forall w, interleave env us w = (Ok tt, state_after (interleave env us) w).
Proof.
  induction us as [|u us IH]; intros w; [reflexivity|].
  unfold state_after in *. simpl. run_M.
  destruct (handle_update_returns u w) as [w' ->]. apply IH.
Qed.

Lemma interleave_persisted (us : list update) :
  writes_succeed env ->
  forall w, persisted w -> persisted (state_after (interleave env us) w).
Proof.
  intros Hw. induction us as [|u us IH]; intros w Hp; [exact Hp|].
  unfold state_after in *. simpl. run_M.
  pose proof (handle_update_persisted u w Hw Hp) as Hu.
  unfold state_after in Hu.
  destruct (handle_update_returns u w) as [w' E]. rewrite E in *.
  now apply IH.
Qed.

End Commands.

(** ** Sending a report *)

Section Delivery.

Variable env : Env.

Lemma report_failure_returns (a : attempt) (c : string) (w : World) :
  report_failure env a c w = (Ok tt, state_after (report_failure env a c) w).
Proof.
  unfold state_after, report_failure. run_M.
  now rewrite interleave_returns.
Qed.

(** The [catch] block: the rejection of the fallback request is swallowed. *)
Lemma catch_block (a : attempt) (c : string) (w : World) :
  (console_log (LogReportError c) ;;
   sendMessage (ChatKey c) fallback_text NoOptions ;;
   try_catch (await env (during_fallback a)
                (settled (fallback_delivered a) SendError))
             (fun _ => ret tt))%M w
  = (Ok tt, state_after (report_failure env a c) w).
Proof.
  unfold state_after, report_failure, await. run_M.
  rewrite interleave_returns. cbn [fst snd].
  now destruct (fallback_delivered a).
Qed.

Lemma sendReportToChat_unfold (a : attempt) (c h : string) (w : World) :
  sendReportToChat env a c h w = sendReportToChat_cases env a c w.
Proof.
  unfold sendReportToChat, sendReportToChat_cases.
  unfold try_catch at 1. unfold bind at 1.
  unfold fetchTikTokAnalytics, await at 1.
  unfold bind at 1. rewrite interleave_returns.
  set (w1 := state_after (interleave env (during_fetch a)) w).
  unfold lift at 1.
  destruct (fetched a) as [data|e]; cbn [rbind]; [|apply catch_block].
  unfold bind at 1. unfold lift at 1.
  destruct (formatReportMessage data) as [message|e]; [|apply catch_block].
  unfold bind at 1. unfold sendMessage at 1.
  fold (replied (report_message c message) w1).
  unfold bind at 1. unfold await at 1. unfold bind at 1.
  rewrite interleave_returns.
  set (w2 := state_after (interleave env (during_send a)) _).
  unfold lift at 1.
  destruct (delivered a); cbn [settled]; [|apply catch_block].
  unfold bind at 1. unfold bind at 1. unfold gets at 1.
  unfold bind at 1.
  destruct (lookup c (subscriptions w2)) as [record|];
    [|unfold throw at 1; apply catch_block].
  unfold set_subscriptions at 1. unfold bind at 1. unfold gets at 1.
  cbn [subscriptions].
  fold (with_subscriptions
          (obj_set c (with_lastSentAt record (now a)) (subscriptions w2)) w2).
  unfold state_after.
  match goal with |- context [saveSubscriptions env ?s ?w0] =>
    destruct (saveSubscriptions_returns env s w0) as [w' [-> _]] end.
  reflexivity.
Qed.

Lemma sendReportToChat_returns (a : attempt) (c h : string) (w : World) :
  sendReportToChat env a c h w =
  (Ok tt, state_after (sendReportToChat env a c h) w).
Proof.
  unfold state_after. rewrite sendReportToChat_unfold.
  unfold sendReportToChat_cases.
  destruct (rbind (fetched a) formatReportMessage); [|reflexivity].
  destruct (delivered a); [|reflexivity].
  now destruct (lookup c _).
Qed.

Lemma report_failure_persisted (a : attempt) (c : string) (w : World) :
  writes_succeed env -> persisted w ->
  persisted (state_after (report_failure env a c) w).
Proof.
  intros Hw Hp. unfold state_after, report_failure. run_M.
  now apply (interleave_persisted env _ Hw).
Qed.

Lemma sendReportToChat_persisted (a : attempt) (c h : string) (w : World) :
  writes_succeed env -> persisted w ->
  persisted (state_after (sendReportToChat env a c h) w).
Proof.
  intros Hw Hp. unfold state_after. rewrite sendReportToChat_unfold.
  unfold sendReportToChat_cases.
  pose proof (interleave_persisted env (during_fetch a) Hw w Hp) as H1.
  destruct (rbind (fetched a) formatReportMessage) as [m|e]; cbn [snd];
    [|now apply report_failure_persisted].
  set (w2 := state_after (interleave env (during_send a)) _).
  assert (H2 : persisted w2) by (apply (interleave_persisted env _ Hw); exact H1).
  destruct (delivered a); cbn [snd]; [|now apply report_failure_persisted].
  destruct (lookup c (subscriptions w2)); cbn [snd];
    [|now apply report_failure_persisted].
  unfold state_after. rewrite saveSubscriptions_ok by apply Hw. reflexivity.
Qed.

(** The delivery that succeeds: the record of the chat gets the time of the
    delivery and the whole mapping is written. *)
Lemma sendReportToChat_recorded (a : attempt) (c h : string) (w : World)
    (data : value) (message : string) (record : subscription) :
  fetched a = Ok data -> formatReportMessage data = Ok message ->
  delivered a = true ->
  let w2 := before_recording env a c message w in
  lookup c (subscriptions w2) = Some record ->
  fs_write env (writes w2) = None ->
  let s := obj_set c (with_lastSentAt record (now a)) (subscriptions w2) in
  state_after (sendReportToChat env a c h) w =
  {| subscriptions := s; disk := Some (JSON.stringify s);
     writes := S (writes w2); sent := sent w2; console := console w2 |}.
Proof.
  intros Hf Hm Hd w2 Hr Hw s. unfold state_after.
  rewrite sendReportToChat_unfold. unfold sendReportToChat_cases.
  rewrite Hf. cbn [rbind]. rewrite Hm, Hd.
  fold (before_recording env a c message w). fold w2. rewrite Hr.
  cbn [snd]. unfold state_after. rewrite saveSubscriptions_ok by exact Hw.
  reflexivity.
Qed.

(** The record is gone when the delivery comes back: the assignment raises,
    and the [catch] block reports a failure to the chat. *)
Lemma sendReportToChat_removed (a : attempt) (c h : string) (w : World)
    (data : value) (message : string) :
  fetched a = Ok data -> formatReportMessage data = Ok message ->
  delivered a = true ->
  let w2 := before_recording env a c message w in
  lookup c (subscriptions w2) = None ->
  state_after (sendReportToChat env a c h) w =
  state_after (report_failure env a c) w2.
Proof.
  intros Hf Hm Hd w2 Hr. unfold state_after.
  rewrite sendReportToChat_unfold. unfold sendReportToChat_cases.
  rewrite Hf. cbn [rbind]. rewrite Hm, Hd.
  fold (before_recording env a c message w). fold w2. now rewrite Hr.
Qed.


(** *** The scheduler *)

Lemma for_entries_step (plan : string -> attempt) (c : string)
    (info : subscription) (rest : list (string * subscription)) (w : World) :
  tiktokHandle info <> "" ->
  for_entries env plan ((c, info) :: rest) w =
  for_entries env plan rest
    (state_after (interleave env (during_delay (plan c)))
       (state_after (sendReportToChat env (plan c) c (tiktokHandle info))
          (logged (LogSending c (tiktokHandle info)) w))).
Proof.
  intros Hh. apply String.eqb_neq in Hh. cbn [for_entries]. rewrite Hh.
  unfold bind at 1. unfold console_log at 1.
  fold (logged (LogSending c (tiktokHandle info)) w).
  unfold bind at 1. rewrite sendReportToChat_returns.
  unfold bind at 1. unfold await at 1. unfold bind at 1.
  rewrite interleave_returns. reflexivity.
Qed.

Lemma for_entries_skip (plan : string -> attempt) (c : string)
    (info : subscription) (rest : list (string * subscription)) (w : World) :
  tiktokHandle info = "" ->
  for_entries env plan ((c, info) :: rest) w = for_entries env plan rest w.
Proof. intros Hh. cbn [for_entries]. now rewrite Hh. Qed.



Lemma for_entries_persisted (plan : string -> attempt)
    (l : list (string * subscription)) :
  writes_succeed env ->
  forall w, persisted w -> persisted (state_after (for_entries env plan l) w).
Proof.
  intros Hw. induction l as [|[c info] rest IH]; intros w Hp; [exact Hp|].
  unfold state_after.
  destruct (string_dec (tiktokHandle info) "") as [E|E].
  - rewrite for_entries_skip by exact E. now apply IH.
  - rewrite for_entries_step by exact E. apply IH.
    apply (interleave_persisted env _ Hw).
    now apply sendReportToChat_persisted.
Qed.

Lemma runSchedulerCycle_unfold (plan : string -> attempt) (w : World) :
  runSchedulerCycle env plan w =
  for_entries env plan (Object_entries (subscriptions w))
    (logged LogCycleRunning w).
Proof. reflexivity. Qed.

End Delivery.

(** ** The claims on the commands, the store and the delivery cycle *)

(** C9: without a configured administrator every caller is an
    administrator; with one, [/add], [/rem] and [/list] from anybody else
    send nothing and change nothing; [/start] answers everybody with the
    help text. *)
Theorem admin_gate (env : Env) (msg : tg_message) (w : World) :
  (BOT_ADMIN_ID env = None \/ BOT_ADMIN_ID env = Some "" ->
   isAdmin env msg = true) /\
  (forall admin,
     BOT_ADMIN_ID env = Some admin -> admin <> "" ->
     String_of_Z (from_id msg) <> admin ->
     (forall link c, on_add env msg link c w = (Ok tt, w)) /\
     (forall c, on_rem env msg c w = (Ok tt, w)) /\
     on_list env msg w = (Ok tt, w)) /\
  on_start msg w = (Ok tt, replied (reply msg help_text) w) /\
  handle_update env (CmdStart msg) w = (Ok tt, replied (reply msg help_text) w).
Proof.
  split; [|split; [|split]].
  - apply isAdmin_open.
  - intros admin Hadmin Hne Hother.
    pose proof (isAdmin_other env admin msg Hadmin Hne Hother) as Hno.
    unfold on_add, on_rem, on_list. rewrite Hno. repeat split.
  - reflexivity.
  - reflexivity.
Qed.

Lemma admin_gate_witness :
  isAdmin open_env someone = true /\
  on_add admin_env someone "@x" (Some "111") one_chat = (Ok tt, one_chat) /\
  on_rem admin_env someone "111" one_chat = (Ok tt, one_chat) /\
  on_list admin_env someone one_chat = (Ok tt, one_chat).
Proof.
  pose proof (admin_gate open_env someone one_chat) as [Hopen _].
  pose proof (admin_gate admin_env someone one_chat) as [_ [Hother _]].
  split; [apply Hopen; left; reflexivity|].
  assert (H1 : "42" <> "") by discriminate.
  assert (H2 : String_of_Z (from_id someone) <> "42")
    by (vm_compute; discriminate).
  destruct (Hother "42" eq_refl H1 H2) as [Hadd [Hrem Hlist]].
  split; [apply Hadd | split; [apply Hrem | apply Hlist]].
Defined.

Lemma outcomes_differ (c : string) : not_found_text c <> removed_text c.
Proof. unfold not_found_text, removed_text. simpl. discriminate. Qed.

(** C7: [/rem] of a chat that is not in the store answers "not found", an
    answer that differs from the one of a removal; it leaves the mapping as
    it is and does not write the file. *)
Theorem rem_unknown_chat (env : Env) (msg : tg_message) (c : string)
    (w : World) :
  isAdmin env msg = true ->
  lookup c (subscriptions w) = None ->
  let w' := state_after (on_rem env msg c) w in
  on_rem env msg c w = (Ok tt, w') /\
  sent w' = (sent w ++ [reply msg (not_found_text (escape_text c))])%list /\
  subscriptions w' = subscriptions w /\
  disk w' = disk w /\
  writes w' = writes w /\
  not_found_text (escape_text c) <> removed_text (escape_text c) /\
  (forall w0 r,
     lookup c (subscriptions w0) = Some r ->
     sent (state_after (on_rem env msg c) w0) =
     (sent w0 ++ [reply msg (removed_text (escape_text c))])%list).
Proof.
  intros Hadmin Hnone w'. subst w'. unfold state_after.
  rewrite (on_rem_not_found env msg c w Hadmin Hnone). cbn [fst snd].
  repeat split.
  - apply outcomes_differ.
  - intros w0 r Hr. now apply (on_rem_found env msg c w0 r).
Qed.

Lemma rem_unknown_chat_witness :
  on_rem open_env someone "222" one_chat =
  (Ok tt, replied (reply someone (not_found_text "222")) one_chat).
Proof.
  apply (rem_unknown_chat open_env someone "222" one_chat);
    reflexivity.
Defined.

(** C8: with writes that succeed, an add, a removal of an existing record
    and a delivery that succeeds each leave the file equal to the
    serialization of the whole mapping they produced; and the file stays so
    through every command, every delivery and every cycle. *)
Theorem persist_after_every_mutation (env : Env) :
  writes_succeed env ->
  (forall msg link m2 w,
     isAdmin env msg = true ->
     let w' := state_after (on_add env msg link m2) w in
     lookup (chatIdToUse msg m2) (subscriptions w') =
       Some {| tiktokHandle := link; lastSentAt := None |} /\
     persisted w') /\
  (forall msg c r w,
     isAdmin env msg = true ->
     lookup c (subscriptions w) = Some r ->
     let w' := state_after (on_rem env msg c) w in
     lookup c (subscriptions w') = None /\ persisted w') /\
  (forall a c h data message record w,
     fetched a = Ok data -> formatReportMessage data = Ok message ->
     delivered a = true ->
     lookup c (subscriptions (before_recording env a c message w))
       = Some record ->
     let w' := state_after (sendReportToChat env a c h) w in
     lookup c (subscriptions w') = Some (with_lastSentAt record (now a)) /\
     persisted w') /\
  (forall u w, persisted w -> persisted (state_after (handle_update env u) w)) /\
  (forall a c h w,
     persisted w -> persisted (state_after (sendReportToChat env a c h) w)) /\
  (forall plan w,
     persisted w -> persisted (state_after (runSchedulerCycle env plan) w)).
Proof.
  intros Hw. repeat split.
  - unfold state_after. rewrite on_add_ok by auto. cbn [snd subscriptions].
    apply lookup_obj_set_eq.
  - unfold state_after. rewrite on_add_ok by auto. reflexivity.
  - unfold state_after. rewrite (on_rem_ok env msg c r) by auto.
    cbn [snd subscriptions]. apply lookup_obj_delete_eq.
  - unfold state_after. rewrite (on_rem_ok env msg c r) by auto. reflexivity.
  - rewrite (sendReportToChat_recorded env a c h w data message record)
      by auto.
    cbn [subscriptions]. apply lookup_obj_set_eq.
  - rewrite (sendReportToChat_recorded env a c h w data message record)
      by auto.
    reflexivity.
  - intros u w Hp. now apply handle_update_persisted.
  - intros a c h w Hp. now apply sendReportToChat_persisted.
  - intros plan w Hp. unfold state_after. rewrite runSchedulerCycle_unfold.
    now apply for_entries_persisted.
Qed.

Lemma persist_after_every_mutation_witness :
  persisted (state_after (on_add open_env someone "@b" (Some "222")) one_chat)
  /\ persisted (state_after (on_rem open_env someone "111") one_chat)
  /\ persisted (state_after
                  (sendReportToChat open_env (quiet (Ok small_report) true)
                     "111" "@a") one_chat).
Proof.
  assert (Hw : writes_succeed open_env) by (intros n; reflexivity).
  destruct (persist_after_every_mutation open_env Hw)
    as [Hadd [Hrem [Hsend _]]].
  split; [|split].
  - apply (Hadd someone "@b" (Some "222") one_chat). reflexivity.
  - apply (Hrem someone "111"
             {| tiktokHandle := "@a"; lastSentAt := None |} one_chat);
      reflexivity.
  - refine (proj2 (Hsend (quiet (Ok small_report) true) "111" "@a"
                     small_report _
                     {| tiktokHandle := "@a"; lastSentAt := None |}
                     one_chat eq_refl _ eq_refl _)).
    + vm_compute; reflexivity.
    + vm_compute; reflexivity.
Defined.



(** C1, on the code: in the scenario of [removed_meanwhile] the report is
    delivered and [/rem 111] arrives before the time is recorded.  Nothing
    is raised past [sendReportToChat], but the chat is sent the fallback
    notice after its report. *)
Theorem removal_mid_delivery_sends_fallback :
  exists report,
    formatReportMessage small_report = Ok report /\
    sendReportToChat open_env removed_meanwhile "111" "@a" one_chat =
    (Ok tt,
     {| subscriptions := [];
        disk := Some "{}";
        writes := 1;
        sent := [report_message "111" report;
                 reply someone (removed_text "111");
                 fallback_notice "111"];
        console := [LogReportError "111"] |}).
Proof.
  eexists. split; vm_compute; reflexivity.
Qed.

(** ** Object.entries *)

Lemma insert_index_Permutation {A} (n : N) (kv : string * A)
    (l : list (N * (string * A))) :
  Permutation (map snd (insert_index n kv l)) (kv :: map snd l).
Proof.
  induction l as [|[m kv'] l IH]; simpl; [reflexivity|].
  destruct (n <? m)%N; simpl; [reflexivity|].
  rewrite IH. apply perm_swap.
Qed.

(** [Object.entries] lists every property once. *)
Lemma Object_entries_Permutation {A} (o : list (string * A)) :
  Permutation (Object_entries o) o.
Proof.
  unfold Object_entries.
  induction o as [|[k v] o IH]; simpl; [reflexivity|].
  destruct (array_index k) as [n|]; simpl.
  - rewrite insert_index_Permutation. simpl. now rewrite IH.
  - rewrite <- Permutation_middle. now rewrite IH.
Qed.

Lemma lookup_Some_In {A} (k : string) (v : A) (o : list (string * A)) :
  lookup k o = Some v -> In (k, v) o.
Proof.
  induction o as [|[k' v'] o IH]; simpl; [discriminate|].
  destruct (String.eqb k' k) eqn:E.
  - apply String.eqb_eq in E. intros [= ->]. left. now subst.
  - intros H. right. now apply IH.
Qed.

Lemma In_lookup_Some {A} (k : string) (v : A) (o : list (string * A)) :
  distinct_keys o -> In (k, v) o -> lookup k o = Some v.
Proof.
  unfold distinct_keys, keys.
  induction o as [|[k' v'] o IH]; simpl; [contradiction|].
  intros Hnd Hin. inversion Hnd as [|? ? Hnotin Hnd']; subst.
  destruct Hin as [[= -> ->] | Hin].
  - now rewrite String.eqb_refl.
  - destruct (String.eqb k' k) eqn:E; [|now apply IH].
    apply String.eqb_eq in E. subst k'.
    exfalso. apply Hnotin. apply in_map_iff. now exists (k, v).
Qed.

Lemma lookup_Permutation {A} (k : string) (o o' : list (string * A)) :
  distinct_keys o -> Permutation o' o -> lookup k o' = lookup k o.
Proof.
  intros Hnd Hp.
  assert (Hnd' : distinct_keys o').
  { unfold distinct_keys, keys in *.
    eapply Permutation_NoDup; [|exact Hnd].
    apply Permutation_map. now symmetry. }
  destruct (lookup k o) as [v|] eqn:E.
  - apply lookup_Some_In in E. apply In_lookup_Some; [exact Hnd'|].
    eapply Permutation_in; [symmetry; exact Hp | exact E].
  - apply lookup_None_keys in E. apply lookup_None_keys.
    intros Hin. apply E. unfold keys in *.
    eapply Permutation_in; [apply Permutation_map; exact Hp | exact Hin].
Qed.

Lemma distinct_keys_Object_entries {A} (o : list (string * A)) :
  distinct_keys o -> distinct_keys (Object_entries o).
Proof.
  unfold distinct_keys, keys. intros H.
  eapply Permutation_NoDup; [|exact H].
  apply Permutation_map. symmetry. apply Object_entries_Permutation.
Qed.

Lemma lookup_Object_entries {A} (k : string) (o : list (string * A)) :
  distinct_keys o -> lookup k (Object_entries o) = lookup k o.
Proof.
  intros H. apply lookup_Permutation; [exact H|].
  apply Object_entries_Permutation.
Qed.

Lemma obj_set_fresh {A} (k : string) (v : A) (o : list (string * A)) :
  lookup k o = None -> obj_set k v o = (o ++ [(k, v)])%list.
Proof.
  induction o as [|[k' v'] o IH]; simpl; [reflexivity|].
  destruct (String.eqb k' k); [discriminate|].
  intros H. now rewrite IH.
Qed.

(** Setting distinct new keys one after the other appends them. *)
Lemma fold_obj_set_distinct {A} (l : list (string * A)) :
  forall acc,
    distinct_keys (acc ++ l)%list ->
    fold_left (fun o kv => obj_set (fst kv) (snd kv) o) l acc
    = (acc ++ l)%list.
Proof.
  induction l as [|[k v] l IH]; intros acc Hnd; simpl.
  - now rewrite app_nil_r.
  - assert (Hk : lookup k acc = None).
    { apply lookup_None_keys. intros Hin.
      unfold distinct_keys, keys in Hnd. rewrite map_app in Hnd.
      simpl in Hnd. apply NoDup_remove_2 in Hnd. apply Hnd.
      apply in_or_app. now left. }
    rewrite (obj_set_fresh k v acc Hk).
    rewrite IH; rewrite <- app_assoc; [reflexivity | exact Hnd].
Qed.

(** ** JSON text: parsing what was printed *)

Module JSONFacts.
Import JSON.

Lemma length_append (s t : string) :
  String.length (s ++ t) = String.length s + String.length t.
Proof. induction s as [|a s IH]; simpl; [reflexivity | now rewrite IH]. Qed.

(** One printed character is read back as itself. *)
Lemma parse_chars_quote_char (a : ascii) (x s rest : string) :
  parse_chars x = Some (s, rest) ->
  parse_chars (quote_char a ++ x) = Some (String a s, rest).
Proof.
  intros H.
  destruct a as [[] [] [] [] [] [] [] []]; simpl; rewrite H; reflexivity.
Qed.

Lemma parse_chars_quote_chars (s rest : string) :
  parse_chars (quote_chars s ++ dquote ++ rest) = Some (s, rest).
Proof.
  induction s as [|a s IH]; [reflexivity|].
  cbn [quote_chars]. rewrite append_assoc.
  now apply parse_chars_quote_char.
Qed.

Lemma parse_string_quote (s rest : string) :
  parse_string (quote s ++ rest) = Some (s, rest).
Proof.
  unfold quote. rewrite !append_assoc. cbn.
  apply parse_chars_quote_chars.
Qed.

Ltac read_string :=
  match goal with
  | |- context [parse_chars (quote_chars ?s ++ String ?q ?r)] =>
      let Hq := fresh "Hq" in
      pose proof (parse_chars_quote_chars s r) as Hq;
      cbn in Hq; rewrite Hq; clear Hq
  end.

Lemma parse_record_stringify (r : subscription) (rest : string) :
  parse_record (stringify_record r ++ rest) = Some (r, rest).
Proof.
  destruct r as [h [t|]];
    unfold stringify_record, quote; cbn [tiktokHandle lastSentAt];
    rewrite !append_assoc;
    unfold parse_record, parse_field, pbind, ws, char, parse_string, pret;
    cbn; read_string; cbn.
  - rewrite ?append_assoc. cbn. read_string. reflexivity.
  - reflexivity.
Qed.

Lemma stringify_members_body (kv : string * subscription)
    (l : list (string * subscription)) :
  stringify_members (kv :: l) = "  " ++ members_body kv l.
Proof.
  revert kv. induction l as [|kv' l IH]; intros kv; [reflexivity|].
  change (stringify_members (kv :: kv' :: l))
    with (stringify_member kv ++ "," ++ nl ++ stringify_members (kv' :: l)).
  rewrite IH. cbn [members_body].
  unfold stringify_member, member_body. now rewrite !append_assoc.
Qed.

Lemma skip_ws_record (r : subscription) (s : string) :
  skip_ws (stringify_record r ++ s) = stringify_record r ++ s.
Proof. reflexivity. Qed.

Lemma skip_ws_members_body (kv : string * subscription)
    (l : list (string * subscription)) (s : string) :
  skip_ws (members_body kv l ++ s) = members_body kv l ++ s.
Proof. destruct l; reflexivity. Qed.

Lemma parse_members_body (l : list (string * subscription)) :
  forall kv acc fuel rest,
    List.length l < fuel ->
    parse_members fuel acc (members_body kv l ++ nl ++ "}" ++ rest) =
    Some (fold_left (fun o kv => obj_set (fst kv) (snd kv) o) (kv :: l) acc,
          rest).
Proof.
  induction l as [|kv' l IH]; intros [k r] acc fuel rest Hfuel;
    (destruct fuel as [|fuel]; [inversion Hfuel|]);
    cbn [members_body parse_members]; unfold member_body;
    cbn [fst snd]; rewrite !append_assoc;
    unfold pbind at 1; rewrite parse_string_quote;
    unfold pbind, ws, char;
    cbn -[parse_record stringify_record parse_members members_body obj_set];
    rewrite skip_ws_record, parse_record_stringify;
    cbn -[parse_record stringify_record parse_members members_body obj_set].
  - reflexivity.
  - rewrite skip_ws_members_body. apply IH. simpl in Hfuel. lia.
Qed.

Lemma length_members_body (kv : string * subscription)
    (l : list (string * subscription)) (s : string) :
  List.length l < String.length (members_body kv l ++ s).
Proof.
  revert kv. induction l as [|kv' l IH]; intros kv.
  - unfold members_body, member_body, quote. simpl. lia.
  - cbn [members_body List.length]. specialize (IH kv').
    unfold member_body, quote. rewrite !length_append in *.
    simpl. lia.
Qed.

Lemma parse_stringify (o : subs) :
  parse (stringify o) =
  Some (fold_left (fun acc kv => obj_set (fst kv) (snd kv) acc)
          (Object_entries o) []).
Proof.
  unfold stringify. destruct (Object_entries o) as [|kv l]; [reflexivity|].
  rewrite stringify_members_body.
  unfold parse, parse_object, pbind, ws, char.
  cbn -[parse_members members_body obj_set fold_left String.length].
  match goal with
  | |- context [skip_ws (members_body kv l ++ ?t)] => set (tail := t)
  end.
  rewrite !skip_ws_members_body.
  destruct (members_body kv l ++ tail) as [|c s] eqn:E.
  { destruct l; discriminate. }
  assert (Hc : Ascii.eqb c "}" = false)
    by (destruct l; now injection E as <- _).
  rewrite Hc, <- E.
  change tail with (nl ++ "}" ++ "").
  rewrite parse_members_body by apply length_members_body.
  reflexivity.
Qed.

End JSONFacts.

(** ** Restarting on the file the process wrote *)

Lemma stringify_not_empty (s : subs) : String.eqb (JSON.stringify s) "" = false.
Proof. unfold JSON.stringify. now destruct (Object_entries s). Qed.

(** Reading back what [saveSubscriptions] wrote gives the same records. *)
Lemma loadSubscriptions_written (env : Env) (s : subs) :
  fs_read_fails env = false -> distinct_keys s ->
  loadSubscriptions env (fresh (Some (JSON.stringify s))) =
  (Ok (Object_entries s), fresh (Some (JSON.stringify s))).
Proof.
  intros Hread Hnd. unfold loadSubscriptions, readFileSync. run_M.
  cbn [fresh disk negb]. rewrite Hread, stringify_not_empty.
  rewrite JSONFacts.parse_stringify.
  rewrite (fold_obj_set_distinct (Object_entries s) []);
    [reflexivity | now apply distinct_keys_Object_entries].
Qed.

(** C6: after [/add] has set the record of a chat and written the file, a
    process that starts on that file loads a store in which the chat has the
    given handle and no [lastSentAt], whatever record the chat had; the
    other chats are loaded as they were. *)
Theorem add_survives_restart (env env' : Env) (msg : tg_message)
    (link : string) (m2 : option string) (w : World) :
  isAdmin env msg = true ->
  fs_write env (writes w) = None ->
  fs_read_fails env' = false ->
  distinct_keys (subscriptions w) ->
  let w1 := state_after (on_add env msg link m2) w in
  let c := chatIdToUse msg m2 in
  (exists s, loadSubscriptions env' (fresh (disk w1)) = (Ok s, fresh (disk w1))
             /\ subscriptions (startup env' (disk w1)) = s) /\
  lookup c (subscriptions (startup env' (disk w1))) =
    Some {| tiktokHandle := link; lastSentAt := None |} /\
  (forall k, k <> c ->
     lookup k (subscriptions (startup env' (disk w1))) =
     lookup k (subscriptions w)).
Proof.
  intros Hadmin Hw Hread Hnd w1 c. subst w1. unfold state_after, startup.
  rewrite on_add_ok by assumption. cbn [snd disk]. fold c.
  set (s := obj_set c _ (subscriptions w)).
  assert (Hs : distinct_keys s) by now apply distinct_keys_obj_set.
  rewrite (loadSubscriptions_written env' s Hread Hs). cbn [subscriptions].
  split; [|split].
  - now eexists.
  - rewrite lookup_Object_entries by exact Hs. apply lookup_obj_set_eq.
  - intros k Hk. rewrite lookup_Object_entries by exact Hs.
    apply lookup_obj_set_ne. congruence.
Qed.

Lemma add_survives_restart_witness :
  lookup "111"
    (subscriptions
       (startup open_env
          (disk (state_after (on_add open_env someone "@new" (Some "111"))
                   already_sent))))
  = Some {| tiktokHandle := "@new"; lastSentAt := None |}.
Proof.
  apply (add_survives_restart open_env open_env someone "@new" (Some "111")
           already_sent); try reflexivity.
  unfold distinct_keys. simpl. repeat constructor. intros [].
Defined.

(** ** The keys of [subscriptions] stay distinct *)

Section Keys.

Variable env : Env.

Lemma handle_update_subscriptions (u : update) (w : World) :
  let s := subscriptions w in
  let s' := subscriptions (state_after (handle_update env u) w) in
  s' = s \/ (exists k v, s' = obj_set k v s) \/ (exists k, s' = obj_delete k s).
Proof.
  unfold state_after.
  destruct u as [msg | msg link m2 | msg c | msg]; simpl.
  - now left.
  - unfold on_add. destruct (isAdmin env msg); run_M; [|now left].
    match goal with |- context [saveSubscriptions env ?s ?w0] =>
      destruct (saveSubscriptions_returns env s w0) as [w' [-> [Hs _]]] end.
    right; left. cbn [snd subscriptions]. rewrite Hs. now do 2 eexists.
  - unfold on_rem. destruct (isAdmin env msg); run_M; [|now left].
    destruct (lookup c (subscriptions w)); run_M; [|now left].
    match goal with |- context [saveSubscriptions env ?s ?w0] =>
      destruct (saveSubscriptions_returns env s w0) as [w' [-> [Hs _]]] end.
    right; right. cbn [snd subscriptions]. rewrite Hs. now eexists.
  - unfold on_list. destruct (isAdmin env msg); run_M; [|now left].
    destruct (Nat.eqb _ 0); [now left|].
    match goal with |- context [list_text ?l ?t ?w0] =>
      destruct (list_text_returns l t w0) as [t' ->] end.
    now left.
Qed.

Lemma interleave_distinct_keys (us : list update) :
  forall w, distinct_keys (subscriptions w) ->
            distinct_keys (subscriptions (state_after (interleave env us) w)).
Proof.
  induction us as [|u us IH]; intros w Hnd; [exact Hnd|].
  unfold state_after in *. simpl. run_M.
  pose proof (handle_update_subscriptions u w) as Hu.
  unfold state_after in Hu.
  destruct (handle_update_returns env u w) as [w' E]. rewrite E in *.
  cbn [snd] in Hu. apply IH.
  destruct Hu as [-> | [[k [v ->]] | [k ->]]];
    [exact Hnd | now apply distinct_keys_obj_set
     | now apply distinct_keys_obj_delete].
Qed.

Lemma report_failure_distinct_keys (a : attempt) (c : string) (w : World) :
  distinct_keys (subscriptions w) ->
  distinct_keys (subscriptions (state_after (report_failure env a c) w)).
Proof.
  intros Hnd. unfold state_after, report_failure. run_M.
  now apply interleave_distinct_keys.
Qed.

Lemma sendReportToChat_distinct_keys (a : attempt) (c h : string)
    (w : World) :
  distinct_keys (subscriptions w) ->
  distinct_keys (subscriptions (state_after (sendReportToChat env a c h) w)).
Proof.
  intros Hnd. unfold state_after. rewrite sendReportToChat_unfold.
  unfold sendReportToChat_cases.
  pose proof (interleave_distinct_keys (during_fetch a) w Hnd) as H1.
  destruct (rbind (fetched a) formatReportMessage) as [m|e]; cbn [snd];
    [|now apply report_failure_distinct_keys].
  set (w2 := state_after (interleave env (during_send a)) _).
  assert (H2 : distinct_keys (subscriptions w2))
    by (apply interleave_distinct_keys; exact H1).
  destruct (delivered a); cbn [snd];
    [|now apply report_failure_distinct_keys].
  destruct (lookup c (subscriptions w2)); cbn [snd];
    [|now apply report_failure_distinct_keys].
  unfold state_after.
  match goal with |- context [saveSubscriptions env ?s ?w0] =>
    destruct (saveSubscriptions_returns env s w0) as [w' [-> [Hs _]]] end.
  cbn [snd]. rewrite Hs. cbn [with_subscriptions subscriptions].
  now apply distinct_keys_obj_set.
Qed.

Lemma runSchedulerCycle_distinct_keys (plan : string -> attempt) (w : World) :
  distinct_keys (subscriptions w) ->
  distinct_keys (subscriptions (state_after (runSchedulerCycle env plan) w)).
Proof.
  intros Hnd. unfold state_after. rewrite runSchedulerCycle_unfold.
  assert (H0 : distinct_keys (subscriptions (logged LogCycleRunning w)))
    by exact Hnd.
  revert H0. generalize (logged LogCycleRunning w).
  induction (Object_entries (subscriptions w)) as [|[c info] rest IH];
    intros w0 H0; [exact H0|].
  destruct (string_dec (tiktokHandle info) "") as [E|E].
  - rewrite for_entries_skip by exact E. now apply IH.
  - rewrite for_entries_step by exact E. apply IH.
    apply interleave_distinct_keys.
    now apply sendReportToChat_distinct_keys.
Qed.

End Keys.

(** ** The runtime model on known values *)

Example Number_toString_examples :
  Number.toString (Number.of_Z 100) = "100" /\
  Number.toString (Number.of_Z (-1001234567890)) = "-1001234567890" /\
  Number.toString (Number.Finite false 25 (-1)) = "2.5" /\
  Number.toString (Number.Finite false 123456 (-3)) = "123.456" /\
  Number.toString (Number.Finite false 15 (-8)) = "1.5e-7" /\
  Number.toString (Number.Finite false 1 21) = "1e+21" /\
  Number.toString (Number.Finite true 5 (-7)) = "-5e-7" /\
  Number.toString (Number.Finite false 123 (-8)) = "0.00000123".
Proof. repeat split. Qed.

(** [toFixed] rounds the double, not its shortest decimal: [1.005] is below
    [1.005] and [8.345] is above [8.345]. *)
Example Number_toFixed_examples :
  Number.toFixed (Number.Zero false) 1 = "0.0" /\
  Number.toFixed (Number.Finite false 25 (-1)) 1 = "2.5" /\
  Number.toFixed (Number.Finite false 1234 0) 1 = "1234.0" /\
  Number.toFixed (Number.Finite false 35 (-2)) 1 = "0.3" /\
  Number.toFixed (Number.Finite false 25 (-2)) 1 = "0.3" /\
  Number.toFixed (Number.Finite false 1005 (-3)) 2 = "1.00" /\
  Number.toFixed (Number.Finite false 8345 (-3)) 2 = "8.35" /\
  Number.toFixed (Number.Finite true 999 (-2)) 1 = "-10.0" /\
  Number.toFixed (Number.Finite false 1 21) 1 = "1e+21".
Proof. repeat split; vm_compute; reflexivity. Qed.

Example ToString_examples :
  ToString (VArr [VNull; num 1; VArr [VStr "a"; VUndefined; VStr "b"];
                  VObj [("k", VNull)]; VBool true])
    = Ok ",1,a,,b,[object Object],true" /\
  ToString (VObj [("toString", num 1)]) = Throw TypeError /\
  ToString (VArr []) = Ok "".
Proof. repeat split. Qed.

Example JSON_stringify_example :
  JSON.stringify
    [("-100", {| tiktokHandle := "@b"; lastSentAt := None |});
     ("12", {| tiktokHandle := "a\b" ++ nl;
               lastSentAt := Some "2026-11-02T10:00:00.000Z" |});
     ("7", {| tiktokHandle := "@a"; lastSentAt := None |})]
  = "{" ++ nl ++
    "  " ++ dquote ++ "7" ++ dquote ++ ": {" ++ nl ++
    "    " ++ dquote ++ "tiktokHandle" ++ dquote ++ ": "
           ++ dquote ++ "@a" ++ dquote ++ "," ++ nl ++
    "    " ++ dquote ++ "lastSentAt" ++ dquote ++ ": null" ++ nl ++
    "  }," ++ nl ++
    "  " ++ dquote ++ "12" ++ dquote ++ ": {" ++ nl ++
    "    " ++ dquote ++ "tiktokHandle" ++ dquote ++ ": "
           ++ dquote ++ "a\\b\n" ++ dquote ++ "," ++ nl ++
    "    " ++ dquote ++ "lastSentAt" ++ dquote ++ ": "
           ++ dquote ++ "2026-11-02T10:00:00.000Z" ++ dquote ++ nl ++
    "  }," ++ nl ++
    "  " ++ dquote ++ "-100" ++ dquote ++ ": {" ++ nl ++
    "    " ++ dquote ++ "tiktokHandle" ++ dquote ++ ": "
           ++ dquote ++ "@b" ++ dquote ++ "," ++ nl ++
    "    " ++ dquote ++ "lastSentAt" ++ dquote ++ ": null" ++ nl ++
    "  }" ++ nl ++
    "}".
Proof. vm_compute. reflexivity. Qed.

(** Other layouts of the same object, escapes included, parse as well. *)
Example JSON_parse_example :
  JSON.parse ("{" ++ dquote ++ "7" ++ dquote ++ ":{" ++ dquote ++ "lastSentAt"
              ++ dquote ++ " : null ," ++ dquote ++ "tiktokHandle" ++ dquote
              ++ ":" ++ dquote ++ "@a\/é" ++ dquote ++ "}} " ++ nl)
  = Some [("7", {| tiktokHandle := "@a/é"; lastSentAt := None |})] /\
  JSON.parse "{}" = Some [] /\
  JSON.parse "" = None /\
  JSON.parse "{oops" = None.
Proof. repeat split; vm_compute; reflexivity. Qed.

(** ** Two more runs of the model *)

(** Were [&] replaced last, the [&] of an escape written before it would be
    escaped again. *)
Example ampersand_last_escapes_twice :
  replace_all "&" "&amp;" (replace_all "<" "&lt;" "<") = "&amp;lt;" /\
  replace_all "<" "&lt;" (replace_all "&" "&amp;" "<") = "&lt;".
Proof. split; reflexivity. Qed.

(** One cycle over one chat whose report is fetched and delivered: one
    message goes to the chat, with the handle and the followers in it, and
    the time of the delivery is recorded and written. *)
Example cycle_delivers_and_records :
  exists report,
    formatReportMessage small_report = Ok report /\
    includes "@a" report = true /\ includes "10" report = true /\
    let s := [("111", {| tiktokHandle := "@a";
                         lastSentAt := Some "2026-11-02T10:00:00.000Z" |})] in
    runSchedulerCycle open_env (fun _ => quiet (Ok small_report) true) one_chat
    = (Ok tt,
       {| subscriptions := s;
          disk := Some (JSON.stringify s);
          writes := 1;
          sent := [report_message "111" report];
          console := [LogCycleRunning; LogSending "111" "@a"] |}).
Proof.
  eexists. split; [vm_compute; reflexivity|].
  repeat split; vm_compute; reflexivity.
Qed.

(** * Further properties of the program *)

(** ** Loading and saving *)

(** X1: [loadSubscriptions] on the files the process meets.  Without a file
    it makes one attempt to write the empty object and gives the empty
    store, with a line on the console only when that write fails.  A file
    that cannot be read gives the empty store and a line on the console; an
    empty file gives the empty store and a file written by
    [saveSubscriptions] gives the store that was saved, both without a line
    on the console.  In none of these cases does it raise, and a file that
    exists is not written. *)
Theorem loadSubscriptions_soft (env : Env) (w : World) :
  (disk w = None ->
   exists w',
     loadSubscriptions env w = (Ok [], w') /\
     subscriptions w' = subscriptions w /\ sent w' = sent w /\
     writes w' = S (writes w) /\
     (fs_write env (writes w) = None ->
      disk w' = Some "{}" /\ console w' = console w) /\
     (forall d, fs_write env (writes w) = Some d ->
        disk w' = d /\ console w' = (console w ++ [LogLoadError])%list)) /\
  (forall data,
     disk w = Some data -> fs_read_fails env = true ->
     loadSubscriptions env w = (Ok [], logged LogLoadError w)) /\
  (disk w = Some "" -> fs_read_fails env = false ->
   loadSubscriptions env w = (Ok [], w)) /\
  (forall s,
     distinct_keys s ->
     disk w = Some (JSON.stringify s) -> fs_read_fails env = false ->
     loadSubscriptions env w = (Ok (Object_entries s), w)).
Proof.
  split; [|split; [|split]].
  - intros Hd.
    destruct (fs_write env (writes w)) as [d|] eqn:Hw;
      unfold loadSubscriptions, writeFileSync; run_M;
      repeat (progress (rewrite ?Hd, ?Hw; cbn [negb]));
      eexists; (split; [reflexivity|]);
      cbn [subscriptions sent disk writes console];
      (split; [reflexivity|]); (split; [reflexivity|]);
      (split; [reflexivity|]).
    + split; [discriminate|]. intros d' [= <-]. now split.
    + split; [now split | discriminate].
  - intros data Hd Hr. unfold loadSubscriptions, readFileSync. run_M.
    repeat (progress (rewrite ?Hd, ?Hr; cbn [negb])).
    unfold logged. now rewrite Hd.
  - intros Hd Hr. unfold loadSubscriptions, readFileSync. run_M.
    repeat (progress (rewrite ?Hd, ?Hr; cbn [negb])). reflexivity.
  - intros s Hnd Hd Hr. unfold loadSubscriptions, readFileSync. run_M.
    repeat (progress (rewrite ?Hd, ?Hr; cbn [negb])).
    rewrite stringify_not_empty.
    rewrite JSONFacts.parse_stringify.
    rewrite (fold_obj_set_distinct (Object_entries s) []);
      [reflexivity | now apply distinct_keys_Object_entries].
Qed.

Lemma loadSubscriptions_soft_witness :
  loadSubscriptions open_env (on_disk (Some ""))
  = (Ok [], on_disk (Some "")).
Proof.
  refine (proj1 (proj2 (proj2
            (loadSubscriptions_soft open_env (on_disk (Some "")))))
            eq_refl eq_refl).
Defined.

(** X2: what [saveSubscriptions] writes, [loadSubscriptions] reads back:
    a process started on the file has the records of the saved mapping,
    listed in the order of [Object.entries]. *)
Theorem save_then_load (env env' : Env) (s : subs) (w : World) :
  fs_write env (writes w) = None ->
  fs_read_fails env' = false ->
  distinct_keys s ->
  let w1 := state_after (saveSubscriptions env s) w in
  subscriptions (startup env' (disk w1)) = Object_entries s /\
  (forall k, lookup k (subscriptions (startup env' (disk w1))) = lookup k s) /\
  console (startup env' (disk w1)) = [].
Proof.
  intros Hw Hr Hnd w1. subst w1. unfold state_after, startup.
  rewrite saveSubscriptions_ok by exact Hw. cbn [snd disk].
  rewrite (loadSubscriptions_written env' s Hr Hnd). cbn [subscriptions].
  repeat split. intros k. now apply lookup_Object_entries.
Qed.

Lemma save_then_load_witness :
  subscriptions
    (startup open_env
       (disk (state_after (saveSubscriptions open_env (subscriptions two_chats))
                (on_disk None))))
  = subscriptions two_chats.
Proof.
  refine (eq_trans (proj1 (save_then_load open_env open_env
                             (subscriptions two_chats) (on_disk None)
                             eq_refl eq_refl _)) eq_refl).
  unfold distinct_keys. simpl. repeat constructor; simpl; intuition discriminate.
Defined.

(** X3: a write that fails does not stop a command: [/add] and [/rem] still
    change the mapping in memory and still send their confirmation; the
    failure only shows on the console, and the file is left as the failed
    write left it. *)
Theorem failed_write_is_contained (env : Env) (msg : tg_message) (w : World)
    (d : option string) :
  isAdmin env msg = true ->
  fs_write env (writes w) = Some d ->
  (forall link m2,
     let c := chatIdToUse msg m2 in
     on_add env msg link m2 w =
     (Ok tt,
      {| subscriptions :=
           obj_set c {| tiktokHandle := link; lastSentAt := None |}
             (subscriptions w);
         disk := d; writes := S (writes w);
         sent := (sent w ++
                  [reply msg ("✅ Added report for chat <b>"
                              ++ escape_text c ++ "</b> on profile:" ++ nl
                              ++ escape_text link)])%list;
         console := (console w ++ [LogSaveError])%list |})) /\
  (forall c r,
     lookup c (subscriptions w) = Some r ->
     on_rem env msg c w =
     (Ok tt,
      {| subscriptions := obj_delete c (subscriptions w);
         disk := d; writes := S (writes w);
         sent := (sent w ++ [reply msg (removed_text (escape_text c))])%list;
         console := (console w ++ [LogSaveError])%list |})).
Proof.
  intros Hadmin Hw. split.
  - intros link m2 c. unfold on_add, saveSubscriptions, writeFileSync.
    rewrite Hadmin. run_M. now rewrite Hw.
  - intros c r Hr. unfold on_rem, saveSubscriptions, writeFileSync.
    rewrite Hadmin. run_M. rewrite Hr. run_M. now rewrite Hw.
Qed.

Lemma failed_write_is_contained_witness :
  subscriptions
    (state_after (on_add failing_disk_env someone "@b" (Some "222")) one_chat)
  = [("111", {| tiktokHandle := "@a"; lastSentAt := None |});
     ("222", {| tiktokHandle := "@b"; lastSentAt := None |})] /\
  console
    (state_after (on_add failing_disk_env someone "@b" (Some "222")) one_chat)
  = [LogSaveError].
Proof.
  destruct (failed_write_is_contained failing_disk_env someone one_chat
              (Some "") eq_refl eq_refl) as [Hadd _].
  unfold state_after. rewrite Hadd. split; reflexivity.
Defined.

(** ** Deliveries that fail *)

(** X4: [lastSentAt] is recorded only for a report that was fetched,
    formatted and delivered.  When the response cannot be formatted or the
    report is not delivered, [sendReportToChat] returns normally, logs the
    error and sends the fallback notice; with no command arriving meanwhile
    it changes neither the mapping nor the file and writes nothing. *)
Theorem failed_delivery_records_nothing (env : Env) (a : attempt)
    (c h : string) (w : World) :
  (exists e, rbind (fetched a) formatReportMessage = Throw e) \/
  delivered a = false ->
  undisturbed a ->
  let w' := state_after (sendReportToChat env a c h) w in
  sendReportToChat env a c h w = (Ok tt, w') /\
  subscriptions w' = subscriptions w /\
  disk w' = disk w /\ writes w' = writes w /\
  console w' = (console w ++ [LogReportError c])%list /\
  (sent w' = (sent w ++ [fallback_notice c])%list \/
   exists message,
     rbind (fetched a) formatReportMessage = Ok message /\
     sent w' = (sent w ++ [report_message c message; fallback_notice c])%list).
Proof.
  intros Hfail [Hf [Hs [Hb _]]] w'. subst w'.
  split; [apply sendReportToChat_returns|].
  unfold state_after. rewrite sendReportToChat_unfold.
  unfold sendReportToChat_cases, report_failure, state_after.
  rewrite Hf, Hs, Hb.
  destruct (rbind (fetched a) formatReportMessage) as [message|e] eqn:E.
  - destruct Hfail as [[e He] | Hd]; [discriminate|].
    rewrite Hd. cbn. repeat split. right. exists message.
    split; [reflexivity|]. now rewrite <- app_assoc.
  - cbn. repeat split. now left.
Qed.

Lemma failed_delivery_records_nothing_witness :
  subscriptions
    (state_after (sendReportToChat open_env (calm (Ok VNull) true true)
                    "111" "@a") one_chat)
  = subscriptions one_chat /\
  subscriptions
    (state_after (sendReportToChat open_env (calm (Ok small_report) false true)
                    "111" "@a") one_chat)
  = subscriptions one_chat.
Proof.
  split.
  - apply (failed_delivery_records_nothing open_env
             (calm (Ok VNull) true true) "111" "@a" one_chat).
    + left. exists TypeError. reflexivity.
    + repeat split.
  - apply (failed_delivery_records_nothing open_env
             (calm (Ok small_report) false true) "111" "@a" one_chat).
    + right. reflexivity.
    + repeat split.
Defined.

(** ** How the commands compose *)

Lemma obj_delete_obj_set {A} (k : string) (v : A) (o : list (string * A)) :
  obj_delete k (obj_set k v o) = obj_delete k o.
Proof.
  unfold obj_delete. induction o as [|[k' v'] o IH]; simpl.
  - now rewrite String.eqb_refl.
  - destruct (String.eqb k' k) eqn:E; simpl.
    + now rewrite String.eqb_refl.
    + now rewrite E, IH.
Qed.

Lemma obj_delete_absent {A} (k : string) (o : list (string * A)) :
  lookup k o = None -> obj_delete k o = o.
Proof.
  unfold obj_delete. induction o as [|[k' v'] o IH]; simpl; [reflexivity|].
  destruct (String.eqb k' k); [discriminate|].
  intros H. simpl. now rewrite IH.
Qed.

(** X5: [/add] followed by [/rem] of the same chat leaves the mapping
    without that chat and with every other record in place; for a chat that
    was not registered, the mapping is exactly what it was, and so is a file
    that held its serialization. *)
Theorem add_then_rem (env : Env) (msg msg' : tg_message) (link : string)
    (m2 : option string) (w : World) :
  isAdmin env msg = true -> isAdmin env msg' = true ->
  fs_write env (writes w) = None -> fs_write env (S (writes w)) = None ->
  let c := chatIdToUse msg m2 in
  let w2 := state_after (on_rem env msg' c)
              (state_after (on_add env msg link m2) w) in
  subscriptions w2 = obj_delete c (subscriptions w) /\
  persisted w2 /\
  (lookup c (subscriptions w) = None ->
   subscriptions w2 = subscriptions w /\ (persisted w -> disk w2 = disk w)).
Proof.
  intros Ha Ha' Hw1 Hw2 c w2. subst w2. unfold state_after.
  rewrite on_add_ok by assumption. cbn [snd]. fold c.
  rewrite (on_rem_ok env msg' c {| tiktokHandle := link; lastSentAt := None |});
    [| assumption | exact Hw2 | apply lookup_obj_set_eq].
  cbn [snd subscriptions disk]. rewrite obj_delete_obj_set.
  split; [reflexivity|]. split; [reflexivity|].
  intros Hnone. rewrite (obj_delete_absent c _ Hnone).
  split; [reflexivity|]. intros Hp. now rewrite Hp.
Qed.

Lemma add_then_rem_witness :
  subscriptions
    (state_after (on_rem open_env someone "222")
       (state_after (on_add open_env someone "@b" (Some "222")) one_chat))
  = subscriptions one_chat.
Proof.
  apply (add_then_rem open_env someone someone "@b" (Some "222") one_chat);
    reflexivity.
Defined.

Lemma handle_update_other (env : Env) (u : update) (w : World) (k : string) :
  target u <> Some k ->
  lookup k (subscriptions (state_after (handle_update env u) w))
  = lookup k (subscriptions w).
Proof.
  intros Hk. unfold state_after.
  destruct u as [msg | msg link m2 | msg c | msg]; simpl in *.
  - reflexivity.
  - unfold on_add. destruct (isAdmin env msg); run_M; [|reflexivity].
    match goal with |- context [saveSubscriptions env ?s ?w0] =>
      destruct (saveSubscriptions_returns env s w0) as [w' [-> [Hs _]]] end.
    cbn [snd subscriptions]. rewrite Hs. cbn [subscriptions].
    apply lookup_obj_set_ne. congruence.
  - unfold on_rem. destruct (isAdmin env msg); run_M; [|reflexivity].
    destruct (lookup c (subscriptions w)); run_M; [|reflexivity].
    match goal with |- context [saveSubscriptions env ?s ?w0] =>
      destruct (saveSubscriptions_returns env s w0) as [w' [-> [Hs _]]] end.
    cbn [snd subscriptions]. rewrite Hs. cbn [subscriptions].
    apply lookup_obj_delete_ne. congruence.
  - unfold on_list. destruct (isAdmin env msg); run_M; [|reflexivity].
    destruct (Nat.eqb _ 0); [reflexivity|].
    match goal with |- context [list_text ?l ?t ?w0] =>
      destruct (list_text_returns l t w0) as [t' ->] end.
    reflexivity.
Qed.

(** X6: commands change only the chat they name: after any sequence of
    commands, whoever sent them and whether or not the writes succeeded, the
    record of a chat that none of them names is what it was. *)
Theorem commands_touch_only_their_chat (env : Env) (us : list update)
    (k : string) :
  Forall (fun u => target u <> Some k) us ->
  forall w,
    lookup k (subscriptions (state_after (interleave env us) w))
    = lookup k (subscriptions w).
Proof.
  induction 1 as [|u us Hu _ IH]; intros w; [reflexivity|].
  unfold state_after in *. simpl. run_M.
  pose proof (handle_update_other env u w k Hu) as Hstep.
  unfold state_after in Hstep.
  destruct (handle_update_returns env u w) as [w' E]. rewrite E in *.
  cbn [snd] in Hstep. now rewrite IH.
Qed.

Lemma commands_touch_only_their_chat_witness :
  lookup "111"
    (subscriptions
       (state_after
          (interleave open_env
             [CmdAdd someone "@b" (Some "222"); CmdList someone;
              CmdRem someone "333"; CmdAdd someone "@c" None])
          one_chat))
  = Some {| tiktokHandle := "@a"; lastSentAt := None |}.
Proof.
  apply (commands_touch_only_their_chat open_env
           [CmdAdd someone "@b" (Some "222"); CmdList someone;
            CmdRem someone "333"; CmdAdd someone "@c" None] "111").
  repeat constructor; vm_compute; discriminate.
Defined.

(** ** What a delivery cycle does to the store and shows on the console *)

Lemma handles_obj_set_lastSentAt (c t : string) (r : subscription) (o : subs) :
  lookup c o = Some r ->
  handles (obj_set c (with_lastSentAt r t) o) = handles o.
Proof.
  unfold handles. induction o as [|[k v] o IH]; simpl; [discriminate|].
  destruct (String.eqb k c) eqn:E; simpl.
  - apply String.eqb_eq in E. subst k. now intros [= ->].
  - intros H. now rewrite IH.
Qed.

Lemma sendReportToChat_handles (env : Env) (a : attempt) (c h : string)
    (w : World) :
  undisturbed a ->
  handles (subscriptions (state_after (sendReportToChat env a c h) w))
  = handles (subscriptions w).
Proof.
  intros [Hf [Hs [Hb _]]]. unfold state_after.
  rewrite sendReportToChat_unfold.
  unfold sendReportToChat_cases, report_failure, state_after.
  rewrite Hf, Hs, Hb.
  destruct (rbind (fetched a) formatReportMessage) as [m|e]; [|reflexivity].
  destruct (delivered a); [|reflexivity].
  cbn [interleave ret snd replied subscriptions].
  destruct (lookup c (subscriptions w)) as [r|] eqn:E; [|reflexivity].
  match goal with |- context [saveSubscriptions env ?s ?w0] =>
    destruct (saveSubscriptions_returns env s w0) as [w' [-> [Hsub _]]] end.
  cbn [snd]. rewrite Hsub. cbn [with_subscriptions subscriptions].
  now apply handles_obj_set_lastSentAt.
Qed.

Lemma for_entries_handles (env : Env) (plan : string -> attempt)
    (l : list (string * subscription)) :
  (forall c, undisturbed (plan c)) ->
  forall w,
    handles (subscriptions (state_after (for_entries env plan l) w))
    = handles (subscriptions w).
Proof.
  intros Hcalm. unfold state_after.
  induction l as [|[c info] rest IH]; intros w; [reflexivity|].
  destruct (string_dec (tiktokHandle info) "") as [E|E].
  - rewrite for_entries_skip by exact E. apply IH.
  - rewrite for_entries_step by exact E. rewrite IH.
    destruct (Hcalm c) as [_ [_ [_ Hd]]]. rewrite Hd.
    unfold state_after at 1. cbn [interleave ret snd].
    rewrite sendReportToChat_handles by apply Hcalm. reflexivity.
Qed.

(** X7: a delivery cycle during which no command arrives neither adds nor
    removes a chat and changes no handle, whatever the requests and the
    writes do: all it can change in the mapping is [lastSentAt]. *)
Theorem cycle_keeps_chats_and_handles (env : Env) (plan : string -> attempt)
    (w : World) :
  (forall c, undisturbed (plan c)) ->
  handles (subscriptions (state_after (runSchedulerCycle env plan) w))
  = handles (subscriptions w).
Proof.
  intros Hcalm. unfold state_after. rewrite runSchedulerCycle_unfold.
  pose proof (for_entries_handles env plan
                (Object_entries (subscriptions w)) Hcalm
                (logged LogCycleRunning w)) as H.
  unfold state_after in H. rewrite H. reflexivity.
Qed.

Lemma cycle_keeps_chats_and_handles_witness :
  handles
    (subscriptions
       (state_after (runSchedulerCycle open_env first_fetch_fails) two_chats))
  = [("111", "@a"); ("222", "@b")].
Proof.
  refine (eq_trans (cycle_keeps_chats_and_handles open_env first_fetch_fails
                      two_chats _) eq_refl).
  intros c. unfold first_fetch_fails.
  destruct (String.eqb c "111"); repeat split.
Defined.

Lemma sendings_app (l l' : list log_entry) :
  sendings (l ++ l') = (sendings l ++ sendings l')%list.
Proof.
  induction l as [|e l IH]; [reflexivity|].
  destruct e; simpl; now rewrite IH.
Qed.

Lemma saveSubscriptions_sendings (env : Env) (s : subs) (w : World) :
  sendings (console (state_after (saveSubscriptions env s) w))
  = sendings (console w).
Proof.
  unfold state_after, saveSubscriptions, writeFileSync. run_M.
  destruct (fs_write env (writes w)); cbn [snd console]; [|reflexivity].
  rewrite sendings_app. simpl. now rewrite app_nil_r.
Qed.

Lemma handle_update_sendings (env : Env) (u : update) (w : World) :
  sendings (console (state_after (handle_update env u) w))
  = sendings (console w).
Proof.
  unfold state_after.
  destruct u as [msg | msg link m2 | msg c | msg]; simpl.
  - reflexivity.
  - unfold on_add. destruct (isAdmin env msg); run_M; [|reflexivity].
    match goal with |- context [saveSubscriptions env ?s ?w0] =>
      pose proof (saveSubscriptions_sendings env s w0) as Hc;
      unfold state_after in Hc;
      destruct (saveSubscriptions_returns env s w0) as [w' [E _]] end.
    rewrite E in *. exact Hc.
  - unfold on_rem. destruct (isAdmin env msg); run_M; [|reflexivity].
    destruct (lookup c (subscriptions w)); run_M; [|reflexivity].
    match goal with |- context [saveSubscriptions env ?s ?w0] =>
      pose proof (saveSubscriptions_sendings env s w0) as Hc;
      unfold state_after in Hc;
      destruct (saveSubscriptions_returns env s w0) as [w' [E _]] end.
    rewrite E in *. exact Hc.
  - unfold on_list. destruct (isAdmin env msg); run_M; [|reflexivity].
    destruct (Nat.eqb _ 0); [reflexivity|].
    match goal with |- context [list_text ?l ?t ?w0] =>
      destruct (list_text_returns l t w0) as [t' ->] end.
    reflexivity.
Qed.

Lemma interleave_sendings (env : Env) (us : list update) :
  forall w, sendings (console (state_after (interleave env us) w))
            = sendings (console w).
Proof.
  induction us as [|u us IH]; intros w; [reflexivity|].
  unfold state_after in *. simpl. run_M.
  pose proof (handle_update_sendings env u w) as Hu.
  unfold state_after in Hu.
  destruct (handle_update_returns env u w) as [w' E]. rewrite E in *.
  cbn [snd] in Hu. now rewrite IH.
Qed.

Lemma report_failure_sendings (env : Env) (a : attempt) (c : string)
    (w : World) :
  sendings (console (state_after (report_failure env a c) w))
  = sendings (console w).
Proof.
  unfold state_after, report_failure. run_M.
  pose proof (interleave_sendings env (during_fallback a)) as Hi.
  unfold state_after in Hi. rewrite Hi. cbn [console].
  rewrite sendings_app. simpl. now rewrite app_nil_r.
Qed.

Lemma sendReportToChat_sendings (env : Env) (a : attempt) (c h : string)
    (w : World) :
  sendings (console (state_after (sendReportToChat env a c h) w))
  = sendings (console w).
Proof.
  unfold state_after. rewrite sendReportToChat_unfold.
  unfold sendReportToChat_cases.
  pose proof (interleave_sendings env (during_fetch a) w) as H1.
  destruct (rbind (fetched a) formatReportMessage) as [m|e]; cbn [snd];
    [|now rewrite report_failure_sendings].
  set (w2 := state_after (interleave env (during_send a)) _).
  assert (H2 : sendings (console w2) = sendings (console w)).
  { unfold w2. now rewrite interleave_sendings. }
  destruct (delivered a); cbn [snd];
    [|now rewrite report_failure_sendings].
  destruct (lookup c (subscriptions w2)); cbn [snd];
    [|now rewrite report_failure_sendings].
  now rewrite saveSubscriptions_sendings.
Qed.

Lemma for_entries_sendings (env : Env) (plan : string -> attempt)
    (l : list (string * subscription)) :
  forall w,
    sendings (console (state_after (for_entries env plan l) w))
    = (sendings (console w) ++ handles (with_handle l))%list.
Proof.
  unfold state_after.
  induction l as [|[c info] rest IH]; intros w.
  - simpl. now rewrite app_nil_r.
  - unfold with_handle. cbn [filter snd].
    destruct (string_dec (tiktokHandle info) "") as [E|E].
    + rewrite for_entries_skip by exact E. rewrite E. cbn [negb String.eqb].
      apply IH.
    + rewrite for_entries_step by exact E.
      apply String.eqb_neq in E. rewrite E. cbn [negb].
      rewrite IH.
      rewrite interleave_sendings, sendReportToChat_sendings.
      cbn [logged console]. rewrite sendings_app. cbn [handles map fst snd].
      now rewrite <- app_assoc.
Qed.

(** ** More on the formatter *)

(** X9: a response without a body raises, and a body that is not an object
    (a text, a number, a list) or that is the empty object gives the report
    of defaults: the placeholder name, no handle, zeros. *)
Theorem format_without_fields (data : value) :
  (is_nullish data = true -> formatReportMessage data = Throw TypeError) /\
  (is_nullish data = false -> (forall o, data <> VObj o) ->
   formatReportMessage data = Ok default_report) /\
  formatReportMessage (VObj []) = Ok default_report.
Proof.
  split; [|split].
  - destruct data; try discriminate; reflexivity.
  - intros Hn Ho. destruct data as [ | | b | x | s | l | o];
      [discriminate | discriminate | | | | | now destruct (Ho o)];
      vm_compute; reflexivity.
  - vm_compute. reflexivity.
Qed.

Lemma format_without_fields_witness :
  formatReportMessage (VStr "<html>502 Bad Gateway</html>") = Ok default_report
  /\ formatReportMessage VUndefined = Throw TypeError.
Proof.
  split.
  - refine (proj1 (proj2 (format_without_fields
                            (VStr "<html>502 Bad Gateway</html>")))
                   eq_refl _).
    discriminate.
  - exact (proj1 (format_without_fields VUndefined) eq_refl).
Defined.

Lemma count_char_app (c : ascii) (s t : string) :
  count_char c (s ++ t) = count_char c s + count_char c t.
Proof.
  induction s as [|a s IH]; simpl; [reflexivity|]. rewrite IH. lia.
Qed.

Lemma count_char_absent (c : ascii) (s : string) :
  occurs c s = false -> count_char c s = 0.
Proof.
  induction s as [|a s IH]; simpl; [reflexivity|].
  destruct (Ascii.eqb a c); simpl; [discriminate | exact IH].
Qed.

Lemma escapeHtml_no_tag (v : value) (s : string) :
  escapeHtml v = Ok s -> count_char "<" s = 0 /\ count_char ">" s = 0.
Proof.
  intros H. apply escapeHtml_inv in H as [[_ ->] | [t [_ ->]]].
  - now split.
  - split; apply count_char_absent; apply escape_text_no_angle.
Qed.

Ltac open_binds H :=
  repeat match type of H with
         | rbind ?c _ = Ok _ =>
             let E := fresh "E" in
             destruct c eqn:E; cbn [rbind] in H; [|discriminate H]
         end.

Ltac no_tags :=
  repeat match goal with
         | E : escapeHtml _ = Ok ?s |- _ =>
             let H1 := fresh "H" in let H2 := fresh "H" in
             destruct (escapeHtml_no_tag _ _ E) as [H1 H2]; clear E
         end.

Ltac count_tags :=
  unfold nl;
  repeat (progress (simpl; rewrite ?count_char_app));
  repeat match goal with Hc : count_char _ _ = 0 |- _ =>
           rewrite ?Hc; clear Hc end.

Lemma report_head_tags (data : value) (head : string) :
  report_head data = Ok head ->
  count_char "<" head = 16 /\ count_char ">" head = 16.
Proof.
  intros H. unfold report_head in H. open_binds H.
  injection H as <-. no_tags.
  split; count_tags; reflexivity.
Qed.

Lemma top_post_callback_tags (p : value) (idx : nat) (msg m : string) :
  idx < 3 ->
  top_post_callback p idx msg = Ok m ->
  count_char "<" m = count_char "<" msg /\
  count_char ">" m = count_char ">" msg.
Proof.
  intros Hidx H. unfold top_post_callback in H. open_binds H.
  injection H as <-.
  assert (Hn : count_char "<" a3 = 0 /\ count_char ">" a3 = 0).
  { destruct idx as [|[|[|idx]]]; [| | |lia];
      vm_compute in E3; injection E3 as <-; now split. }
  destruct Hn as [Hn1 Hn2]. no_tags.
  destruct (truthy a1); split; count_tags; lia.
Qed.

Lemma forEach_tags (l : list value) :
  forall (idx : nat) (msg m : string),
    idx + List.length l <= 3 ->
    forEach top_post_callback idx l msg = Ok m ->
    count_char "<" m = count_char "<" msg /\
    count_char ">" m = count_char ">" msg.
Proof.
  induction l as [|p l IH]; intros idx msg m Hlen H; simpl in *.
  - injection H as <-. now split.
  - destruct (top_post_callback p idx msg) as [msg'|e] eqn:E;
      cbn [rbind] in H; [|discriminate].
    apply top_post_callback_tags in E as [E1 E2]; [|lia].
    apply IH in H as [H1 H2]; [|lia]. split; congruence.
Qed.

(** X10: whatever the analytics hold, the tags of a report are those of the
    template: it has sixteen [<] and sixteen [>], eighteen of each when the
    top videos are listed.  No field of the response can add a tag or
    break one. *)
Theorem report_tags_are_the_template (data : value) (m : string) :
  formatReportMessage data = Ok m ->
  count_char "<" m = 16 + (if has_top_posts data then 2 else 0) /\
  count_char ">" m = 16 + (if has_top_posts data then 2 else 0).
Proof.
  intros H. unfold formatReportMessage in H. unfold has_top_posts.
  destruct (report_head data) as [head|] eqn:Hhead; cbn [rbind] in H;
    [|discriminate].
  apply report_head_tags in Hhead as [H1 H2].
  destruct (get_prop data "top_posts") as [tp|] eqn:Htp; cbn [rbind] in H;
    [|discriminate].
  destruct tp as [ | | b | x | s | [|p ps] | o];
    try (injection H as <-; split; lia).
  apply forEach_tags in H as [E1 E2].
  - rewrite E1, E2. repeat rewrite count_char_app. rewrite H1, H2.
    split; reflexivity.
  - pose proof (firstn_le_length 3 (p :: ps)) as Hle.
    pose proof (length_firstn 3 (p :: ps)) as Hl. lia.
Qed.

Lemma report_tags_are_the_template_witness :
  exists m,
    formatReportMessage
      (VObj [("profile_name", VStr "<script>alert(1)</script>");
             ("top_posts",
              VArr [VObj [("permalink", VStr "https://t/<b>")]])]) = Ok m /\
    count_char "<" m = 18 /\ count_char ">" m = 18.
Proof.
  eexists. split; [vm_compute; reflexivity|].
  refine (report_tags_are_the_template
            (VObj [("profile_name", VStr "<script>alert(1)</script>");
                   ("top_posts",
                    VArr [VObj [("permalink", VStr "https://t/<b>")]])])
            _ _).
  vm_compute. reflexivity.
Defined.

(** ** More on escapeHtml *)

Lemma unescape_escape_once (s : string) : unescape (escape_once s) = s.
Proof.
  induction s as [|a s IH]; [reflexivity|].
  cbn [escape_once]. unfold escape_char.
  destruct (Ascii.eqb a "&") eqn:E1.
  { apply Ascii.eqb_eq in E1. subst a. simpl. now rewrite IH. }
  destruct (Ascii.eqb a "<") eqn:E2.
  { apply Ascii.eqb_eq in E2. subst a. simpl. now rewrite IH. }
  destruct (Ascii.eqb a ">") eqn:E3.
  { apply Ascii.eqb_eq in E3. subst a. simpl. now rewrite IH. }
  simpl. now rewrite E1, IH.
Qed.

(** X11: [escapeHtml] loses nothing: two strings with the same escape are
    the same string (reading the three entities back gives the string). *)
Theorem escapeHtml_injective (s t : string) :
  escapeHtml (VStr s) = escapeHtml (VStr t) -> s = t.
Proof.
  rewrite !escapeHtml_VStr, !escape_text_once. intros [= H].
  rewrite <- (unescape_escape_once s), <- (unescape_escape_once t).
  now rewrite H.
Qed.

Lemma escapeHtml_injective_witness : "a&b" = "a&b".
Proof.
  apply (escapeHtml_injective "a&b" "a&b"). reflexivity.
Defined.

(** X12: a text without [&], [<] and [>] is returned as it is. *)
Theorem escapeHtml_plain_text (s : string) :
  occurs "&" s = false -> occurs "<" s = false -> occurs ">" s = false ->
  escapeHtml (VStr s) = Ok s.
Proof.
  intros Ha Hl Hg. rewrite escapeHtml_VStr. unfold escape_text.
  now rewrite (replace_all_absent "&" _ s Ha), (replace_all_absent "<" _ s Hl),
    (replace_all_absent ">" _ s Hg).
Qed.

Lemma escapeHtml_plain_text_witness :
  escapeHtml (VStr "https://www.tiktok.com/@user_1?lang=en")
  = Ok "https://www.tiktok.com/@user_1?lang=en".
Proof.
  apply (escapeHtml_plain_text "https://www.tiktok.com/@user_1?lang=en");
    reflexivity.
Defined.

(** ** The reply of /list *)

Lemma list_text_blocks (entries : list (string * subscription)) :
  forall (text : string) (w : World),
    list_text entries text w = (Ok (text ++ list_blocks entries), w).
Proof.
  induction entries as [|[c info] rest IH]; intros text w.
  - simpl. unfold ret. now rewrite append_nil_r.
  - cbn [list_text]. run_M. cbn [list_blocks].
    assert (Hlast :
      (if truthy (nullable (lastSentAt info))
       then lift (escapeHtml (nullable (lastSentAt info)))
       else ret "never") w
      = (Ok match lastSentAt info with
            | None => "never"
            | Some t => if String.eqb t "" then "never" else escape_text t
            end, w)).
    { destruct (lastSentAt info) as [t|]; [|reflexivity]. simpl.
      now destruct (String.eqb t ""). }
    unfold lift, ret in Hlast. rewrite !escapeHtml_VStr, Hlast, IH.
    unfold list_block. cbn [fst snd]. f_equal. f_equal.
    now repeat rewrite append_assoc.
Qed.

(** X13: [/list] from an administrator sends one message, to the chat the
    command came from, and changes nothing else: "No chat configured" for
    the empty store, otherwise the title and one block per chat in the order
    of [Object.entries], with the chat id, the handle and the last date all
    escaped, and "never" for a chat without a date. *)
Theorem list_reply_lists_every_chat (env : Env) (msg : tg_message)
    (w : World) :
  isAdmin env msg = true ->
  on_list env msg w =
  (Ok tt, replied (reply msg (list_reply (subscriptions w))) w).
Proof.
  intros Hadmin. unfold on_list, list_reply. rewrite Hadmin. run_M.
  destruct (Object_entries (subscriptions w)) as [|kv l] eqn:E;
    [reflexivity|].
  cbn [List.length Nat.eqb]. rewrite list_text_blocks.
  reflexivity.
Qed.

Lemma list_reply_lists_every_chat_witness :
  sent (state_after (on_list open_env someone) already_sent) =
  [reply someone
     ("📋 <b>Configured chats</b>" ++ nl ++ nl ++
      "• Chat ID: <b>111</b>" ++ nl ++
      "  TikTok: @a" ++ nl ++
      "  Last sent: 2026-11-01T10:00:00.000Z" ++ nl ++ nl)].
Proof.
  unfold state_after.
  rewrite (list_reply_lists_every_chat open_env someone already_sent eq_refl).
  reflexivity.
Defined.

(** ** The patterns of the commands *)

Module PatternFacts.
Import Pattern.

Lemma after_literal_app (p s r : string) :
  after_literal p s = Some r -> s = p ++ r.
Proof.
  revert s. induction p as [|a p IH]; intros s H; simpl in *.
  - now injection H as ->.
  - destruct s as [|b s]; [discriminate|].
    destruct (Ascii.eqb a b) eqn:E; [|discriminate].
    apply Ascii.eqb_eq in E. subst b. f_equal. now apply IH.
Qed.

(** X14: a text reaches at most one of the four handlers. *)
Theorem dispatch_at_most_one (msg : tg_message) (text : string) :
  List.length (dispatch msg text) <= 1.
Proof.
  unfold dispatch, match_start, match_list, match_add, match_rem.
  destruct (after_literal "/start" text) as [r|] eqn:E1.
  { apply after_literal_app in E1. subst text. simpl. lia. }
  destruct (after_literal "/add" text) as [r|] eqn:E2.
  { apply after_literal_app in E2. subst text.
    change (after_literal "/rem" ("/add" ++ r)) with (@None string).
    change (after_literal "/list" ("/add" ++ r)) with (@None string).
    cbn [bind_option app List.length].
    destruct (spaces1 (skip_suffix r)) as [r2|]; cbn [bind_option];
      [|simpl; lia].
    destruct (take_nonspace r2) as [[|a m1] r3]; simpl; lia. }
  destruct (after_literal "/rem" text) as [r|] eqn:E3.
  { apply after_literal_app in E3. subst text.
    change (after_literal "/list" ("/rem" ++ r)) with (@None string).
    cbn [bind_option app List.length].
    destruct (spaces1 (skip_suffix r)) as [r2|]; cbn [bind_option];
      [|simpl; lia].
    destruct (chat_id_group r2) as [[c r3]|]; simpl; lia. }
  cbn [bind_option app]. destruct (after_literal "/list" text); simpl; lia.
Qed.

Lemma take_while_split (f : ascii -> bool) (s : string) :
  forall t r, take_while f s = (t, r) -> s = t ++ r.
Proof.
  induction s as [|a s IH]; intros t r H; simpl in H.
  - now injection H as <- <-.
  - destruct (f a); [|now injection H as <- <-].
    destruct (take_while f s) as [t' r'].
    injection H as <- <-. simpl. f_equal. now apply IH.
Qed.

Lemma take_while_prefix (f : ascii -> bool) (s : string) :
  forall t r, take_while f s = (t, r) -> take_while f t = (t, "").
Proof.
  induction s as [|a s IH]; intros t r H; simpl in H.
  - now injection H as <- <-.
  - destruct (f a) eqn:E; [|now injection H as <- <-].
    destruct (take_while f s) as [t' r'] eqn:E'.
    injection H as <- <-. simpl. rewrite E.
    now rewrite (IH t' r' eq_refl).
Qed.

Lemma digits1_all_digits (s d r : string) :
  digits1 s = Some (d, r) -> all_digits d = true /\ s = d ++ r.
Proof.
  unfold digits1. destruct (take_while is_digit s) as [t r'] eqn:E.
  destruct t as [|a t]; [discriminate|]. intros [= <- <-].
  split; [|now apply take_while_split in E].
  unfold all_digits. now rewrite (take_while_prefix _ _ _ _ E).
Qed.

Lemma digit_is_not_minus (a : ascii) :
  is_digit a = true -> Ascii.eqb a "-" = false.
Proof.
  intros H. destruct (Ascii.eqb a "-") eqn:E; [|reflexivity].
  apply Ascii.eqb_eq in E. subst a. discriminate.
Qed.

Lemma chat_id_group_numeric (s c r : string) :
  chat_id_group s = Some (c, r) -> numeric c = true /\ s = c ++ r.
Proof.
  unfold chat_id_group. destruct s as [|a s]; [discriminate|].
  destruct (Ascii.eqb a "-") eqn:E.
  - destruct (digits1 s) as [[d r']|] eqn:Ed; [|discriminate].
    intros [= <- <-]. apply digits1_all_digits in Ed as [Hd ->].
    unfold numeric. now rewrite E.
  - intros H. apply digits1_all_digits in H as [Hd Hs]. split; [|exact Hs].
    destruct c as [|b c]; [discriminate|].
    simpl in Hs. injection Hs as <- _.
    unfold numeric. now rewrite E.
Qed.

Lemma take_nonspace_split (s : string) :
  forall t r, take_nonspace s = (t, r) -> s = t ++ r.
Proof.
  induction s as [|a s IH]; intros t r H.
  - simpl in H. now injection H as <- <-.
  - cbn [take_nonspace] in H.
    destruct (space_rest (String a s)); [now injection H as <- <-|].
    destruct (take_nonspace s) as [t' r'].
    injection H as <- <-. simpl. f_equal. now apply IH.
Qed.

(** X15: what the patterns capture is well formed: the link of [/add] is
    not empty, and a captured chat id, of [/add] or of [/rem], is a run of
    digits after an optional minus sign.  So the handle of a record that a
    matched [/add] creates is not empty, and the scheduler does not skip
    it. *)
Theorem dispatch_captures (msg : tg_message) (text : string) (u : update) :
  In u (dispatch msg text) ->
  match u with
  | CmdAdd _ match1 match2 =>
      match1 <> "" /\ (forall c, match2 = Some c -> numeric c = true)
  | CmdRem _ match1 => numeric match1 = true
  | CmdStart _ | CmdList _ => True
  end.
Proof.
  unfold dispatch. intros H.
  repeat (apply in_app_or in H as [H|H]).
  - destruct (match_start text); [|contradiction].
    now destruct H as [<-|[]].
  - destruct (match_add text) as [[m1 m2]|] eqn:E; [|contradiction].
    destruct H as [<-|[]].
    unfold match_add in E.
    destruct (after_literal "/add" text) as [r0|]; [|discriminate].
    cbn [bind_option] in E.
    destruct (spaces1 (skip_suffix r0)) as [r2|]; [|discriminate].
    cbn [bind_option] in E.
    destruct (take_nonspace r2) as [[|a t] r3]; [discriminate|].
    injection E as <- <-.
    split; [discriminate|].
    intros c Hc.
    destruct (spaces1 r3) as [r4|]; [|discriminate]. cbn [bind_option] in Hc.
    destruct (chat_id_group r4) as [[c' r5]|] eqn:Eg; [|discriminate].
    injection Hc as <-. now apply chat_id_group_numeric in Eg.
  - destruct (match_rem text) as [c|] eqn:E; [|contradiction].
    destruct H as [<-|[]].
    unfold match_rem in E.
    destruct (after_literal "/rem" text) as [r0|]; [|discriminate].
    cbn [bind_option] in E.
    destruct (spaces1 (skip_suffix r0)) as [r2|]; [|discriminate].
    cbn [bind_option] in E.
    destruct (chat_id_group r2) as [[c' r3]|] eqn:Eg; [|discriminate].
    injection E as <-. now apply chat_id_group_numeric in Eg.
  - destruct (match_list text); [|contradiction].
    now destruct H as [<-|[]].
Qed.

Lemma dispatch_captures_witness :
  numeric "-100123" = true.
Proof.
  apply (dispatch_captures someone "/rem@report_bot -100123 please"
           (CmdRem someone "-100123")).
  vm_compute. now left.
Defined.

Lemma three_byte_space_32_middle (n k : N) : three_byte_space n 32 k = false.
Proof.
  unfold three_byte_space.
  change (32 =? 154)%N with false. change (32 =? 128)%N with false.
  change (32 =? 129)%N with false. change (32 =? 187)%N with false.
  now rewrite !andb_false_r.
Qed.

Lemma three_byte_space_32_last (n m : N) : three_byte_space n m 32 = false.
Proof.
  unfold three_byte_space.
  change (32 =? 128)%N with false. change (32 =? 159)%N with false.
  change (32 =? 191)%N with false. change (32 =? 168)%N with false.
  change (32 =? 169)%N with false. change (32 =? 175)%N with false.
  change (128 <=? 32)%N with false.
  now rewrite ?andb_false_r, ?andb_false_l, ?orb_false_r.
Qed.

(** A byte that follows cannot complete a white space character when it is
    the ASCII space. *)
Lemma space_rest_before_space (s r : string) :
  s <> "" -> space_rest s = None ->
  space_rest (s ++ String " " r) = None.
Proof.
  intros Hne H. destruct s as [|a [|b [|c s3]]]; [contradiction| | |].
  - cbn [append space_rest] in *.
    destruct (_ || _)%bool; [discriminate|].
    change (N_of_ascii " ") with 32%N. change (32 =? 160)%N with false.
    rewrite andb_false_r.
    destruct r as [|c r]; [reflexivity|].
    now rewrite three_byte_space_32_middle.
  - cbn [append space_rest] in *.
    destruct (_ || _)%bool; [discriminate|].
    destruct (_ && _)%bool; [discriminate|].
    change (N_of_ascii " ") with 32%N.
    now rewrite three_byte_space_32_last.
  - cbn [append space_rest] in *.
    destruct (_ || _)%bool; [discriminate|].
    destruct (_ && _)%bool; [discriminate|].
    destruct (three_byte_space _ _ _); [discriminate | reflexivity].
Qed.

Lemma take_nonspace_before_space (l r : string) :
  spaceless l = true ->
  take_nonspace (l ++ String " " r) = (l, String " " r).
Proof.
  unfold spaceless. induction l as [|a l IH]; intros H; [reflexivity|].
  cbn [take_nonspace] in H.
  destruct (space_rest (String a l)) eqn:E; [discriminate|].
  destruct (take_nonspace l) as [t r'] eqn:El. cbn [snd] in H, IH.
  change (String a l ++ String " " r)
    with (String a (l ++ String " " r)).
  cbn [take_nonspace].
  change (String a (l ++ String " " r))
    with (String a l ++ String " " r).
  rewrite (space_rest_before_space (String a l) r); [|discriminate|exact E].
  now rewrite (IH H).
Qed.

Lemma take_nonspace_spaceless (l : string) :
  spaceless l = true -> take_nonspace l = (l, "").
Proof.
  unfold spaceless. intros H.
  destruct (take_nonspace l) as [t r] eqn:E. cbn [snd] in H.
  apply String.eqb_eq in H. subst r.
  apply take_nonspace_split in E. rewrite append_nil_r in E. now subst.
Qed.

Lemma skip_spaces_nonspace (fuel : nat) (s : string) :
  space_rest s = None -> skip_spaces fuel s = s.
Proof. intros H. destruct fuel; simpl; [reflexivity | now rewrite H]. Qed.

Lemma spaceless_head (l : string) :
  spaceless l = true -> l <> "" -> space_rest l = None.
Proof.
  unfold spaceless. destruct l as [|a l]; [contradiction|]. intros H _.
  cbn [take_nonspace] in H.
  destruct (space_rest (String a l)); [discriminate | reflexivity].
Qed.

Lemma numeric_head (c : string) (r : string) :
  numeric c = true -> space_rest (c ++ r) = None.
Proof.
  destruct c as [|a c]; [discriminate|]. unfold numeric.
  assert (Hspace : (Ascii.eqb a "-" = true \/ is_digit a = true) ->
                   space_rest (String a c ++ r) = None).
  { intros Ha.
    destruct a as [[] [] [] [] [] [] [] []];
      try (destruct Ha as [Ha|Ha]; discriminate Ha);
      cbn; destruct (c ++ r) as [|b [|k t]]; reflexivity. }
  destruct (Ascii.eqb a "-") eqn:E; intros H; apply Hspace; [now left|].
  right. unfold all_digits in H. cbn [take_while] in H.
  destruct (is_digit a); [reflexivity | discriminate].
Qed.

Lemma all_digits_take (d : string) :
  all_digits d = true -> digits1 d = Some (d, "").
Proof.
  unfold all_digits, digits1. destruct d as [|a d]; [discriminate|].
  destruct (take_while is_digit (String a d)) as [t r] eqn:E. cbn [snd].
  intros H. apply String.eqb_eq in H. subst r.
  pose proof (take_while_split _ _ _ _ E) as Hs.
  rewrite append_nil_r in Hs. subst t. reflexivity.
Qed.

Lemma chat_id_group_whole (c : string) :
  numeric c = true -> chat_id_group c = Some (c, "").
Proof.
  unfold numeric, chat_id_group. destruct c as [|a c]; [discriminate|].
  destruct (Ascii.eqb a "-"); intros H; now rewrite (all_digits_take _ H).
Qed.

Lemma dispatch_add_to_chat (msg : tg_message) (link c : string) :
  numeric c = true -> spaceless link = true -> link <> "" ->
  dispatch msg ("/add " ++ link ++ " " ++ c) = [CmdAdd msg link (Some c)].
Proof.
  intros Hc Hl Hne.
  pose proof (numeric_head c "" Hc) as Hchead. rewrite append_nil_r in Hchead.
  pose proof (spaceless_head link Hl Hne) as Hlhead.
  assert (Hlink : exists a l, link = String a l).
  { destruct link as [|a l]; [contradiction | now do 2 eexists]. }
  destruct Hlink as [a [l Hlink]].
  unfold dispatch, match_start, match_list, match_add, match_rem.
  cbn.
  rewrite (skip_spaces_nonspace _ _
             (space_rest_before_space link c Hne Hlhead)).
  rewrite (take_nonspace_before_space link c Hl). rewrite Hlink at 1.
  cbn. rewrite (skip_spaces_nonspace _ c Hchead).
  rewrite (chat_id_group_whole c Hc). cbn. now rewrite Hlink.
Qed.

(** X16: the commands as the help text writes them are read as written.
    For a chat id [c] (digits after an optional minus sign) and a link
    without white space, [/rem c] reaches the handler of [/rem] with [c],
    [/add link] reaches the handler of [/add] with the link and no chat id,
    and [/add link c] reaches it with both; no other handler runs. *)
Theorem dispatch_reads_the_commands (msg : tg_message) (link c : string) :
  numeric c = true -> spaceless link = true -> link <> "" ->
  dispatch msg ("/rem " ++ c) = [CmdRem msg c] /\
  dispatch msg ("/add " ++ link) = [CmdAdd msg link None] /\
  dispatch msg ("/add " ++ link ++ " " ++ c) = [CmdAdd msg link (Some c)].
Proof.
  intros Hc Hl Hne.
  pose proof (numeric_head c "" Hc) as Hchead. rewrite append_nil_r in Hchead.
  pose proof (spaceless_head link Hl Hne) as Hlhead.
  assert (Hlink : exists a l, link = String a l).
  { destruct link as [|a l]; [contradiction | now do 2 eexists]. }
  destruct Hlink as [a [l Hlink]].
  split; [|split].
  - unfold dispatch, match_start, match_list, match_add, match_rem.
    cbn. rewrite (skip_spaces_nonspace _ c Hchead).
    now rewrite (chat_id_group_whole c Hc).
  - unfold dispatch, match_start, match_list, match_add, match_rem.
    cbn. rewrite (skip_spaces_nonspace _ link Hlhead).
    rewrite (take_nonspace_spaceless link Hl). rewrite Hlink. reflexivity.
  - now apply dispatch_add_to_chat.
Qed.

Lemma dispatch_reads_the_commands_witness :
  dispatch someone "/add https://www.tiktok.com/@user -1001234"
  = [CmdAdd someone "https://www.tiktok.com/@user" (Some "-1001234")].
Proof.
  apply (dispatch_reads_the_commands someone
           "https://www.tiktok.com/@user" "-1001234");
    [reflexivity | reflexivity | discriminate].
Defined.

End PatternFacts.

(** ** The store after a command *)

Lemma on_add_subscriptions (env : Env) (msg : tg_message) (link : string)
    (m2 : option string) (w : World) :
  isAdmin env msg = true ->
  subscriptions (state_after (on_add env msg link m2) w)
  = obj_set (chatIdToUse msg m2)
      {| tiktokHandle := link; lastSentAt := None |} (subscriptions w).
Proof.
  intros Hadmin. unfold state_after, on_add. rewrite Hadmin. run_M.
  match goal with |- context [saveSubscriptions env ?s ?w0] =>
    destruct (saveSubscriptions_returns env s w0) as [w' [-> [Hs _]]] end.
  cbn [snd subscriptions]. now rewrite Hs.
Qed.

Lemma numeric_not_empty (c : string) :
  Pattern.numeric c = true -> String.eqb c "" = false.
Proof. destruct c; [discriminate | reflexivity]. Qed.

(** ** The entries of a store and of its handles *)

Lemma insert_index_map {A B} (f : A -> B) (n : N) (kv : string * A)
    (l : list (N * (string * A))) :
  map (fun e => (fst e, (fst (snd e), f (snd (snd e)))))
      (insert_index n kv l)
  = insert_index n (fst kv, f (snd kv))
      (map (fun e => (fst e, (fst (snd e), f (snd (snd e))))) l).
Proof.
  induction l as [|[m kv'] l IH]; simpl; [reflexivity|].
  destruct (n <? m)%N; simpl; [reflexivity | now rewrite IH].
Qed.

(** [Object.entries] orders the keys whatever the values are. *)
Lemma Object_entries_map {A B} (f : A -> B) (o : list (string * A)) :
  Object_entries (map (fun kv => (fst kv, f (snd kv))) o)
  = map (fun kv => (fst kv, f (snd kv))) (Object_entries o).
Proof.
  unfold Object_entries. rewrite map_app. f_equal.
  - assert (H : index_entries (map (fun kv => (fst kv, f (snd kv))) o)
                = map (fun e => (fst e, (fst (snd e), f (snd (snd e)))))
                    (index_entries o)).
    { induction o as [|[k v] o IH]; simpl; [reflexivity|].
      destruct (array_index k); [|exact IH].
      now rewrite insert_index_map, IH. }
    rewrite H, !map_map. reflexivity.
  - unfold named_entries. induction o as [|[k v] o IH]; simpl; [reflexivity|].
    destruct (array_index k); simpl; now rewrite IH.
Qed.

Lemma attempts_from_handles (s : subs) :
  attempts s
  = filter (fun p => negb (String.eqb (snd p) "")) (Object_entries (handles s)).
Proof.
  unfold attempts, handles, with_handle.
  rewrite (Object_entries_map tiktokHandle s).
  induction (Object_entries s) as [|[k v] l IH]; simpl; [reflexivity|].
  destruct (String.eqb (tiktokHandle v) ""); simpl; now rewrite IH.
Qed.

(** ** The decimal form of the identifiers *)

(** [String(id)] of an integer identifier: the identifiers of Telegram are
    integers below [2^53], which a Number holds exactly and [String] writes
    in plain decimal notation. *)

Lemma string_of_uint_revapp (l a : Decimal.uint) :
  NilEmpty.string_of_uint (Decimal.revapp l a)
  = NilEmpty.string_of_uint (Decimal.rev l) ++ NilEmpty.string_of_uint a.
Proof.
  revert a. unfold Decimal.rev.
  induction l; intros a; cbn [Decimal.revapp]; try reflexivity;
    rewrite IHl, (IHl (_ Decimal.Nil)); cbn [NilEmpty.string_of_uint];
    now rewrite append_assoc.
Qed.

Lemma digits_of_pos_tenfold (p : positive) :
  Number.digits_of_pos (10 * p) = Number.digits_of_pos p ++ "0".
Proof.
  unfold Number.digits_of_pos, Pos.to_uint.
  change (Pos.to_little_uint (10 * p))
    with (DecimalPos.Unsigned.to_lu (10 * N.pos p)).
  rewrite DecimalPos.Unsigned.to_ldec_tenfold.
  cbn [DecimalPos.Unsigned.to_lu].
  unfold Decimal.rev at 1. cbn [Decimal.revapp].
  now rewrite string_of_uint_revapp.
Qed.

Lemma repeat_zero_snoc (n : nat) :
  repeat_string "0" n ++ "0" = repeat_string "0" (S n).
Proof.
  induction n as [|n IH]; [reflexivity|].
  cbn [repeat_string] in *. rewrite <- IH at 2. reflexivity.
Qed.

Lemma strip_zeros_digits (fuel : nat) :
  forall s e s' e',
    (0 < s)%Z -> Number.strip_zeros fuel s e = (s', e') ->
    (0 < s')%Z /\ (e <= e')%Z /\
    Number.digits_of_pos (Z.to_pos s)
    = Number.digits_of_pos (Z.to_pos s')
      ++ repeat_string "0" (Z.to_nat (e' - e)).
Proof.
  induction fuel as [|fuel IH]; intros s e s' e' Hs; cbn [Number.strip_zeros].
  - intros [= <- <-]. rewrite Z.sub_diag. cbn [Z.to_nat repeat_string].
    rewrite append_nil_r. repeat split; [exact Hs | lia].
  - destruct (Z.eqb_spec (s mod 10) 0) as [Hm|Hm].
    + intros Hrun.
      assert (s = 10 * (s / 10))%Z as Hten
        by (rewrite (Z.div_mod s 10) at 1; lia).
      assert (0 < s / 10)%Z as Hq by lia.
      destruct (IH _ _ _ _ Hq Hrun) as [Hs' [He IHd]].
      split; [exact Hs'|]. split; [lia|].
      rewrite Hten at 1.
      replace (Z.to_pos (10 * (s / 10)))
        with (10 * Z.to_pos (s / 10))%positive
        by (rewrite Z2Pos.inj_mul; [reflexivity | lia | exact Hq]).
      rewrite digits_of_pos_tenfold, IHd, append_assoc, repeat_zero_snoc.
      f_equal. f_equal. unfold Z.succ in *. lia.
    + intros [= <- <-]. rewrite Z.sub_diag. cbn [Z.to_nat repeat_string].
      rewrite append_nil_r. repeat split; [exact Hs | lia].
Qed.

Lemma length_string_of_uint (d : Decimal.uint) :
  String.length (NilEmpty.string_of_uint d)
  = N.to_nat (DecimalPos.Unsigned.usize d).
Proof.
  induction d; cbn [NilEmpty.string_of_uint String.length];
    [reflexivity | rewrite IHd; cbn [DecimalPos.Unsigned.usize]; lia ..].
Qed.

Lemma to_uint_normal (p : positive) :
  Decimal.unorm (Pos.to_uint p) = Pos.to_uint p.
Proof.
  rewrite <- DecimalPos.Unsigned.to_of, DecimalPos.Unsigned.of_to.
  reflexivity.
Qed.

Lemma digits_of_pos_length (p : positive) (n : nat) :
  (N.pos p < 10 ^ N.of_nat n)%N ->
  String.length (Number.digits_of_pos p) <= n.
Proof.
  intros Hp. unfold Number.digits_of_pos.
  pose proof (to_uint_normal p) as Hn.
  pose proof (DecimalPos.Unsigned.of_to p) as Hv.
  pose proof (DecimalPos.Unsigned.to_uint_nonzero p) as Hz.
  pose proof (DecimalPos.Unsigned.to_uint_nonnil p) as Hnil.
  assert (forall (a : positive) (d : Decimal.uint),
            N.pos p = N.pos (Pos.of_uint_acc d a) ->
            S (N.to_nat (DecimalPos.Unsigned.usize d)) <= n) as Hacc.
  { intros a d He. rewrite DecimalPos.Unsigned.of_uint_acc_rev in He.
    assert (10 ^ DecimalPos.Unsigned.usize d < 10 ^ N.of_nat n)%N as Hlt.
    { eapply N.le_lt_trans; [|exact Hp]. rewrite He.
      assert (10 ^ DecimalPos.Unsigned.usize d <> 0)%N
        by (apply N.pow_nonzero; lia).
      nia. }
    apply N.pow_lt_mono_r_iff in Hlt; lia. }
  destruct (Pos.to_uint p) as [|d|d|d|d|d|d|d|d|d|d];
    cbn [NilEmpty.string_of_uint String.length];
    rewrite ?length_string_of_uint;
    try (cbn [Pos.of_uint] in Hv; symmetry in Hv; exact (Hacc _ _ Hv)).
  - now contradiction Hnil.
  - exfalso. unfold Decimal.unorm in Hn. rewrite DecimalFacts.nzhead_D0 in Hn.
    destruct (Decimal.nzhead d) eqn:Hh; try discriminate.
    + injection Hn as <-. now apply Hz.
    + injection Hn as <-. now apply (DecimalFacts.nzhead_nonzero _ _ Hh).
Qed.

Lemma String_of_Z_decimal (z : Z) :
  (Z.abs z <= 2 ^ 53)%Z ->
  String_of_Z z =
  match z with
  | Z0 => "0"
  | Zpos p => Number.digits_of_pos p
  | Zneg p => "-" ++ Number.digits_of_pos p
  end.
Proof.
  intros Hz. unfold String_of_Z, Number.of_Z.
  assert (forall neg p,
            (Z.pos p <= 2 ^ 53)%Z ->
            Number.toString (Number.of_pos neg p)
            = Number.sign_string neg ++ Number.digits_of_pos p) as Hpos.
  { intros neg p Hp. unfold Number.of_pos.
    destruct (Number.strip_zeros (Pos.size_nat p) (Z.pos p) 0)
      as [s e] eqn:Hs.
    destruct (strip_zeros_digits _ _ _ _ _ (Pos2Z.is_pos p) Hs)
      as [Hs0 [He Hd]].
    rewrite Pos2Z.id, Z.sub_0_r in Hd.
    assert (String.length (Number.digits_of_pos p) <= 21) as Hlen.
    { apply digits_of_pos_length. change (10 ^ N.of_nat 21)%N
        with 1000000000000000000000%N.
      change (2 ^ 53)%Z with 9007199254740992%Z in Hp. lia. }
    cbn [Number.toString]. f_equal. unfold Number.toString_finite.
    rewrite Hd, JSONFacts.length_append in Hlen.
    assert (String.length (repeat_string "0" (Z.to_nat e)) = Z.to_nat e)
      as Hr.
    { clear. induction (Z.to_nat e) as [|n IH]; [reflexivity|].
      cbn [repeat_string]. rewrite JSONFacts.length_append, IH.
      reflexivity. }
    rewrite Hr in Hlen.
    set (k := Z.of_nat
                (String.length (Number.digits_of_pos (Z.to_pos s)))) in *.
    assert ((k <=? e + k)%Z = true) as -> by (apply Z.leb_le; lia).
    assert ((e + k <=? 21)%Z = true) as -> by (apply Z.leb_le; subst k; lia).
    cbn [andb]. rewrite Hd. do 3 f_equal. lia. }
  destruct z as [|p|p]; [reflexivity | |].
  - now rewrite (Hpos false p Hz).
  - now rewrite (Hpos true p Hz).
Qed.

Lemma digits_of_pos_inj (p q : positive) :
  Number.digits_of_pos p = Number.digits_of_pos q -> p = q.
Proof.
  unfold Number.digits_of_pos. intros H.
  apply DecimalPos.Unsigned.to_uint_inj.
  apply (f_equal NilEmpty.uint_of_string) in H.
  rewrite !NilEmpty.usu in H. now injection H.
Qed.

Lemma digits_of_pos_head (p : positive) :
  exists a s, Number.digits_of_pos p = String a s /\ is_digit a = true.
Proof.
  unfold Number.digits_of_pos.
  pose proof (DecimalPos.Unsigned.to_uint_nonnil p) as Hnil.
  destruct (Pos.to_uint p); [contradiction | ..];
    cbn [NilEmpty.string_of_uint]; do 2 eexists; split; reflexivity.
Qed.

Lemma String_of_Z_inj (z z' : Z) :
  (Z.abs z <= 2 ^ 53)%Z -> (Z.abs z' <= 2 ^ 53)%Z ->
  String_of_Z z = String_of_Z z' -> z = z'.
Proof.
  intros Hz Hz'.
  rewrite (String_of_Z_decimal z Hz), (String_of_Z_decimal z' Hz').
  assert (forall p, Number.digits_of_pos p <> "0") as Hzero.
  { intros p H. apply (DecimalPos.Unsigned.to_uint_nonzero p).
    unfold Number.digits_of_pos in H.
    apply (f_equal NilEmpty.uint_of_string) in H.
    rewrite NilEmpty.usu in H. now injection H. }
  assert (forall p q, Number.digits_of_pos p <> "-" ++ Number.digits_of_pos q)
    as Hsign.
  { intros p q H. destruct (digits_of_pos_head p) as [a [s [E Ha]]].
    rewrite E in H. injection H as -> _. discriminate. }
  destruct z as [|p|p], z' as [|q|q]; intros H;
    try reflexivity; try discriminate H;
    try (now contradiction (Hzero _ H));
    try (symmetry in H; now contradiction (Hzero _ H));
    try (now contradiction (Hsign _ _ H));
    try (symmetry in H; now contradiction (Hsign _ _ H)).
  - now rewrite (digits_of_pos_inj _ _ H).
  - injection H as H. now rewrite (digits_of_pos_inj _ _ H).
Qed.

Lemma take_digits_string_of_uint (d : Decimal.uint) :
  Pattern.take_while is_digit (NilEmpty.string_of_uint d)
  = (NilEmpty.string_of_uint d, "").
Proof.
  induction d; cbn [NilEmpty.string_of_uint Pattern.take_while];
    [reflexivity | ..];
    match goal with |- context [is_digit ?a] =>
      change (is_digit a) with true end;
    cbv iota; now rewrite IHd.
Qed.

Lemma String_of_Z_numeric (z : Z) :
  (Z.abs z <= 2 ^ 53)%Z -> Pattern.numeric (String_of_Z z) = true.
Proof.
  intros Hz. rewrite (String_of_Z_decimal z Hz).
  assert (forall p, Pattern.all_digits (Number.digits_of_pos p) = true) as Hall.
  { intros p. destruct (digits_of_pos_head p) as [a [s [E _]]].
    unfold Pattern.all_digits. rewrite E, <- E.
    unfold Number.digits_of_pos. now rewrite take_digits_string_of_uint. }
  destruct z as [|p|p]; [reflexivity | |].
  - pose proof (Hall p) as H.
    destruct (digits_of_pos_head p) as [a [s [E Ha]]].
    unfold Pattern.numeric. rewrite E in *.
    destruct (Ascii.eqb_spec a "-") as [->|_]; [discriminate | exact H].
  - cbn [append Pattern.numeric]. cbn. apply Hall.
Qed.

Lemma interleave_one (env : Env) (u : update) (w : World) :
  state_after (interleave env [u]) w = state_after (handle_update env u) w.
Proof.
  unfold state_after. cbn [interleave]. unfold bind, try_catch, ret.
  destruct (handle_update_returns env u w) as [w' E]. now rewrite E.
Qed.

Lemma dispatch_add_here (msg : tg_message) (link : string) :
  Pattern.spaceless link = true -> link <> "" ->
  Pattern.dispatch msg ("/add " ++ link) = [CmdAdd msg link None].
Proof.
  intros Hl Hne.
  pose proof (PatternFacts.spaceless_head link Hl Hne) as Hlhead.
  destruct link as [|a l] eqn:Hlink; [contradiction|]. rewrite <- Hlink in *.
  unfold Pattern.dispatch, Pattern.match_start, Pattern.match_list,
    Pattern.match_add, Pattern.match_rem.
  cbn. rewrite (PatternFacts.skip_spaces_nonspace _ link Hlhead).
  rewrite (PatternFacts.take_nonspace_spaceless link Hl). rewrite Hlink.
  reflexivity.
Qed.

Lemma dispatch_rem_chat (msg : tg_message) (c : string) :
  Pattern.numeric c = true ->
  Pattern.dispatch msg ("/rem " ++ c) = [CmdRem msg c].
Proof.
  intros Hc.
  pose proof (PatternFacts.numeric_head c "" Hc) as Hchead.
  rewrite append_nil_r in Hchead.
  unfold Pattern.dispatch, Pattern.match_start, Pattern.match_list,
    Pattern.match_add, Pattern.match_rem.
  cbn. rewrite (PatternFacts.skip_spaces_nonspace _ c Hchead).
  now rewrite (PatternFacts.chat_id_group_whole c Hc).
Qed.

(** X19: with an administrator configured, the commands of one sender at
    most are obeyed: two senders that pass [isAdmin] have the same user id.
    And when [BOT_ADMIN_ID] is not a user id in decimal notation (a user
    name, say), nobody passes. *)
Theorem one_administrator (env : Env) (admin : string) :
  BOT_ADMIN_ID env = Some admin -> admin <> "" ->
  (forall msg msg',
     (Z.abs (from_id msg) <= 2 ^ 53)%Z -> (Z.abs (from_id msg') <= 2 ^ 53)%Z ->
     isAdmin env msg = true -> isAdmin env msg' = true ->
     from_id msg = from_id msg') /\
  (Pattern.numeric admin = false ->
   forall msg,
     (Z.abs (from_id msg) <= 2 ^ 53)%Z -> isAdmin env msg = false).
Proof.
  intros Hadmin Hne. apply String.eqb_neq in Hne.
  split.
  - intros msg msg' Hz Hz'. unfold isAdmin. rewrite Hadmin, Hne.
    intros H H'. apply String.eqb_eq in H, H'.
    apply String_of_Z_inj; [exact Hz | exact Hz' | congruence].
  - intros Hnum msg Hz. unfold isAdmin. rewrite Hadmin, Hne.
    apply String.eqb_neq. intros H.
    pose proof (String_of_Z_numeric _ Hz) as Hn. congruence.
Qed.

Lemma one_administrator_witness :
  isAdmin user_name_env someone = false.
Proof.
  refine (proj2 (one_administrator user_name_env "@owner" eq_refl _)
            eq_refl someone _).
  - discriminate.
  - vm_compute. discriminate.
Defined.

(** X20: [/add link] without a chat id registers the chat the command is
    sent in, under the decimal form of its id, and [/rem] with that id
    reaches the handler, finds the chat and removes it; this holds for the
    negative ids of groups and channels as well. *)
Theorem own_chat_add_then_rem (env : Env) (msg msg' : tg_message)
    (link : string) (w : World) :
  isAdmin env msg = true -> isAdmin env msg' = true ->
  (Z.abs (chat_id msg) <= 2 ^ 53)%Z ->
  Pattern.spaceless link = true -> link <> "" ->
  let c := String_of_Z (chat_id msg) in
  let w1 := state_after
              (interleave env (Pattern.dispatch msg ("/add " ++ link))) w in
  let w2 := state_after
              (interleave env (Pattern.dispatch msg' ("/rem " ++ c))) w1 in
  lookup c (subscriptions w1)
    = Some {| tiktokHandle := link; lastSentAt := None |} /\
  lookup c (subscriptions w2) = None /\
  sent w2 = (sent w1 ++ [reply msg' (removed_text (escape_text c))])%list.
Proof.
  intros Hadmin Hadmin' Hz Hl Hne c w1 w2.
  pose proof (String_of_Z_numeric _ Hz) as Hc. fold c in Hc.
  assert (Hlook : lookup c (subscriptions w1)
                  = Some {| tiktokHandle := link; lastSentAt := None |}).
  { subst w1. rewrite (dispatch_add_here msg link Hl Hne), interleave_one.
    cbn [handle_update].
    rewrite (on_add_subscriptions env msg link None w Hadmin).
    apply lookup_obj_set_eq. }
  split; [exact Hlook|].
  subst w2. rewrite (dispatch_rem_chat msg' c Hc), interleave_one.
  cbn [handle_update].
  destruct (on_rem_found env msg' c w1 _ Hadmin' Hlook) as [Hsent Hsub].
  split; [|exact Hsent].
  rewrite Hsub. apply lookup_obj_delete_eq.
Qed.

Lemma own_chat_add_then_rem_witness :
  lookup "-1001234"
    (subscriptions
       (state_after
          (interleave open_env (Pattern.dispatch in_a_group "/add @a"))
          (on_disk None)))
  = Some {| tiktokHandle := "@a"; lastSentAt := None |}.
Proof.
  refine (proj1 (own_chat_add_then_rem open_env in_a_group someone "@a"
                   (on_disk None) eq_refl eq_refl _ eq_refl _)).
  - vm_compute. discriminate.
  - discriminate.
Defined.

(** ** The tags of the replies *)

Lemma escape_text_tags (s : string) :
  count_char "<" (escape_text s) = 0 /\ count_char ">" (escape_text s) = 0.
Proof. split; apply count_char_absent; apply escape_text_no_angle. Qed.

Lemma list_blocks_tags (l : list (string * subscription)) :
  count_char "<" (list_blocks l) = 2 * List.length l /\
  count_char ">" (list_blocks l) = 2 * List.length l.
Proof.
  induction l as [|[c info] l [IH1 IH2]]; [now split|].
  cbn [list_blocks List.length]. unfold list_block. cbn [fst snd].
  destruct (escape_text_tags c) as [Hc1 Hc2].
  destruct (escape_text_tags (tiktokHandle info)) as [Hh1 Hh2].
  assert (count_char "<"
            match lastSentAt info with
            | None => "never"
            | Some t => if String.eqb t "" then "never" else escape_text t
            end = 0 /\
          count_char ">"
            match lastSentAt info with
            | None => "never"
            | Some t => if String.eqb t "" then "never" else escape_text t
            end = 0) as [Ht1 Ht2].
  { destruct (lastSentAt info) as [t|]; [|now split].
    destruct (String.eqb t ""); [now split | apply escape_text_tags]. }
  split; count_tags; rewrite ?IH1, ?IH2; lia.
Qed.

Lemma on_add_sent (env : Env) (msg : tg_message) (link : string)
    (m2 : option string) (w : World) :
  isAdmin env msg = true ->
  sent (state_after (on_add env msg link m2) w)
  = (sent w ++
     [reply msg ("✅ Added report for chat <b>"
                 ++ escape_text (chatIdToUse msg m2) ++ "</b> on profile:"
                 ++ nl ++ escape_text link)])%list.
Proof.
  intros Hadmin. unfold state_after, on_add, saveSubscriptions, writeFileSync.
  rewrite Hadmin. run_M.
  destruct (fs_write env (writes w)); run_M; reflexivity.
Qed.

(** X21: the replies to the commands carry the tags of their templates and
    no other, whatever the link and the chat id typed by the user and
    whatever the store holds: two [<] and two [>] in the replies of [/add]
    and [/rem], two more per chat than the title in the reply of [/list],
    none in the help text and in the reply for an empty store. *)
Theorem command_replies_keep_their_tags (env : Env) (u : update) (w : World) :
  isAdmin env (sender u) = true ->
  exists text,
    sent (state_after (handle_update env u) w)
    = (sent w ++ [reply (sender u) text])%list /\
    count_char "<" text = reply_tags u (subscriptions w) /\
    count_char ">" text = reply_tags u (subscriptions w).
Proof.
  intros Hadmin. destruct u as [msg | msg link m2 | msg c | msg];
    cbn [sender handle_update reply_tags] in *.
  - exists help_text. now repeat split.
  - eexists. split; [apply (on_add_sent env msg link m2 w Hadmin)|].
    destruct (escape_text_tags (chatIdToUse msg m2)) as [Hc1 Hc2].
    destruct (escape_text_tags link) as [Hl1 Hl2].
    split; count_tags; reflexivity.
  - destruct (escape_text_tags c) as [Hc1 Hc2].
    destruct (lookup c (subscriptions w)) as [r|] eqn:Hl.
    + destruct (on_rem_found env msg c w r Hadmin Hl) as [Hsent _].
      eexists. split; [exact Hsent|].
      unfold removed_text. split; count_tags; reflexivity.
    + exists (not_found_text (escape_text c)).
      split; [unfold state_after;
              now rewrite (on_rem_not_found env msg c w Hadmin Hl)|].
      unfold not_found_text. split; count_tags; reflexivity.
  - exists (list_reply (subscriptions w)).
    split.
    + unfold state_after, on_list, list_reply. rewrite Hadmin. run_M.
      destruct (Object_entries (subscriptions w)) as [|kv l] eqn:E;
        [reflexivity|].
      cbn [List.length Nat.eqb]. now rewrite list_text_blocks.
    + unfold list_reply.
      pose proof (Permutation_length
                    (Object_entries_Permutation (subscriptions w))) as Hlen.
      destruct (list_blocks_tags (Object_entries (subscriptions w)))
        as [H1 H2].
      destruct (subscriptions w) as [|kv s] eqn:Es.
      * now split.
      * destruct (Object_entries (kv :: s)) as [|kv' l] eqn:E;
          [discriminate Hlen|].
        rewrite <- Hlen.
        remember (list_blocks (kv' :: l)) as blocks.
        remember (List.length (kv' :: l)) as n.
        split; count_tags; rewrite ?H1, ?H2; reflexivity.
Qed.

Lemma command_replies_keep_their_tags_witness :
  exists text,
    sent (state_after
            (handle_update open_env (CmdAdd someone "<b>x</b>" None))
            (on_disk None))
    = [reply someone text] /\
    count_char "<" text = 2 /\ count_char ">" text = 2.
Proof.
  apply (command_replies_keep_their_tags open_env
           (CmdAdd someone "<b>x</b>" None) (on_disk None)).
  reflexivity.
Defined.

(** ** Nothing lost by a restart *)

Lemma keys_filter_NoDup {A} (f : string * A -> bool) (l : list (string * A)) :
  NoDup (map fst l) -> NoDup (map fst (filter f l)).
Proof.
  induction l as [|kv l IH]; intros Hnd; [constructor|].
  inversion Hnd as [|k ks Hnot Hrest]; subst. cbn [filter].
  destruct (f kv); [|now apply IH].
  cbn [map]. constructor; [|now apply IH].
  intros Hin. apply Hnot. apply in_map_iff in Hin as [kv' [Hk Hin]].
  apply filter_In in Hin as [Hin _]. apply in_map_iff. now exists kv'.
Qed.

(** X23: when the writes succeed, a restart loses nothing: after any
    commands and a pass of the scheduler, from a state whose file holds the
    store, a process that starts on the file has the same record for every
    chat, [lastSentAt] included. *)
Theorem restart_loses_nothing (env env' : Env) (us : list update)
    (plan : string -> attempt) (w : World) :
  writes_succeed env -> fs_read_fails env' = false ->
  persisted w -> distinct_keys (subscriptions w) ->
  let w1 := state_after (runSchedulerCycle env plan)
              (state_after (interleave env us) w) in
  subscriptions (startup env' (disk w1)) = Object_entries (subscriptions w1) /\
  forall k,
    lookup k (subscriptions (startup env' (disk w1)))
    = lookup k (subscriptions w1).
Proof.
  intros Hw Hread Hp Hnd w1.
  pose proof (interleave_persisted env us Hw w Hp) as Hp0.
  pose proof (interleave_distinct_keys env us w Hnd) as Hnd0.
  set (w0 := state_after (interleave env us) w) in *.
  assert (Hp1 : persisted w1).
  { subst w1. unfold state_after at 1. rewrite runSchedulerCycle_unfold.
    apply (for_entries_persisted env plan _ Hw). exact Hp0. }
  assert (Hnd1 : distinct_keys (subscriptions w1))
    by now apply runSchedulerCycle_distinct_keys.
  unfold persisted in Hp1. rewrite Hp1. unfold startup.
  rewrite (loadSubscriptions_written env' _ Hread Hnd1). cbn [subscriptions].
  split; [reflexivity|].
  intros k. now apply lookup_Object_entries.
Qed.

Lemma restart_loses_nothing_witness :
  let w1 := state_after (runSchedulerCycle open_env first_fetch_fails)
              (state_after (interleave open_env [CmdRem someone "111"])
                 two_chats) in
  subscriptions (startup open_env (disk w1))
  = Object_entries (subscriptions w1).
Proof.
  refine (proj1 (restart_loses_nothing open_env open_env
                   [CmdRem someone "111"] first_fetch_fails two_chats
                   _ eq_refl eq_refl _)).
  - intros n. reflexivity.
  - unfold distinct_keys. simpl.
    repeat constructor; simpl; intuition discriminate.
Defined.

(** ** What a pass sends *)

Lemma scheduler_sends_app (l l' : list sent_message) :
  scheduler_sends (l ++ l')
  = (scheduler_sends l ++ scheduler_sends l')%list.
Proof. apply filter_app. Qed.

Lemma reply_not_by_scheduler (msg : tg_message) (text : string)
    (l : list sent_message) :
  scheduler_sends (l ++ [reply msg text]) = scheduler_sends l.
Proof. rewrite scheduler_sends_app. simpl. apply app_nil_r. Qed.

Lemma handle_update_scheduler_sends (env : Env) (u : update) (w : World) :
  scheduler_sends (sent (state_after (handle_update env u) w))
  = scheduler_sends (sent w).
Proof.
  destruct u as [msg | msg link m2 | msg c | msg]; cbn [handle_update].
  - apply (reply_not_by_scheduler msg help_text).
  - destruct (isAdmin env msg) eqn:Hadmin.
    + rewrite (on_add_sent env msg link m2 w Hadmin).
      apply reply_not_by_scheduler.
    + unfold state_after, on_add. now rewrite Hadmin.
  - destruct (isAdmin env msg) eqn:Hadmin.
    + destruct (lookup c (subscriptions w)) as [r|] eqn:Hl.
      * destruct (on_rem_found env msg c w r Hadmin Hl) as [-> _].
        apply reply_not_by_scheduler.
      * unfold state_after.
        rewrite (on_rem_not_found env msg c w Hadmin Hl).
        apply reply_not_by_scheduler.
    + unfold state_after, on_rem. now rewrite Hadmin.
  - destruct (isAdmin env msg) eqn:Hadmin.
    + unfold state_after, on_list. rewrite Hadmin. run_M.
      destruct (Object_entries (subscriptions w)) as [|kv l] eqn:E.
      * apply (reply_not_by_scheduler msg).
      * cbn [List.length Nat.eqb]. rewrite list_text_blocks.
        apply (reply_not_by_scheduler msg).
    + unfold state_after, on_list. now rewrite Hadmin.
Qed.

Lemma interleave_scheduler_sends (env : Env) (us : list update) :
  forall w, scheduler_sends (sent (state_after (interleave env us) w))
            = scheduler_sends (sent w).
Proof.
  induction us as [|u us IH]; intros w; [reflexivity|].
  unfold state_after in *. simpl. run_M.
  pose proof (handle_update_scheduler_sends env u w) as Hu.
  unfold state_after in Hu.
  destruct (handle_update_returns env u w) as [w' E]. rewrite E in *.
  cbn [snd] in Hu. now rewrite IH.
Qed.

Lemma report_failure_scheduler_sends (env : Env) (a : attempt) (c : string)
    (w : World) :
  scheduler_sends (sent (state_after (report_failure env a c) w))
  = (scheduler_sends (sent w) ++ [fallback_notice c])%list.
Proof.
  unfold state_after, report_failure. run_M.
  pose proof (interleave_scheduler_sends env (during_fallback a)) as Hi.
  unfold state_after in Hi. rewrite Hi. cbn [sent].
  now rewrite scheduler_sends_app.
Qed.

Lemma sendReportToChat_scheduler_sends (env : Env) (a : attempt)
    (c h : string) (w : World) :
  exists g,
    scheduler_sends (sent (state_after (sendReportToChat env a c h) w))
    = (scheduler_sends (sent w) ++ g)%list /\
    delivery a c g.
Proof.
  unfold state_after. rewrite sendReportToChat_unfold.
  unfold sendReportToChat_cases, delivery.
  pose proof (interleave_scheduler_sends env (during_fetch a) w) as H1.
  destruct (rbind (fetched a) formatReportMessage) as [m|e]; cbn [snd].
  - set (w2 := state_after (interleave env (during_send a)) _).
    assert (H2 : scheduler_sends (sent w2)
                 = (scheduler_sends (sent w) ++ [report_message c m])%list).
    { unfold w2. rewrite interleave_scheduler_sends. cbn [replied sent].
      now rewrite scheduler_sends_app, H1. }
    destruct (delivered a); cbn [snd].
    + destruct (lookup c (subscriptions w2)); cbn [snd].
      * exists [report_message c m]. split; [|now left].
        match goal with
        | |- context [state_after (saveSubscriptions env ?s) ?w0] =>
            destruct (saveSubscriptions_returns env s w0)
              as [w' [E [_ Hs]]]
        end.
        unfold state_after. rewrite E. cbn [snd]. rewrite Hs. exact H2.
      * exists [report_message c m; fallback_notice c]. split; [|now right].
        rewrite report_failure_scheduler_sends, H2.
        now rewrite <- app_assoc.
    + exists [report_message c m; fallback_notice c]. split; [|now right].
      rewrite report_failure_scheduler_sends, H2. now rewrite <- app_assoc.
  - exists [fallback_notice c]. split; [|reflexivity].
    now rewrite report_failure_scheduler_sends, H1.
Qed.

Lemma for_entries_scheduler_sends (env : Env) (plan : string -> attempt)
    (l : list (string * subscription)) :
  forall w,
  exists groups,
    scheduler_sends (sent (state_after (for_entries env plan l) w))
    = (scheduler_sends (sent w) ++ List.concat groups)%list /\
    Forall2 (fun ch g => delivery (plan (fst ch)) (fst ch) g)
      (handles (with_handle l)) groups.
Proof.
  unfold state_after.
  induction l as [|[c info] rest IH]; intros w.
  - exists []. split; [simpl; now rewrite app_nil_r | constructor].
  - unfold with_handle. cbn [filter snd].
    destruct (string_dec (tiktokHandle info) "") as [E|E].
    + rewrite for_entries_skip by exact E. rewrite E. cbn [negb String.eqb].
      apply IH.
    + rewrite for_entries_step by exact E.
      apply String.eqb_neq in E. rewrite E. cbn [negb].
      match goal with |- context [for_entries env plan rest ?w0] =>
        destruct (IH w0) as [groups [Hs Hg]] end.
      destruct (sendReportToChat_scheduler_sends env (plan c) c
                  (tiktokHandle info)
                  (logged (LogSending c (tiktokHandle info)) w))
        as [g [Hsend Hd]].
      exists (g :: groups). split.
      * rewrite Hs, interleave_scheduler_sends, Hsend.
        cbn [logged sent List.concat]. now rewrite <- app_assoc.
      * cbn [handles map]. constructor; [exact Hd | exact Hg].
Qed.

Lemma runSchedulerCycle_scheduler_sends (env : Env)
    (plan : string -> attempt) (w : World) :
  exists groups,
    scheduler_sends (sent (state_after (runSchedulerCycle env plan) w))
    = (scheduler_sends (sent w) ++ List.concat groups)%list /\
    Forall2 (fun ch g => delivery (plan (fst ch)) (fst ch) g)
      (attempts (subscriptions w)) groups.
Proof.
  unfold state_after. rewrite runSchedulerCycle_unfold.
  apply (for_entries_scheduler_sends env plan
           (Object_entries (subscriptions w)) (logged LogCycleRunning w)).
Qed.

Lemma runSchedulerCycle_sendings (env : Env) (plan : string -> attempt)
    (w : World) :
  sendings (console (state_after (runSchedulerCycle env plan) w))
  = (sendings (console w) ++ attempts (subscriptions w))%list.
Proof.
  unfold state_after. rewrite runSchedulerCycle_unfold.
  pose proof (for_entries_sendings env plan
                (Object_entries (subscriptions w))
                (logged LogCycleRunning w)) as H.
  unfold state_after in H. rewrite H. cbn [logged console].
  rewrite sendings_app. simpl. now rewrite app_nil_r.
Qed.

(** X8: a pass delivers to exactly the chats of the snapshot taken when it
    starts, whatever commands arrive while it runs.  The messages the
    scheduler sends are, for every entry of [Object.entries] with a
    non-empty handle and in that order, one delivery to the chat of the
    entry: the report formatted from the analytics fetched for it, alone
    when it was delivered or followed by the notice, or the notice alone
    when nothing could be fetched or formatted.  The console shows the same
    entries with the handles of the snapshot.  So an entry with an empty
    handle gets nothing, a chat added during the pass waits for the next
    one, and a chat removed during the pass still gets its delivery. *)
Theorem cycle_attempts_the_snapshot (env : Env) (plan : string -> attempt)
    (w : World) :
  let w' := state_after (runSchedulerCycle env plan) w in
  exists groups,
    scheduler_sends (sent w')
    = (scheduler_sends (sent w) ++ List.concat groups)%list /\
    Forall2 (fun ch g => delivery (plan (fst ch)) (fst ch) g)
      (attempts (subscriptions w)) groups /\
    sendings (console w')
    = (sendings (console w) ++ attempts (subscriptions w))%list.
Proof.
  intros w'.
  destruct (runSchedulerCycle_scheduler_sends env plan w)
    as [groups [Hsent Hgroups]].
  exists groups. split; [exact Hsent|]. split; [exact Hgroups|].
  apply runSchedulerCycle_sendings.
Qed.

Lemma group_of_entry {A B} (P : A -> list B -> Prop) (l : list A)
    (groups : list (list B)) (x : A) :
  Forall2 P l groups -> In x l ->
  exists before g after,
    List.concat groups = (before ++ g ++ after)%list /\ P x g.
Proof.
  induction 1 as [|y g l gs Hy Hrest IH]; intros Hin; [contradiction|].
  destruct Hin as [->|Hin].
  - exists [], g, (List.concat gs). now split.
  - destruct (IH Hin) as [before [g' [after [E Hp]]]].
    exists (g ++ before)%list, g', after. split; [|exact Hp].
    cbn [List.concat]. rewrite E. now rewrite <- app_assoc.
Qed.

Lemma delivery_to_chat (a : attempt) (c : string) (g : list sent_message) :
  delivery a c g -> sends_to c g = g.
Proof.
  unfold delivery, sends_to.
  destruct (rbind (fetched a) formatReportMessage) as [m|e].
  - intros [[_ ->] | ->]; cbn [filter to_chat report_message fallback_notice
                                 sm_chat]; now rewrite String.eqb_refl.
  - intros ->. cbn [filter to_chat fallback_notice sm_chat].
    now rewrite String.eqb_refl.
Qed.

Lemma delivery_to_other_chat (a : attempt) (c c' : string)
    (g : list sent_message) :
  delivery a c' g -> c' <> c -> sends_to c g = [].
Proof.
  unfold delivery, sends_to. intros H Hne. apply String.eqb_neq in Hne.
  destruct (rbind (fetched a) formatReportMessage) as [m|e].
  - destruct H as [[_ ->] | ->];
      cbn [filter to_chat report_message fallback_notice sm_chat];
      now rewrite Hne.
  - subst g. cbn [filter to_chat fallback_notice sm_chat]. now rewrite Hne.
Qed.

Lemma sends_to_scheduler_sends (c : string) (l : list sent_message) :
  sends_to c (scheduler_sends l) = sends_to c l.
Proof.
  unfold sends_to, scheduler_sends.
  induction l as [|[[id|k] t o] l IH]; [reflexivity | exact IH |].
  cbn [filter by_scheduler to_chat sm_chat].
  destruct (String.eqb k c); now rewrite IH.
Qed.

Lemma groups_to_chat (plan : string -> attempt)
    (l : list (string * string)) (groups : list (list sent_message))
    (c : string) :
  Forall2 (fun ch g => delivery (plan (fst ch)) (fst ch) g) l groups ->
  NoDup (map fst l) ->
  (In c (map fst l) -> delivery (plan c) c (sends_to c (List.concat groups)))
  /\ (~ In c (map fst l) -> sends_to c (List.concat groups) = []).
Proof.
  induction 1 as [|[c0 h] g l gs Hd Hrest IH]; intros Hnd.
  - split; [contradiction | reflexivity].
  - inversion Hnd as [|k ks Hnot Hnd']; subst.
    destruct (IH Hnd') as [IHin IHout].
    cbn [List.concat map fst] in *. unfold sends_to in *.
    rewrite filter_app. fold (sends_to c g).
    destruct (string_dec c0 c) as [->|Hne].
    + rewrite (delivery_to_chat _ _ _ Hd), (IHout Hnot), app_nil_r.
      split; [intros _; exact Hd | intros Hc; contradiction Hc; now left].
    + rewrite (delivery_to_other_chat _ _ _ _ Hd Hne). cbn [app].
      split.
      * intros [Hc | Hc]; [contradiction | now apply IHin].
      * intros Hc. apply IHout. intros Hin. apply Hc. now right.
Qed.

Lemma attempts_NoDup (s : subs) :
  distinct_keys s -> NoDup (map fst (attempts s)).
Proof.
  intros Hnd. unfold attempts, handles, with_handle.
  rewrite map_map. cbn [fst]. apply keys_filter_NoDup.
  now apply distinct_keys_Object_entries.
Qed.

(** X22: a pass delivers to no chat twice, whatever commands arrive while
    it runs: the messages the scheduler sends to a chat during a pass are
    one delivery (the report, the report followed by the notice, or the
    notice alone) when the snapshot has the chat with a non-empty handle,
    and none otherwise. *)
Theorem one_report_per_chat (env : Env) (plan : string -> attempt)
    (w : World) (c : string) :
  distinct_keys (subscriptions w) ->
  let w' := state_after (runSchedulerCycle env plan) w in
  exists g,
    sends_to c (sent w') = (sends_to c (sent w) ++ g)%list /\
    (In c (map fst (attempts (subscriptions w))) -> delivery (plan c) c g) /\
    (~ In c (map fst (attempts (subscriptions w))) -> g = []).
Proof.
  intros Hnd w'.
  destruct (runSchedulerCycle_scheduler_sends env plan w)
    as [groups [Hsent Hgroups]].
  exists (sends_to c (List.concat groups)). split.
  - subst w'. rewrite <- (sends_to_scheduler_sends c (sent _)), Hsent.
    unfold sends_to at 1. rewrite filter_app.
    fold (sends_to c (scheduler_sends (sent w))).
    now rewrite sends_to_scheduler_sends.
  - apply (groups_to_chat plan _ _ c Hgroups).
    now apply attempts_NoDup.
Qed.

Lemma one_report_per_chat_witness :
  let w' := state_after (runSchedulerCycle open_env first_fetch_fails)
              two_chats in
  exists g,
    sends_to "111" (sent w') = (sends_to "111" (sent two_chats) ++ g)%list /\
    (In "111" (map fst (attempts (subscriptions two_chats))) ->
     delivery (first_fetch_fails "111") "111" g) /\
    (~ In "111" (map fst (attempts (subscriptions two_chats))) -> g = []).
Proof.
  apply (one_report_per_chat open_env first_fetch_fails two_chats "111").
  unfold distinct_keys. simpl.
  repeat constructor; simpl; intuition discriminate.
Defined.

(** X17: when an administrator sends [/add link c], the chat [c] is
    registered with that link, whether or not the file can be written, and
    the next pass delivers to it: among the messages the scheduler sends in
    that pass there is one delivery to [c] (the report formatted from the
    analytics fetched for it, or the notice), and the console shows [c]
    with the link. *)
Theorem added_chat_is_attempted (env : Env) (msg : tg_message)
    (link c : string) (plan : string -> attempt) (w : World) :
  isAdmin env msg = true ->
  Pattern.numeric c = true -> Pattern.spaceless link = true -> link <> "" ->
  let w1 := state_after
              (interleave env
                 (Pattern.dispatch msg ("/add " ++ link ++ " " ++ c))) w in
  let w2 := state_after (runSchedulerCycle env plan) w1 in
  lookup c (subscriptions w1)
    = Some {| tiktokHandle := link; lastSentAt := None |} /\
  In (c, link) (sendings (console w2)) /\
  exists before g after,
    scheduler_sends (sent w2)
    = (scheduler_sends (sent w1) ++ before ++ g ++ after)%list /\
    delivery (plan c) c g.
Proof.
  intros Hadmin Hc Hl Hne w1 w2.
  pose proof (PatternFacts.dispatch_add_to_chat msg link c Hc Hl Hne) as Hd.
  assert (Hlook : lookup c (subscriptions w1)
                  = Some {| tiktokHandle := link; lastSentAt := None |}).
  { subst w1. rewrite Hd, interleave_one. cbn [handle_update].
    rewrite (on_add_subscriptions env msg link (Some c) w Hadmin).
    unfold chatIdToUse. rewrite (numeric_not_empty c Hc).
    apply lookup_obj_set_eq. }
  assert (Hin : In (c, link) (attempts (subscriptions w1))).
  { unfold attempts, handles, with_handle. apply in_map_iff.
    exists (c, {| tiktokHandle := link; lastSentAt := None |}).
    split; [reflexivity|]. apply filter_In. split.
    - eapply Permutation_in;
        [symmetry; apply Object_entries_Permutation|].
      now apply lookup_Some_In.
    - cbn [snd tiktokHandle]. apply String.eqb_neq in Hne.
      now rewrite Hne. }
  split; [exact Hlook|]. split.
  - subst w2. rewrite runSchedulerCycle_sendings.
    apply in_or_app. now right.
  - destruct (runSchedulerCycle_scheduler_sends env plan w1)
      as [groups [Hsent Hgroups]].
    destruct (group_of_entry _ _ _ _ Hgroups Hin)
      as [before [g [after [E Hg]]]].
    exists before, g, after. split; [|exact Hg].
    subst w2. now rewrite Hsent, E.
Qed.

Lemma added_chat_is_attempted_witness :
  let w1 := state_after
              (interleave failing_disk_env
                 (Pattern.dispatch someone "/add @b 222")) one_chat in
  let w2 := state_after (runSchedulerCycle failing_disk_env first_fetch_fails)
              w1 in
  exists before g after,
    scheduler_sends (sent w2)
    = (scheduler_sends (sent w1) ++ before ++ g ++ after)%list /\
    delivery (first_fetch_fails "222") "222" g.
Proof.
  refine (proj2 (proj2
            (added_chat_is_attempted failing_disk_env someone "@b" "222"
               first_fetch_fails one_chat eq_refl eq_refl eq_refl _))).
  discriminate.
Defined.

(** X18: a chat whose delivery failed is delivered to again by the next
    pass: of two passes in a row, with no command arriving during the
    first, each sends one delivery to every chat of the store that has a
    non-empty handle, to the same chats and in the same order, whatever
    happened to the requests of the first pass; the console shows the same
    chats and handles twice. *)
Theorem next_pass_retries (env : Env) (plan1 plan2 : string -> attempt)
    (w : World) :
  (forall c, undisturbed (plan1 c)) ->
  let w1 := state_after (runSchedulerCycle env plan1) w in
  let w2 := state_after (runSchedulerCycle env plan2) w1 in
  exists groups1 groups2,
    scheduler_sends (sent w1)
    = (scheduler_sends (sent w) ++ List.concat groups1)%list /\
    Forall2 (fun ch g => delivery (plan1 (fst ch)) (fst ch) g)
      (attempts (subscriptions w)) groups1 /\
    scheduler_sends (sent w2)
    = (scheduler_sends (sent w1) ++ List.concat groups2)%list /\
    Forall2 (fun ch g => delivery (plan2 (fst ch)) (fst ch) g)
      (attempts (subscriptions w)) groups2 /\
    sendings (console w2)
    = (sendings (console w) ++ attempts (subscriptions w)
       ++ attempts (subscriptions w))%list.
Proof.
  intros Hcalm w1 w2.
  assert (Hsame : attempts (subscriptions w1) = attempts (subscriptions w)).
  { rewrite !attempts_from_handles. f_equal. f_equal.
    subst w1. unfold state_after. rewrite runSchedulerCycle_unfold.
    pose proof (for_entries_handles env plan1
                  (Object_entries (subscriptions w)) Hcalm
                  (logged LogCycleRunning w)) as H.
    unfold state_after in H. now rewrite H. }
  destruct (runSchedulerCycle_scheduler_sends env plan1 w)
    as [groups1 [Hsent1 Hgroups1]].
  destruct (runSchedulerCycle_scheduler_sends env plan2 w1)
    as [groups2 [Hsent2 Hgroups2]].
  rewrite Hsame in Hgroups2.
  exists groups1, groups2.
  split; [exact Hsent1|]. split; [exact Hgroups1|].
  split; [exact Hsent2|]. split; [exact Hgroups2|].
  subst w2. rewrite runSchedulerCycle_sendings.
  subst w1. rewrite runSchedulerCycle_sendings.
  fold (state_after (runSchedulerCycle env plan1) w). rewrite Hsame.
  now rewrite <- app_assoc.
Qed.

Lemma next_pass_retries_witness :
  let plan2 := fun _ : string => calm (Ok small_report) true true in
  let w1 := state_after (runSchedulerCycle open_env first_fetch_fails)
              two_chats in
  let w2 := state_after (runSchedulerCycle open_env plan2) w1 in
  exists groups1 groups2,
    scheduler_sends (sent w1)
    = (scheduler_sends (sent two_chats) ++ List.concat groups1)%list /\
    Forall2 (fun ch g => delivery (first_fetch_fails (fst ch)) (fst ch) g)
      (attempts (subscriptions two_chats)) groups1 /\
    scheduler_sends (sent w2)
    = (scheduler_sends (sent w1) ++ List.concat groups2)%list /\
    Forall2 (fun ch g => delivery (plan2 (fst ch)) (fst ch) g)
      (attempts (subscriptions two_chats)) groups2 /\
    sendings (console w2)
    = (sendings (console two_chats) ++ attempts (subscriptions two_chats)
       ++ attempts (subscriptions two_chats))%list.
Proof.
  apply (next_pass_retries open_env first_fetch_fails
           (fun _ => calm (Ok small_report) true true) two_chats).
  intros c. unfold first_fetch_fails.
  destruct (String.eqb c "111"); repeat split.
Defined.
